(** * LED-Streifen: pixel addressing, current limiting and the transmit
      state machine of [microLED.h], and the 16-bit pixel store of the
      AdafruitMyPixel backend.

    The target is an 8-bit AVR: [int] and [unsigned int] are 16 bits wide,
    [long] is 32 bits wide and [float] is IEEE-754 binary32; a [float] is
    converted to a byte through a 32-bit integer. *)

From stdpp Require Import base option list.
From Stdlib Require Import ZArith Lia Bool SpecFloat Ascii.
From Stdlib Require String.
Import String.StringSyntax.

Local Open Scope Z_scope.

(** ** Integer types of the target *)

Module CInt.

(** Value of an unsigned [bits]-bit object holding [z]. *)
Definition to_unsigned (bits z : Z) : Z := z mod 2 ^ bits.

(** Value of a signed two's-complement [bits]-bit object holding [z]. *)
Definition to_signed (bits z : Z) : Z :=
  (z + 2 ^ (bits - 1)) mod 2 ^ bits - 2 ^ (bits - 1).

Definition to_uint8 : Z -> Z := to_unsigned 8.
Definition to_uint16 : Z -> Z := to_unsigned 16.
Definition to_int : Z -> Z := to_signed 16.
Definition to_long : Z -> Z := to_signed 32.

Definition is_uint8 (z : Z) : Prop := 0 <= z <= 255.
Definition is_uint16 (z : Z) : Prop := 0 <= z <= 65535.
Definition is_int (z : Z) : Prop := -32768 <= z <= 32767.

(** Congruence modulo 2^16: what survives the wrap-around of [int]. *)
Definition eqm (a b : Z) : Prop := a mod 65536 = b mod 65536.

(** [strip_to_int t]: the term [t] with its wrap-arounds removed. *)
Ltac strip_to_int t :=
  lazymatch t with
  | to_int ?a => strip_to_int a
  | ?a + ?b =>
      let a' := strip_to_int a in
      let b' := strip_to_int b in constr:(a' + b')
  | ?a - ?b =>
      let a' := strip_to_int a in
      let b' := strip_to_int b in constr:(a' - b')
  | ?a * ?b =>
      let a' := strip_to_int a in
      let b' := strip_to_int b in constr:(a' * b')
  | _ => t
  end.

End CInt.

(** ** binary32 arithmetic, as the Standard Library specifies IEEE-754 *)

Module F32.

Definition prec : Z := 24.
Definition emax : Z := 128.

(** [(float) z] for an integer [z]: rounded to nearest, ties to even. *)
Definition of_Z (z : Z) : spec_float := binary_normalize prec emax z 0 false.

Definition mul : spec_float -> spec_float -> spec_float := SFmul prec emax.
Definition div : spec_float -> spec_float -> spec_float := SFdiv prec emax.

(** The integer part of a finite float (the fraction is discarded);
    infinities and NaN have none. *)
Definition trunc (f : spec_float) : option Z :=
  match f with
  | S754_zero _ => Some 0
  | S754_finite s m e =>
      let a := if 0 <=? e then Z.pos m * 2 ^ e else Z.pos m / 2 ^ (- e) in
      Some (if s then - a else a)
  | S754_infinity _ | S754_nan => None
  end.

(** Conversion of a float to [uint8_t], as the compiler emits it: the
    value is truncated to a 32-bit integer, of which the low byte is kept.
    For a truncated value in 0..255 this is the value itself; a negative
    one wraps around (-4 gives 252).  There is no result when the
    truncated value does not fit 32 bits. *)
Definition to_uint8 (f : spec_float) : option Z :=
  t ← trunc f;
  if (-2147483648 <=? t) && (t <=? 2147483647) then Some (t mod 256)
  else None.

(** Number of binary digits of a positive integer. *)
Definition digits (n : Z) : Z := Z.log2 n + 1.

(** The binary32 number of sign [sx] and magnitude [n], 0 < n < 2^24: a
    24-bit mantissa and the matching exponent. *)
Definition signed_normal (sx : bool) (n : Z) : spec_float :=
  S754_finite sx (Z.to_pos (n * 2 ^ (24 - digits n))) (digits n - 24).

(** The binary32 number holding the positive integer [n] < 2^24. *)
Definition normal (n : Z) : spec_float := signed_normal false n.

(** The integer of sign [sx] and magnitude [n]. *)
Definition signed (sx : bool) (n : Z) : Z := if sx then - n else n.

End F32.

(** ** microLED.h *)

Module MicroLED.
Import CInt.

Inductive M_chip :=
| LED_WS2811 | LED_WS2812 | LED_WS2813 | LED_WS2815 | LED_WS2818
| LED_WS6812 | LED_APA102 | LED_APA102_SPI.

Inductive M_ISR := CLI_OFF | CLI_LOW | CLI_AVER | CLI_HIGH.

(** The I/O registers the pin tables of [myarduino.h] refer to. *)
Inductive ioreg := DDRB | DDRC | DDRD | PORTB | PORTC | PORTD.

Definition ioreg_eqb (a b : ioreg) : bool :=
  match a, b with
  | DDRB, DDRB | DDRC, DDRC | DDRD, DDRD
  | PORTB, PORTB | PORTC, PORTC | PORTD, PORTD => true
  | _, _ => false
  end.

Definition MLED_NO_CLOCK : Z := -1.

(** The template parameters of [class microLED], with the one build
    macro ([MLED_USE_SPI]) the class body tests. *)
Record Template := {
  amount : Z;
  pin : Z;
  pinCLK : Z;
  chip : M_chip;
  order : Z;
  def_isr : M_ISR;
  uptime : Z;
  MLED_USE_SPI : bool
}.

Definition CHIP4COLOR (T : Template) : bool :=
  match chip T with LED_WS6812 => true | _ => false end.

Definition chip_is_APA102 (T : Template) : bool :=
  match chip T with LED_APA102 | LED_APA102_SPI => true | _ => false end.

(** [color_utility.h] is not among the sources: the colour type [mData]
    and the channel fades the class calls are parameters. *)
Class ColorUtility (mData : Type) := {
  fade8 : Z -> Z -> Z;
  fade8R : mData -> Z -> Z;
  fade8G : mData -> Z -> Z;
  fade8B : mData -> Z -> Z
}.

(** What the controller does to the outside world, in order. *)
Inductive event :=
| Store (r : ioreg) (v : Z) (* a store to an I/O register *)
| Delay                     (* the timed gap between two stores of a pulse *)
| SpiBegin
| SpiTransfer (data : Z)
| SpiEndTransaction
| SpiBeginTransaction
| UptimePoll.               (* call of the external systemUptimePoll() *)

Record AVR := {
  SREG : Z;
  io : ioreg -> Z;
  trace : list event
}.

Record microLED (mData : Type) := {
  oneLedMax : Z;
  oneLedIdle : Z;
  leds : list mData;
  white : list Z;
  _bright : Z;
  _showBright : Z;
  _matrixConfig : Z;
  _matrixType : Z;
  _width : Z;
  _height : Z;
  _matrixW : Z;
  _maxCurrent : Z;
  _dat_port : option ioreg;
  _dat_ddr : option ioreg;
  _clk_port : option ioreg;
  _clk_ddr : option ioreg;
  _dat_mask : Z;
  _clk_mask : Z;
  _mask_h : Z;
  _mask_l : Z;
  sregSave : Z;
  isr : M_ISR
}.

Arguments oneLedMax {mData}. Arguments oneLedIdle {mData}.
Arguments leds {mData}. Arguments white {mData}.
Arguments _bright {mData}. Arguments _showBright {mData}.
Arguments _matrixConfig {mData}. Arguments _matrixType {mData}.
Arguments _width {mData}. Arguments _height {mData}.
Arguments _matrixW {mData}. Arguments _maxCurrent {mData}.
Arguments _dat_port {mData}. Arguments _dat_ddr {mData}.
Arguments _clk_port {mData}. Arguments _clk_ddr {mData}.
Arguments _dat_mask {mData}. Arguments _clk_mask {mData}.
Arguments _mask_h {mData}. Arguments _mask_l {mData}.
Arguments sregSave {mData}. Arguments isr {mData}.

Section Class_microLED.
Context {mData : Type} `{CU : ColorUtility mData}.
Variable T : Template.

Local Abbreviation obj := (microLED mData).

(** *** Field updates *)

Definition with_leds (l : list mData) (o : obj) : obj :=
  Build_microLED mData (oneLedMax o) (oneLedIdle o) l (white o)
    (_bright o) (_showBright o) (_matrixConfig o) (_matrixType o)
    (_width o) (_height o) (_matrixW o) (_maxCurrent o)
    (_dat_port o) (_dat_ddr o) (_clk_port o) (_clk_ddr o)
    (_dat_mask o) (_clk_mask o) (_mask_h o) (_mask_l o)
    (sregSave o) (isr o).

Definition with_showBright (b : Z) (o : obj) : obj :=
  Build_microLED mData (oneLedMax o) (oneLedIdle o) (leds o) (white o)
    (_bright o) b (_matrixConfig o) (_matrixType o)
    (_width o) (_height o) (_matrixW o) (_maxCurrent o)
    (_dat_port o) (_dat_ddr o) (_clk_port o) (_clk_ddr o)
    (_dat_mask o) (_clk_mask o) (_mask_h o) (_mask_l o)
    (sregSave o) (isr o).

Definition with_maxCurrent (ma : Z) (o : obj) : obj :=
  Build_microLED mData (oneLedMax o) (oneLedIdle o) (leds o) (white o)
    (_bright o) (_showBright o) (_matrixConfig o) (_matrixType o)
    (_width o) (_height o) (_matrixW o) ma
    (_dat_port o) (_dat_ddr o) (_clk_port o) (_clk_ddr o)
    (_dat_mask o) (_clk_mask o) (_mask_h o) (_mask_l o)
    (sregSave o) (isr o).

Definition with_masks (h l : Z) (o : obj) : obj :=
  Build_microLED mData (oneLedMax o) (oneLedIdle o) (leds o) (white o)
    (_bright o) (_showBright o) (_matrixConfig o) (_matrixType o)
    (_width o) (_height o) (_matrixW o) (_maxCurrent o)
    (_dat_port o) (_dat_ddr o) (_clk_port o) (_clk_ddr o)
    (_dat_mask o) (_clk_mask o) h l
    (sregSave o) (isr o).

Definition with_sregSave (s : Z) (o : obj) : obj :=
  Build_microLED mData (oneLedMax o) (oneLedIdle o) (leds o) (white o)
    (_bright o) (_showBright o) (_matrixConfig o) (_matrixType o)
    (_width o) (_height o) (_matrixW o) (_maxCurrent o)
    (_dat_port o) (_dat_ddr o) (_clk_port o) (_clk_ddr o)
    (_dat_mask o) (_clk_mask o) (_mask_h o) (_mask_l o)
    s (isr o).

Definition with_isr (i : M_ISR) (o : obj) : obj :=
  Build_microLED mData (oneLedMax o) (oneLedIdle o) (leds o) (white o)
    (_bright o) (_showBright o) (_matrixConfig o) (_matrixType o)
    (_width o) (_height o) (_matrixW o) (_maxCurrent o)
    (_dat_port o) (_dat_ddr o) (_clk_port o) (_clk_ddr o)
    (_dat_mask o) (_clk_mask o) (_mask_h o) (_mask_l o)
    (sregSave o) i.

Definition with_SREG (s : Z) (m : AVR) : AVR :=
  {| SREG := s; io := io m; trace := trace m |}.

Definition with_io (r : ioreg) (v : Z) (m : AVR) : AVR :=
  {| SREG := SREG m;
     io := fun r' => if ioreg_eqb r r' then v else io m r';
     trace := trace m |}.

Definition emit (e : event) (m : AVR) : AVR :=
  {| SREG := SREG m; io := io m; trace := trace m ++ [e] |}.

(** A store to an I/O register: the register holds the value, and the
    store is seen outside. *)
Definition store_io (r : ioreg) (v : Z) (m : AVR) : AVR :=
  emit (Store r v) (with_io r v m).

(** *** Matrix addressing *)

(** [switch (_matrixConfig)]: the case taken, if any.  With no case
    taken [thisX] and [thisY] stay uninitialised. *)
Definition thisXY (o : obj) (x y : Z) : option (Z * Z) :=
  let w := _width o in
  let h := _height o in
  match _matrixConfig o with
  | 0 => Some (x, y)
  | 4 => Some (y, x)
  | 1 => Some (x, to_int (to_int (h - y) - 1))
  | 13 => Some (to_int (to_int (h - y) - 1), x)
  | 10 => Some (to_int (to_int (w - x) - 1), to_int (to_int (h - y) - 1))
  | 14 => Some (to_int (to_int (h - y) - 1), to_int (to_int (w - x) - 1))
  | 11 => Some (to_int (to_int (w - x) - 1), y)
  | 7 => Some (y, to_int (to_int (w - x) - 1))
  | _ => None
  end.

Definition getPixNumber (o : obj) (x y : Z) : option Z :=
  '(thisX, thisY) ← thisXY o x y;
  if negb (_matrixType o =? 0) || (Z.rem thisY 2 =? 0)
  then Some (to_uint16 (to_int (to_int (thisY * _matrixW o) + thisX)))
  else Some (to_uint16
               (to_int (to_int (to_int (to_int (thisY * _matrixW o)
                                        + _matrixW o) - thisX) - 1))).

(** Outcome of a store into [leds]. *)
Inductive stored :=
| Stored (o : obj)            (* the object after the call *)
| OutOfBounds (index : Z)     (* a store at leds[index], index >= amount *)
| Indeterminate.              (* a store at an uninitialised index *)

Definition set_xy (o : obj) (x y : Z) (color : mData) : stored :=
  if (to_int (x * y) >=? amount T) || (x <? 0) || (y <? 0)
     || (x >=? _width o) || (y >=? _height o)
  then Stored o
  else match getPixNumber o x y with
       | None => Indeterminate
       | Some n =>
           if n <? amount T
           then Stored (with_leds (<[Z.to_nat n := color]> (leds o)) o)
           else OutOfBounds n
       end.

(** *** Current limiter *)

(** The loop of [correctBright]: [sum] accumulates the three faded channels
    of [leds[i]] for every [i] of [idx]; a read outside [leds] has no
    defined value. *)
Fixpoint sum_channels (o : obj) (bright : Z) (idx : list Z) (sum : Z)
  : option Z :=
  match idx with
  | [] => Some sum
  | i :: rest =>
      c ← leds o !! Z.to_nat i;
      let sum := to_long (sum + fade8R c bright) in
      let sum := to_long (sum + fade8G c bright) in
      let sum := to_long (sum + fade8B c bright) in
      sum_channels o bright rest sum
  end.

Definition correctBright (o : obj) (bright : Z) : option Z :=
  sum ← sum_channels o bright (seqZ 0 (amount T)) 0;
  let sum := to_long (to_long (Z.shiftr sum 8 * oneLedMax o) ÷ 3) in
  let idle := to_int (to_long (oneLedIdle o * amount T) ÷ 1000) in
  if sum =? 0 then Some bright
  else if to_long (sum + idle) <? _maxCurrent o then Some bright
  else F32.to_uint8
         (F32.div
            (F32.mul (F32.of_Z (to_int (_maxCurrent o - idle)))
                     (F32.of_Z bright))
            (F32.of_Z sum)).

(** *** Output: a state and error monad over the object and the MCU *)

Record state := { this : obj; mcu : AVR }.

(** [None]: the call has no defined behaviour. *)
Definition M (A : Type) : Type := state -> option (A * state).

#[global] Instance M_ret : MRet M := fun A a s => Some (a, s).

#[global] Instance M_bind : MBind M := fun A B k c s =>
  match c s with
  | Some (a, s') => k a s'
  | None => None
  end.

Definition undefined {A : Type} : M A := fun _ => None.

Definition gets {A : Type} (f : state -> A) : M A := fun s => Some (f s, s).

Definition update_this (f : obj -> obj) : M unit :=
  fun s => Some (tt, {| this := f (this s); mcu := mcu s |}).

Definition update_mcu (f : AVR -> AVR) : M unit :=
  fun s => Some (tt, {| this := this s; mcu := f (mcu s) |}).

Definition when (b : bool) (c : M unit) : M unit :=
  if b then c else mret tt.

Definition deref {A : Type} (p : option A) : M A :=
  match p with
  | Some a => mret a
  | None => undefined
  end.

Fixpoint for_each {A : Type} (l : list A) (body : A -> M unit) : M unit :=
  match l with
  | [] => mret tt
  | a :: l' => body a ;; for_each l' body
  end.

Fixpoint repeat_n (n : nat) (body : M unit) : M unit :=
  match n with
  | O => mret tt
  | S n' => body ;; repeat_n n' body
  end.

Definition isr_is (i : M_ISR) : M bool :=
  gets (fun s =>
          match isr (this s), i with
          | CLI_OFF, CLI_OFF | CLI_LOW, CLI_LOW
          | CLI_AVER, CLI_AVER | CLI_HIGH, CLI_HIGH => true
          | _, _ => false
          end).

(** [sregSave = SREG; cli();] *)
Definition save_and_cli : M unit :=
  sreg ← gets (fun s => SREG (mcu s));
  update_this (with_sregSave sreg) ;;
  update_mcu (with_SREG (Z.clearbit sreg 7)).

(** [SREG = sregSave;] *)
Definition restore_sreg : M unit :=
  saved ← gets (fun s => sregSave (this s));
  update_mcu (with_SREG saved).

Definition read_io (p : option ioreg) : M Z :=
  r ← deref p;
  gets (fun s => io (mcu s) r).

Definition write_io (p : option ioreg) (v : Z) : M unit :=
  r ← deref p;
  update_mcu (store_io r v).

(** The rounds of the assembly blocks, one per bit: [ST X, SET_H]; with
    bit 7 of the data clear, [ST X, SET_L]; the data shifted left; the
    delay loop and the NOP; [ST X, SET_L].  The two blocks differ in the
    length of the delay only. *)
Fixpoint ws_pulses (n : nat) (data : Z) : M unit :=
  match n with
  | O => mret tt
  | S n' =>
      h ← gets (fun s => _mask_h (this s));
      l ← gets (fun s => _mask_l (this s));
      p ← gets (fun s => _dat_port (this s));
      write_io p h ;;
      when (negb (Z.testbit data 7)) (write_io p l) ;;
      update_mcu (emit Delay) ;;
      write_io p l ;;
      ws_pulses n' (to_uint8 (Z.shiftl data 1))
  end.

(** The bit-banged loop of [LED_APA102]. *)
Fixpoint apa102_bits (n : nat) (data : Z) : M unit :=
  match n with
  | O => mret tt
  | S n' =>
      dp ← gets (fun s => _dat_port (this s));
      dm ← gets (fun s => _dat_mask (this s));
      cp ← gets (fun s => _clk_port (this s));
      cm ← gets (fun s => _clk_mask (this s));
      d ← read_io dp;
      (if Z.testbit data 7
       then write_io dp (to_uint8 (Z.lor d dm))
       else write_io dp (to_uint8 (Z.land d (Z.lnot dm)))) ;;
      c ← read_io cp;
      write_io cp (to_uint8 (Z.lor c cm)) ;;
      c ← read_io cp;
      write_io cp (to_uint8 (Z.land c (Z.lnot cm))) ;;
      apa102_bits n' (to_uint8 (Z.shiftl data 1))
  end.

Definition sendRaw (data : Z) : M unit :=
  low ← isr_is CLI_LOW;
  when low save_and_cli ;;
  match chip T with
  | LED_WS2811 => ws_pulses 8 data
  | LED_WS2812 | LED_WS2813 | LED_WS2815 | LED_WS2818 | LED_WS6812 =>
      ws_pulses 8 data
  | LED_APA102 => apa102_bits 8 data
  | LED_APA102_SPI =>
      when (MLED_USE_SPI T) (update_mcu (emit (SpiTransfer data)))
  end ;;
  low ← isr_is CLI_LOW;
  when low restore_sreg.

(** [data[i] = v] for the local [uint8_t data[3]]. *)
Definition store_data (data : list (option Z)) (i v : Z)
  : M (list (option Z)) :=
  if (0 <=? i) && (i <? 3)
  then mret (<[Z.to_nat i := Some (to_uint8 v)]> data)
  else undefined.

Definition send (color : mData) (thisWhite : Z) : M unit :=
  b ← gets (fun s => _showBright (this s));
  data ← store_data [None; None; None]
            (Z.land (Z.shiftr (order T) 4) 3) (fade8R color b);
  data ← store_data data (Z.land (Z.shiftr (order T) 2) 3) (fade8G color b);
  data ← store_data data (Z.land (order T) 3) (fade8B color b);
  let thisWhite :=
    if CHIP4COLOR T then to_uint8 (fade8 thisWhite b) else thisWhite in
  aver ← isr_is CLI_AVER;
  when aver save_and_cli ;;
  when (chip_is_APA102 T) (sendRaw 255) ;;
  for_each data (fun d => v ← deref d; sendRaw v) ;;
  when (CHIP4COLOR T) (sendRaw thisWhite) ;;
  aver ← isr_is CLI_AVER;
  when aver restore_sreg ;;
  high ← isr_is CLI_HIGH;
  when (negb (uptime T =? 0) && (aver || high))
       (update_mcu (emit UptimePoll)).

Definition begin : M unit :=
  when (negb (pin T =? MLED_NO_CLOCK))
       (dm ← gets (fun s => _dat_mask (this s));
        dp ← gets (fun s => _dat_port (this s));
        d ← read_io dp;
        d' ← read_io dp;
        update_this (with_masks (to_uint8 (Z.lor dm d))
                                (to_uint8 (Z.land (Z.lnot dm) d')))) ;;
  update_this (fun o => with_showBright (_bright o) o) ;;
  high ← isr_is CLI_HIGH;
  when high save_and_cli ;;
  when (MLED_USE_SPI T) (update_mcu (emit SpiBeginTransaction)) ;;
  when (chip_is_APA102 T) (repeat_n 4 (sendRaw 0)).

Definition end_ : M unit :=
  high ← isr_is CLI_HIGH;
  when high restore_sreg ;;
  when (chip_is_APA102 T) (repeat_n 4 (sendRaw 0)) ;;
  when (MLED_USE_SPI T) (update_mcu (emit SpiEndTransaction)).

Definition show : M unit :=
  begin ;;
  ma ← gets (fun s => _maxCurrent (this s));
  when (negb (ma =? 0) && negb (amount T =? 0))
       (o ← gets this;
        b ← deref (correctBright o (_bright o));
        update_this (with_showBright b)) ;;
  (if CHIP4COLOR T
   then for_each (seqZ 0 (amount T))
          (fun i =>
             o ← gets this;
             c ← deref (leds o !! Z.to_nat i);
             w ← deref (white o !! Z.to_nat i);
             send c w)
   else for_each (seqZ 0 (amount T))
          (fun i =>
             o ← gets this;
             c ← deref (leds o !! Z.to_nat i);
             send c 0)) ;;
  end_.

(** *** Construction *)

Definition digital_pin_to_port_PGM : list Z :=
  [4; 4; 4; 4; 4; 4; 4; 4; 2; 2; 2; 2; 2; 2; 3; 3; 3; 3; 3; 3].

Definition digital_pin_to_bit_mask_PGM : list Z :=
  [1; 2; 4; 8; 16; 32; 64; 128; 1; 2; 4; 8; 16; 32; 1; 2; 4; 8; 16; 32].

(** [NOT_A_PORT] is the null pointer. *)
Definition port_to_mode_PGM : list (option ioreg) :=
  [None; None; Some DDRB; Some DDRC; Some DDRD].

Definition port_to_output_PGM : list (option ioreg) :=
  [None; None; Some PORTB; Some PORTC; Some PORTD].

(** [pgm_read_byte(table + P)]: defined inside the table only. *)
Definition pgm_read {A : Type} (table : list A) (P : Z) : option A :=
  if P <? 0 then None else table !! Z.to_nat P.

Definition digitalPinToPort : Z -> option Z := pgm_read digital_pin_to_port_PGM.
Definition digitalPinToBitMask : Z -> option Z :=
  pgm_read digital_pin_to_bit_mask_PGM.
Definition portOutputRegister : Z -> option (option ioreg) :=
  pgm_read port_to_output_PGM.
Definition portModeRegister : Z -> option (option ioreg) :=
  pgm_read port_to_mode_PGM.

Definition with_dat (mask : Z) (port ddr : option ioreg) (o : obj) : obj :=
  Build_microLED mData (oneLedMax o) (oneLedIdle o) (leds o) (white o)
    (_bright o) (_showBright o) (_matrixConfig o) (_matrixType o)
    (_width o) (_height o) (_matrixW o) (_maxCurrent o)
    port ddr (_clk_port o) (_clk_ddr o)
    mask (_clk_mask o) (_mask_h o) (_mask_l o)
    (sregSave o) (isr o).

Definition with_clk (mask : Z) (port ddr : option ioreg) (o : obj) : obj :=
  Build_microLED mData (oneLedMax o) (oneLedIdle o) (leds o) (white o)
    (_bright o) (_showBright o) (_matrixConfig o) (_matrixType o)
    (_width o) (_height o) (_matrixW o) (_maxCurrent o)
    (_dat_port o) (_dat_ddr o) port ddr
    (_dat_mask o) mask (_mask_h o) (_mask_l o)
    (sregSave o) (isr o).

Definition with_oneLed (max idle : Z) (o : obj) : obj :=
  Build_microLED mData max idle (leds o) (white o)
    (_bright o) (_showBright o) (_matrixConfig o) (_matrixType o)
    (_width o) (_height o) (_matrixW o) (_maxCurrent o)
    (_dat_port o) (_dat_ddr o) (_clk_port o) (_clk_ddr o)
    (_dat_mask o) (_clk_mask o) (_mask_h o) (_mask_l o)
    (sregSave o) (isr o).

Definition with_matrixW (w : Z) (o : obj) : obj :=
  Build_microLED mData (oneLedMax o) (oneLedIdle o) (leds o) (white o)
    (_bright o) (_showBright o) (_matrixConfig o) (_matrixType o)
    (_width o) (_height o) w (_maxCurrent o)
    (_dat_port o) (_dat_ddr o) (_clk_port o) (_clk_ddr o)
    (_dat_mask o) (_clk_mask o) (_mask_h o) (_mask_l o)
    (sregSave o) (isr o).

Definition init : M unit :=
  when (negb (pin T =? MLED_NO_CLOCK))
       (mask ← deref (digitalPinToBitMask (pin T));
        port ← deref (digitalPinToPort (pin T));
        out ← deref (portOutputRegister port);
        ddr ← deref (portModeRegister port);
        update_this (with_dat mask out ddr) ;;
        d ← read_io ddr;
        write_io ddr (to_uint8 (Z.lor d mask))) ;;
  when (negb (pinCLK T =? MLED_NO_CLOCK))
       (mask ← deref (digitalPinToBitMask (pinCLK T));
        port ← deref (digitalPinToPort (pinCLK T));
        out ← deref (portOutputRegister port);
        ddr ← deref (portModeRegister port);
        update_this (with_clk mask out ddr) ;;
        d ← read_io ddr;
        write_io ddr (to_uint8 (Z.lor d mask))) ;;
  match chip T with
  | LED_WS2811 => update_this (with_oneLed 46 2000)
  | LED_WS2812 => update_this (with_oneLed 30 660)
  | LED_WS2813 => update_this (with_oneLed 30 1266)
  | LED_WS2815 => update_this (with_oneLed 10 1753)
  | LED_WS2818 => update_this (with_oneLed 46 1900)
  | LED_WS6812 | LED_APA102 | LED_APA102_SPI => mret tt
  end ;;
  when (MLED_USE_SPI T) (update_mcu (emit SpiBegin)).

(** The member initialisers: what the object holds when a constructor
    body starts.  The arrays, the port pointers and the masks are not
    initialised: they keep what the storage [raw] held. *)
Definition initialised (raw : obj) (sreg : Z)
  (width height config type : Z) : obj :=
  Build_microLED mData 46 2000 (leds raw) (white raw)
    50 50 config type width height 0 0
    (_dat_port raw) (_dat_ddr raw) (_clk_port raw) (_clk_ddr raw)
    (_dat_mask raw) (_clk_mask raw) (_mask_h raw) (_mask_l raw)
    sreg (def_isr T).

(** [microLED()] *)
Definition microLED_strip : M unit :=
  sreg ← gets (fun s => SREG (mcu s));
  update_this (fun raw => initialised raw sreg 0 0 0 0) ;;
  init.

(** [microLED(width, height, type, conn, dir)]; the enumerators arrive as
    their integer values. *)
Definition microLED_matrix (width height type conn dir : Z) : M unit :=
  let width := to_uint8 width in
  let height := to_uint8 height in
  let config :=
    to_uint8 (Z.lor (to_uint8 conn) (to_int (Z.shiftl (to_uint8 dir) 2))) in
  sreg ← gets (fun s => SREG (mcu s));
  update_this (fun raw =>
                 initialised raw sreg width height config (to_uint8 type)) ;;
  init ;;
  if (config =? 4) || (config =? 13) || (config =? 14) || (config =? 7)
  then update_this (with_matrixW height)
  else update_this (with_matrixW width).

(** [fill(mData color)]: the loop index stays below [amount]. *)
Definition fill (o : obj) (color : mData) : obj :=
  with_leds
    (foldl (fun l i => <[Z.to_nat i := color]> l) (leds o)
           (seqZ 0 (amount T)))
    o.

Definition setMaxCurrent (o : obj) (ma : Z) : obj := with_maxCurrent ma o.

Definition setCLI (o : obj) (nisr : M_ISR) : obj := with_isr nisr o.

End Class_microLED.

(** *** Notions the statements below are written in *)

(** The eight configuration codes [getPixNumber] has a case for. *)
Definition supported (config : Z) : Prop :=
  config = 0 \/ config = 1 \/ config = 4 \/ config = 7 \/
  config = 10 \/ config = 11 \/ config = 13 \/ config = 14.

Definition swaps_axes (config : Z) : bool :=
  (config =? 4) || (config =? 13) || (config =? 14) || (config =? 7).

(** Canonical coordinates of (x, y), over the integers. *)
Definition canonical (config w h x y : Z) : Z * Z :=
  match config with
  | 4 => (y, x)
  | 1 => (x, h - y - 1)
  | 13 => (h - y - 1, x)
  | 10 => (w - x - 1, h - y - 1)
  | 14 => (h - y - 1, w - x - 1)
  | 11 => (w - x - 1, y)
  | 7 => (y, w - x - 1)
  | _ => (x, y)
  end.

(** Index of canonical (cx, cy): odd rows run backwards when the scan
    order is serpentine. *)
Definition row_index (serpentine : bool) (rowWidth cx cy : Z) : Z :=
  if serpentine && Z.odd cy
  then cy * rowWidth + (rowWidth - cx - 1)
  else cy * rowWidth + cx.

Definition rowWidth {mData} (o : microLED mData) : Z :=
  if swaps_axes (_matrixConfig o) then _height o else _width o.

Definition rowCount {mData} (o : microLED mData) : Z :=
  if swaps_axes (_matrixConfig o) then _width o else _height o.

(** What the five-argument constructor establishes. *)
Definition matrix_object {mData} (o : microLED mData) : Prop :=
  is_uint8 (_width o) /\ is_uint8 (_height o) /\ _matrixW o = rowWidth o.

Definition on_matrix {mData} (o : microLED mData) (x y : Z) : Prop :=
  0 <= x < _width o /\ 0 <= y < _height o.





(** [c] relates the state it starts in to the state it completes in by
    [R]. *)
Definition respects {mData A : Type} (R : relation (@state mData))
  (c : @M mData A) : Prop :=
  forall s a s', c s = Some (a, s') -> R s s'.

(** The observation [f] of the state is not changed. *)
Definition same {mData X : Type} (f : @state mData -> X)
  : relation (@state mData) :=
  fun s s' => f s' = f s.

Abbreviation keeps f := (respects (same f)).

(** Observations of the object alone: no hardware access changes them. *)
Definition of_object {mData X : Type} (g : microLED mData -> X)
  : @state mData -> X := fun s => g (this s).

(** The four fields [show] must leave alone. *)
Definition user_state {mData : Type} (o : microLED mData)
  : list mData * list Z * Z * Z :=
  (leds o, white o, _bright o, _maxCurrent o).

(** The matrix geometry. *)
Definition geometry {mData : Type} (o : microLED mData) : Z * Z * Z * Z :=
  (_width o, _height o, _matrixConfig o, _matrixType o).

#[global] Instance same_preorder {mData X} (f : @state mData -> X) :
  PreOrder (same f).
Proof.
  split; [intros s; reflexivity|].
  intros s1 s2 s3 H1 H2. unfold same in *. congruence.
Qed.

(** The interrupt-control part of the state. *)
Definition ctl {mData : Type} (s : @state mData) : Z * Z * M_ISR :=
  (SREG (mcu s), sregSave (this s), isr (this s)).

(** [SREG] and the policy are as before; so is the saved copy, unless the
    policy is per byte. *)
Definition quiet {mData : Type} : relation (@state mData) :=
  fun s s' =>
    SREG (mcu s') = SREG (mcu s) /\ isr (this s') = isr (this s) /\
    (isr (this s) <> CLI_LOW -> sregSave (this s') = sregSave (this s)).

(** The same, with the saved copy kept under the per-frame policy. *)
Definition streaming {mData : Type} : relation (@state mData) :=
  fun s s' =>
    SREG (mcu s') = SREG (mcu s) /\ isr (this s') = isr (this s) /\
    (isr (this s) = CLI_HIGH -> sregSave (this s') = sregSave (this s)).

(** What a streaming caller puts between [begin()] and [end()]. *)
Inductive stream_op (mData : Type) :=
| Send (color : mData) (thisWhite : Z)
| SendRaw (data : Z).

Arguments Send {mData}.
Arguments SendRaw {mData}.

Definition run_stream {mData : Type} `{CU : ColorUtility mData}
  (T : Template) (ops : list (stream_op mData)) : @M mData unit :=
  for_each ops (fun op =>
                  match op with
                  | Send color thisWhite => send T color thisWhite
                  | SendRaw data => sendRaw T data
                  end).

#[global] Instance quiet_preorder {mData} : PreOrder (@quiet mData).
Proof.
  split; [intros s; by repeat split|].
  intros s1 s2 s3 (H1 & H2 & H3) (H4 & H5 & H6). unfold quiet.
  repeat split; try congruence.
  intros Hne. rewrite H6, H3; congruence.
Qed.

#[global] Instance streaming_preorder {mData} : PreOrder (@streaming mData).
Proof.
  split; [intros s; by repeat split|].
  intros s1 s2 s3 (H1 & H2 & H3) (H4 & H5 & H6). unfold streaming.
  repeat split; try congruence.
  intros Hne. rewrite H6, H3; congruence.
Qed.

(** The estimate of section 4.4, over the integers. *)
Definition channel_sum {mData} `{CU : ColorUtility mData}
  (pixels : list mData) (bright : Z) : Z :=
  foldr (fun c acc => fade8R c bright + fade8G c bright + fade8B c bright + acc)
        0 pixels.

Definition active {mData} `{CU : ColorUtility mData}
  (o : microLED mData) (bright : Z) : Z :=
  (Z.shiftr (channel_sum (leds o) bright) 8 * oneLedMax o) ÷ 3.

Definition idle {mData} (T : Template) (o : microLED mData) : Z :=
  (oneLedIdle o * amount T) ÷ 1000.

Definition estimate {mData} `{CU : ColorUtility mData}
  (T : Template) (o : microLED mData) (bright : Z) : Z :=
  active o bright + idle T o.

Definition clamp (lo hi z : Z) : Z := Z.max lo (Z.min hi z).

(** The postcondition as the specification words it: unchanged when the
    active estimate is zero or the total is within the budget, otherwise
    the rescaled brightness clamped to [0, 255]. *)
Definition correctBright_spec {mData} `{CU : ColorUtility mData}
  (T : Template) (o : microLED mData) (bright : Z) : Z :=
  if active o bright =? 0 then bright
  else if estimate T o bright <=? _maxCurrent o then bright
  else clamp 0 255 ((_maxCurrent o - idle T o) * bright ÷ active o bright).

(** The fades give bytes. *)
Definition fades_are_bytes (mData : Type) `{CU : ColorUtility mData} : Prop :=
  forall (c : mData) (b : Z),
    0 <= fade8R c b <= 255 /\ 0 <= fade8G c b <= 255 /\
    0 <= fade8B c b <= 255.

(** The array has [amount] entries, [amount] being an [int]; the per-chip
    constants are in the range [init] assigns; the budget is an [int]. *)
Definition limiter_ready {mData} (T : Template) (o : microLED mData) : Prop :=
  Z.of_nat (length (leds o)) = amount T /\ 0 <= amount T <= 32767 /\
  0 <= oneLedMax o <= 46 /\ 0 <= oneLedIdle o <= 2000 /\
  is_int (_maxCurrent o).

(** What [correctBright] reads of the object. *)
Definition limiter_view {mData} (o : microLED mData)
  : list mData * Z * Z * Z * Z :=
  (leds o, oneLedMax o, oneLedIdle o, _maxCurrent o, _bright o).

End MicroLED.

(** ** AdafruitMyPixel.cpp: the alternate backend, two bytes per pixel *)

Module Adafruit.
Import CInt.

Record AdafruitMyPixel := {
  begun : bool;
  numLEDs : Z;
  numBytes : Z;
  pin : Z;
  port : option MicroLED.ioreg;  (* the output register of the pin *)
  pinMask : Z;                   (* the bit of the pin in it, a byte *)
  brightness : Z;
  pixels : option (list Z);      (* NULL, or the allocated block *)
  rOffset : Z;
  gOffset : Z;
  bOffset : Z;
  wOffset : Z;
  endTime : Z
}.

Definition with_pixels (px : option (list Z)) (s : AdafruitMyPixel)
  : AdafruitMyPixel :=
  {| begun := begun s; numLEDs := numLEDs s; numBytes := numBytes s;
     pin := pin s; port := port s; pinMask := pinMask s;
     brightness := brightness s; pixels := px;
     rOffset := rOffset s; gOffset := gOffset s; bOffset := bOffset s;
     wOffset := wOffset s; endTime := endTime s |}.

(** [p[i]] and [p[i] = v] inside the allocated block; outside it the
    access has no defined behaviour. *)
Definition load (px : option (list Z)) (i : Z) : option Z :=
  l ← px;
  if i <? 0 then None else l !! Z.to_nat i.

Definition store (px : option (list Z)) (i v : Z) : option (list Z) :=
  l ← px;
  if (0 <=? i) && (i <? Z.of_nat (length l))
  then Some (<[Z.to_nat i := v]> l)
  else None.

(** [updateLength(n)]; [malloc] gives the block (of unspecified content)
    or NULL. *)
Definition updateLength (malloc : Z -> option (list Z))
  (s : AdafruitMyPixel) (n : Z) : AdafruitMyPixel :=
  let nb := to_uint16 (n * 2) in
  match malloc nb with
  | Some block =>
      {| begun := begun s; numLEDs := n; numBytes := nb;
         pin := pin s; port := port s; pinMask := pinMask s;
         brightness := brightness s; pixels := Some block;
         rOffset := rOffset s; gOffset := gOffset s; bOffset := bOffset s;
         wOffset := wOffset s; endTime := endTime s |}
  | None =>
      {| begun := begun s; numLEDs := 0; numBytes := 0;
         pin := pin s; port := port s; pinMask := pinMask s;
         brightness := brightness s; pixels := None;
         rOffset := rOffset s; gOffset := gOffset s; bOffset := bOffset s;
         wOffset := wOffset s; endTime := endTime s |}
  end.

(** [updateType(t)] *)
Definition updateType (malloc : Z -> option (list Z))
  (s : AdafruitMyPixel) (t : Z) : AdafruitMyPixel :=
  let oldThreeBytesPerPixel := wOffset s =? rOffset s in
  let s' :=
    {| begun := begun s; numLEDs := numLEDs s; numBytes := numBytes s;
       pin := pin s; port := port s; pinMask := pinMask s;
       brightness := brightness s; pixels := pixels s;
       rOffset := Z.land (Z.shiftr t 4) 3;
       gOffset := Z.land (Z.shiftr t 2) 3;
       bOffset := Z.land t 3;
       wOffset := Z.land (Z.shiftr t 6) 3;
       endTime := endTime s |} in
  match pixels s with
  | Some _ =>
      let newThreeBytesPerPixel := wOffset s' =? rOffset s' in
      if negb (Bool.eqb newThreeBytesPerPixel oldThreeBytesPerPixel)
      then updateLength malloc s' (numLEDs s')
      else s'
  | None => s'
  end.

(** [1 << k] in [int]: not defined for a negative shift or a shift by 16
    or more. *)
Definition bit_mask (k : Z) : option Z :=
  if (0 <=? k) && (k <? 16) then Some (to_int (Z.shiftl 1 k)) else None.

(** [reg |= x] and [reg &= ~x] on an 8-bit I/O register. *)
Definition set_bits (reg : MicroLED.ioreg) (x : Z) (m : MicroLED.AVR)
  : MicroLED.AVR :=
  MicroLED.store_io reg (to_uint8 (Z.lor (MicroLED.io m reg) x)) m.

Definition clear_bits (reg : MicroLED.ioreg) (x : Z) (m : MicroLED.AVR)
  : MicroLED.AVR :=
  MicroLED.store_io reg (to_uint8 (Z.land (MicroLED.io m reg) (Z.lnot x)))
    m.

Definition with_pin (p : Z) (r : option MicroLED.ioreg) (mask : Z)
  (s : AdafruitMyPixel) : AdafruitMyPixel :=
  {| begun := begun s; numLEDs := numLEDs s; numBytes := numBytes s;
     pin := p; port := r; pinMask := mask;
     brightness := brightness s; pixels := pixels s;
     rOffset := rOffset s; gOffset := gOffset s; bOffset := bOffset s;
     wOffset := wOffset s; endTime := endTime s |}.

(** The direction register [setPin] picks for pin [p]. *)
Definition ddr_of (p : Z) : MicroLED.ioreg :=
  if p >=? 8 then MicroLED.DDRB else MicroLED.DDRD.

(** [setPin(int16_t p)]: on a strip that has begun the old pin is made an
    input and the new one an output driven high; the mask is [1 << (p % 8)],
    with the remainder of C, negative for a negative [p]. *)
Definition setPin (s : AdafruitMyPixel) (m : MicroLED.AVR) (p : Z)
  : option (AdafruitMyPixel * MicroLED.AVR) :=
  let m :=
    if begun s && (pin s >=? 0)
    then clear_bits (ddr_of (pin s)) (pinMask s) m
    else m in
  x ← bit_mask (Z.rem p 8);
  let s :=
    with_pin p (Some (if p >=? 8 then MicroLED.PORTB else MicroLED.PORTD))
             (to_uint8 x) s in
  if begun s
  then
    let m := set_bits (ddr_of (pin s)) (pinMask s) m in
    r ← port s;
    Some (s, set_bits r (pinMask s) m)
  else Some (s, m).

(** [AdafruitMyPixel(n, p, t)]; [raw] is what the storage held. *)
Definition construct (malloc : Z -> option (list Z))
  (raw : AdafruitMyPixel) (m : MicroLED.AVR) (n p t : Z)
  : option (AdafruitMyPixel * MicroLED.AVR) :=
  let s :=
    {| begun := false; numLEDs := numLEDs raw; numBytes := numBytes raw;
       pin := pin raw; port := port raw; pinMask := pinMask raw;
       brightness := 0; pixels := None;
       rOffset := rOffset raw; gOffset := gOffset raw;
       bOffset := bOffset raw; wOffset := wOffset raw; endTime := 0 |} in
  let s := updateType malloc s (to_uint16 t) in
  let s := updateLength malloc s (to_uint16 n) in
  setPin s m p.

(** The channel stored at position [k] of the packed word. *)
Definition channel_at (s : AdafruitMyPixel) (k r g b : Z) : Z :=
  if rOffset s =? k then r else if gOffset s =? k then g else b.

(** [setPixelColor(uint16_t n, uint8_t r, uint8_t g, uint8_t b)] *)
Definition setPixelColor (s : AdafruitMyPixel) (n r g b : Z)
  : option AdafruitMyPixel :=
  if n <? numLEDs s then
    let scale c :=
      if brightness s =? 0 then c
      else to_uint8 (Z.shiftr (to_uint16 (c * brightness s)) 8) in
    let r := scale r in
    let g := scale g in
    let b := scale b in
    let p := to_uint16 (n * 2) in
    let farbe :=
      to_uint16 (to_int (Z.shiftl (Z.land (channel_at s 0 r g b) 248) 8)) in
    let farbe :=
      to_uint16
        (Z.lor farbe (to_int (Z.shiftl (Z.land (channel_at s 1 r g b) 248) 3)))
    in
    let farbe :=
      to_uint16 (Z.lor farbe (Z.shiftr (Z.land (channel_at s 2 r g b) 248) 2))
    in
    px ← store (pixels s) p (to_uint8 (Z.shiftr farbe 8));
    px ← store (Some px) (p + 1) (to_uint8 farbe);
    Some (with_pixels (Some px) s)
  else Some s.

(** [setPixelColor(n, r, g, b, w)] *)
Definition setPixelColor_w (s : AdafruitMyPixel) (n r g b w : Z)
  : option AdafruitMyPixel :=
  setPixelColor s n r g b.

(** [setPixelColor(uint16_t n, uint32_t c)] *)
Definition setPixelColor_c (s : AdafruitMyPixel) (n c : Z)
  : option AdafruitMyPixel :=
  if n <? numLEDs s then
    setPixelColor s n (to_uint8 (Z.shiftr c 16)) (to_uint8 (Z.shiftr c 8))
                  (to_uint8 c)
  else Some s.

(** [fill(uint32_t c, uint16_t first, uint16_t count)] *)
Definition fill (s : AdafruitMyPixel) (c first count : Z)
  : option AdafruitMyPixel :=
  if first >=? numLEDs s then Some s
  else
    let end_ :=
      if count =? 0 then numLEDs s
      else
        let e := to_uint16 (first + count) in
        if e >? numLEDs s then numLEDs s else e in
    foldl (fun acc i => s' ← acc; setPixelColor_c s' i c)
          (Some s) (seqZ first (end_ - first)).

(** [getPixelColor(uint16_t n)] *)
Definition getPixelColor (s : AdafruitMyPixel) (n : Z) : option Z :=
  if n >=? numLEDs s then Some 0
  else
    let p := to_uint16 (n * 2) in
    p0 ← load (pixels s) p;
    p1 ← load (pixels s) (p + 1);
    let r := Z.land p0 248 in
    let g :=
      to_uint8 (Z.lor (Z.shiftl (Z.land p0 3) 6) (Z.shiftr (Z.land p1 224) 2))
    in
    let b := to_uint8 (Z.shiftl p1 3) in
    if brightness s =? 0
    then Some (Z.lor (Z.lor (Z.shiftl r 16) (Z.shiftl g 8)) b)
    else
      let r := r ÷ brightness s in
      let g := g ÷ brightness s in
      let b := b ÷ brightness s in
      Some (Z.lor (Z.lor (Z.shiftl r 16) (Z.shiftl g 8)) b).

(** The channels of a packed [0x00RRGGBB] value. *)
Definition red (c : Z) : Z := Z.land (Z.shiftr c 16) 255.
Definition green (c : Z) : Z := Z.land (Z.shiftr c 8) 255.
Definition blue (c : Z) : Z := Z.land c 255.

(** The block holds two bytes for each of at most 32767 pixels. *)
Definition block_ok (s : AdafruitMyPixel) : Prop :=
  0 <= numLEDs s <= 32767 /\
  exists l, pixels s = Some l /\ Z.of_nat (length l) = 2 * numLEDs s.

(** [s'] is [s] with the same fields and a block of the same size. *)
Definition same_shape (s s' : AdafruitMyPixel) : Prop :=
  exists l l', pixels s = Some l /\ s' = with_pixels (Some l') s /\
               length l' = length l.

End Adafruit.

(** ** microLED.h: the pixel buffer, ranges and bitmaps *)

Module Buffer.
Import CInt MicroLED.

Section Class_microLED_buffer.
Context {mData : Type}.
Variable T : Template.

Local Abbreviation obj := (microLED mData).

(** [set(int n, mData color)]: [leds[n] = color]; outside the array the
    store has no defined behaviour. *)
Definition set_n (o : obj) (n : Z) (color : mData) : option obj :=
  if (0 <=? n) && (n <? amount T)
  then Some (with_leds (<[Z.to_nat n := color]> (leds o)) o)
  else None.

(** [get(int num)]: [leds[num]]. *)
Definition get_n (o : obj) (num : Z) : option mData :=
  if num <? 0 then None else leds o !! Z.to_nat num.

(** [i % amount]: the remainder has the sign of [i]; by 0 it is not
    defined. *)
Definition wrap_index (i : Z) : option Z :=
  if amount T =? 0 then None else Some (Z.rem i (amount T)).

(** [fill(int from, int to, mData color)]: [i] runs from [from] up to and
    including [to]; with [to] the largest [int] the increment overflows. *)
Definition fill_range (o : obj) (from to : Z) (color : mData) : option obj :=
  if (from <=? to) && (to =? 32767) then None
  else foldl (fun acc i => o' ← acc; n ← wrap_index i; set_n o' n color)
             (Some o) (seqZ from (to - from + 1)).

(** [get(int x, int y)]: no guard. *)
Definition get_xy (o : obj) (x y : Z) : option mData :=
  n ← getPixNumber o x y;
  get_n o n.

(** The outcome of a guarded store as a defined result, or none. *)
Definition completed (r : @stored mData) : option obj :=
  match r with
  | Stored o => Some o
  | OutOfBounds _ | Indeterminate => None
  end.

Section Blend.
(** [getBlend] of [color_utility.h], which is not among the sources. *)
Variable getBlend : Z -> Z -> mData -> mData -> mData.

(** [fillGradient(int from, int to, mData color1, mData color2)]: [to] is
    not included. *)
Definition fillGradient (o : obj) (from to : Z) (color1 color2 : mData)
  : option obj :=
  foldl (fun acc i =>
           o' ← acc; n ← wrap_index i;
           set_n o' n (getBlend (to_int (i - from)) (to_int (to - from))
                                color1 color2))
        (Some o) (seqZ from (to - from)).

End Blend.

Section Bitmap.
(** The conversion of a frame element to [mData] ([types.h] is not among
    the sources). *)
Variable of_raw : Z -> mData.

(** [drawBitmap8], [drawBitmap16] and [drawBitmap32]: the same two loops
    over a frame of 8-, 16- or 32-bit elements in program memory; a read
    outside the frame has no defined value. *)
Definition drawBitmap (o : obj) (X Y : Z) (frame : list Z)
  (width height : Z) : option obj :=
  foldl (fun acc x =>
           foldl (fun acc y =>
                    o' ← acc;
                    v ← pgm_read frame
                          (to_int (x + to_int (to_int (to_int (height - 1) - y)
                                               * width)));
                    completed (set_xy T o' (to_int (x + X)) (to_int (y + Y))
                                      (of_raw v)))
                 acc (seqZ 0 height))
        (Some o) (seqZ 0 width).

Definition drawBitmap8 := drawBitmap.
Definition drawBitmap16 := drawBitmap.
Definition drawBitmap32 := drawBitmap.

End Bitmap.

End Class_microLED_buffer.

(** The frame element shown at column [x], row [y] of a bitmap: the frame
    is stored top row first, [y] counts from the bottom. *)
Definition frame_at (frame : list Z) (width height x y : Z) : option Z :=
  frame !! Z.to_nat (x + (height - 1 - y) * width).

(** The preconditions of the theorems on matrices: the constructor's
    geometry, a configuration [getPixNumber] handles, and a buffer of
    [amount] pixels that holds the whole matrix. *)
Definition matrix_ready {mData} (T : Template) (o : microLED mData) : Prop :=
  matrix_object o /\ supported (_matrixConfig o) /\
  _width o * _height o <= amount T /\
  Z.of_nat (length (leds o)) = amount T.

End Buffer.

(** ** microLED.h: what goes out on the wire *)

Module Wire.
Import CInt MicroLED.

(** The bits of a byte, most significant first. *)
Definition bits_of_byte (v : Z) : list bool :=
  (fun k => Z.testbit v k) <$> [7; 6; 5; 4; 3; 2; 1; 0].

(** The byte a receiver assembles from bits arriving most significant
    first. *)
Definition byte_of_bits (bits : list bool) : Z :=
  foldl (fun acc (b : bool) => 2 * acc + (if b then 1 else 0)) 0 bits.

(** The port, the bit and the registers of an Arduino pin number, as the
    tables of [myarduino.h] give them. *)
Definition pin_valid (p : Z) : Prop := 0 <= p <= 19.

Definition pin_bit (p : Z) : Z :=
  if p <? 8 then p else if p <? 14 then p - 8 else p - 14.

Definition pin_ddr (p : Z) : ioreg :=
  if p <? 8 then DDRD else if p <? 14 then DDRB else DDRC.

Definition pin_out (p : Z) : ioreg :=
  if p <? 8 then PORTD else if p <? 14 then PORTB else PORTC.

(** Pin [p], if it is one, is bit [k] of the direction register [r]. *)
Definition drives (p : Z) (r : ioreg) (k : Z) : bool :=
  (0 <=? p) && (p <=? 19) && ioreg_eqb (pin_ddr p) r && (pin_bit p =? k).

(** The level of output pin [p]: its bit of its output register. *)
Definition pin_level (m : AVR) (p : Z) : bool :=
  Z.testbit (io m (pin_out p)) (pin_bit p).

(** The level of pin [p] after a store of [v] to register [r]. *)
Definition level_after (p : Z) (r : ioreg) (v : Z) (old : bool) : bool :=
  if ioreg_eqb r (pin_out p) then Z.testbit v (pin_bit p) else old.

(** What the strip sees of its two lines: the level of the data line, the
    level of the clock line, and, on a self-clocked line, whether a pulse
    has started (the data line has risen) and is not yet decided. *)
Record line := { dat : bool; clk : bool; armed : bool }.

Section Frames.
Context {mData : Type} `{CU : ColorUtility mData}.
Variable T : Template.

(** [LED_APA102_SPI] without [MLED_USE_SPI] compiles to no output. *)
Definition transmits : bool :=
  match chip T with
  | LED_APA102_SPI => MLED_USE_SPI T
  | _ => true
  end.

Definition on_wire (bytes : list Z) : list bool :=
  if transmits then bytes ≫= bits_of_byte else [].

(** The chips with one data line, which tell the bits by the width of
    the pulse. *)
Definition self_clocked : bool := negb (chip_is_APA102 T).

(** The strip is wired to pin [pin] and, if clocked, pin [pinCLK].  A
    store moves the lines; on a self-clocked line a rise starts a pulse and
    the delay decides it. *)
Definition line_step (st : line) (e : event) : line :=
  match e with
  | Store r v =>
      let d := level_after (pin T) r v (dat st) in
      {| dat := d;
         clk := level_after (pinCLK T) r v (clk st);
         armed := self_clocked && (armed st || (negb (dat st) && d)) |}
  | Delay => {| dat := dat st; clk := clk st; armed := false |}
  | _ => st
  end.

(** The bits the strip takes in at an event.  Self-clocked: at the delay
    of a started pulse, 1 if the line is still high (a long pulse) and 0
    if it is low again (a short one).  [LED_APA102]: the level of the data
    line at a rising edge of the clock line.  [LED_APA102_SPI]: the byte
    the SPI unit shifts out, most significant bit first as [begin()] sets
    it up. *)
Definition line_bits (st : line) (e : event) : list bool :=
  match chip T, e with
  | LED_APA102_SPI, SpiTransfer data => bits_of_byte data
  | LED_APA102_SPI, _ => []
  | LED_APA102, Store r v =>
      if negb (clk st) && level_after (pinCLK T) r v (clk st)
      then [level_after (pin T) r v (dat st)]
      else []
  | LED_APA102, _ => []
  | _, Delay => if armed st then [dat st] else []
  | _, _ => []
  end.

(** The bits taken in over a run of events, and the lines after it. *)
Fixpoint receive (st : line) (tr : list event) : list bool * line :=
  match tr with
  | [] => ([], st)
  | e :: tr' =>
      let '(bits, st') := receive (line_step st e) tr' in
      (line_bits st e ++ bits, st')
  end.

(** The lines as the output registers hold them, no pulse started. *)
Definition line_of (m : AVR) : line :=
  {| dat := pin_level m (pin T); clk := pin_level m (pinCLK T);
     armed := false |}.

(** The levels of [st] are those of the output registers. *)
Definition tracks (st : line) (m : AVR) : Prop :=
  dat st = pin_level m (pin T) /\ clk st = pin_level m (pinCLK T).

(** Between two bytes: no pulse started, the data line of a self-clocked
    strip low, the clock line of a clocked one low. *)
Definition at_rest (st : line) : Prop :=
  armed st = false /\
  match chip T with
  | LED_APA102_SPI => True
  | LED_APA102 => clk st = false
  | _ => dat st = false
  end.

Definition line_idle (m : AVR) : Prop := at_rest (line_of m).

(** The positions of red, green and blue in the three bytes of a pixel. *)
Definition posR : Z := Z.land (Z.shiftr (order T) 4) 3.
Definition posG : Z := Z.land (Z.shiftr (order T) 2) 3.
Definition posB : Z := Z.land (order T) 3.

(** The three positions are 0, 1 and 2 in some order. *)
Definition order_ok : Prop :=
  (0 <= posR < 3 /\ 0 <= posG < 3 /\ 0 <= posB < 3) /\
  posR <> posG /\ posR <> posB /\ posG <> posB.

(** The faded channel at position [k]. *)
Definition channel_byte (bright : Z) (c : mData) (k : Z) : Z :=
  to_uint8 (if posR =? k then fade8R c bright
            else if posG =? k then fade8G c bright
            else fade8B c bright).

(** The bytes of one pixel: the start byte of the clocked chips, the three
    channels, the white channel of the four-colour chip. *)
Definition pixel_bytes (bright : Z) (c : mData) (w : Z) : list Z :=
  (if chip_is_APA102 T then [255] else []) ++
  [channel_byte bright c 0; channel_byte bright c 1; channel_byte bright c 2]
  ++ (if CHIP4COLOR T then [to_uint8 (fade8 w bright)] else []).

(** A whole frame, with the start and end frames of the clocked chips. *)
Definition frame_bytes (bright : Z) (pixels : list mData) (whites : list Z)
  : list Z :=
  (if chip_is_APA102 T then [0; 0; 0; 0] else []) ++
  mjoin (zip_with (pixel_bytes bright) pixels whites) ++
  (if chip_is_APA102 T then [0; 0; 0; 0] else []).

(** The white bytes [show] passes: [white[i]] on the four-colour chip,
    the default argument 0 otherwise. *)
Definition whites_of (o : microLED mData) : list Z :=
  if CHIP4COLOR T then white o else replicate (length (leds o)) 0.

(** The bytes of one step of a caller that streams by hand. *)
Definition op_bytes (bright : Z) (op : stream_op mData) : list Z :=
  match op with
  | Send color thisWhite => pixel_bytes bright color thisWhite
  | SendRaw data => [data]
  end.

(** The port pointers the output code dereferences are valid. *)
Definition ports_ready (o : microLED mData) : Prop :=
  (pin T <> MLED_NO_CLOCK \/ chip T <> LED_APA102_SPI ->
   is_Some (_dat_port o)) /\
  (chip T = LED_APA102 -> is_Some (_clk_port o)).

(** The object holds the register and the mask of the pins the strip is
    wired to, as [init()] leaves them: of the data pin, unless the SPI
    unit drives the strip, and of the clock pin of [LED_APA102], which is
    another pin. *)
Definition wired (o : microLED mData) : Prop :=
  ports_ready o /\
  (chip T <> LED_APA102_SPI ->
   pin_valid (pin T) /\ _dat_port o = Some (pin_out (pin T)) /\
   _dat_mask o = 2 ^ pin_bit (pin T)) /\
  (chip T = LED_APA102 ->
   pin_valid (pinCLK T) /\ pin T <> pinCLK T /\
   _clk_port o = Some (pin_out (pinCLK T)) /\
   _clk_mask o = 2 ^ pin_bit (pinCLK T)).

(** The two bytes the pulse code stores are latched as [begin()] latches
    them: the data pin high in [_mask_h], low in [_mask_l]. *)
Definition latched (o : microLED mData) : Prop :=
  self_clocked = true ->
  Z.testbit (_mask_h o) (pin_bit (pin T)) = true /\
  Z.testbit (_mask_l o) (pin_bit (pin T)) = false.

(** The object between [begin()] and [end()]. *)
Definition streaming_object (o : microLED mData) : Prop :=
  wired o /\ latched o.

(** From [m] to [m'] events were added to the trace; the strip, its
    lines as the registers held them in [m], took in [bits] from them, and
    its lines are then as the registers hold them in [m'], no pulse
    started. *)
Definition received (m m' : AVR) (bits : list bool) : Prop :=
  exists evs, trace m' = trace m ++ evs /\
    receive (line_of m) evs = (bits, line_of m').

(** [c], started on an object that satisfies [I] with the lines
    satisfying [P], completes; the strip takes in [bits], the lines then
    satisfy [Q], and nothing of the object changes but the saved status
    register. *)
Definition steps (I : microLED mData -> Prop) (P : line -> Prop)
  (bits : list bool) (Q : line -> Prop) (c : @M mData unit) : Prop :=
  forall s st, I (this s) -> tracks st (mcu s) -> P st ->
    exists s' evs st',
      c s = Some (tt, s') /\
      trace (mcu s') = trace (mcu s) ++ evs /\
      receive st evs = (bits, st') /\
      tracks st' (mcu s') /\ Q st' /\
      exists v, this s' = with_sregSave v (this s).

(** The same from rest to rest. *)
Definition puts (I : microLED mData -> Prop) (bits : list bool)
  (c : @M mData unit) : Prop :=
  steps I at_rest bits at_rest c.

(** The brightness [show] transmits at: the limiter's, when a budget is
    set. *)
Definition show_brightness (o : microLED mData) : option Z :=
  if negb (_maxCurrent o =? 0) && negb (amount T =? 0)
  then correctBright T o (_bright o)
  else Some (_bright o).

End Frames.

(** The bits [n] rounds of the shift loops put out. *)
Fixpoint pulse_bits (n : nat) (data : Z) : list bool :=
  match n with
  | O => []
  | S n' => Z.testbit data 7 :: pulse_bits n' (to_uint8 (Z.shiftl data 1))
  end.

End Wire.

(** ** AdafruitMyPixel.cpp: colours, brightness, clearing and colour-order
       strings *)

Module AdafruitOps.
Import CInt Adafruit.

Definition to_uint32 : Z -> Z := to_unsigned 32.

(** [ColorHSV(uint16_t hue, uint8_t sat, uint8_t val)].  The hue is
    rescaled in [long]; a channel is scaled in [unsigned int], then, with
    [v1], in [uint32_t]. *)
Definition ColorHSV (hue sat val : Z) : Z :=
  let hue := to_uint16 (to_long (to_long (hue * 1530) + 32768) ÷ 65536) in
  let '(r, g, b) :=
    if hue <? 510 then
      if hue <? 255 then (255, to_uint8 hue, 0)
      else (to_uint8 (to_uint16 (510 - hue)), 255, 0)
    else if hue <? 1020 then
      if hue <? 765 then (0, 255, to_uint8 (to_uint16 (hue - 510)))
      else (0, to_uint8 (to_uint16 (1020 - hue)), 255)
    else if hue <? 1530 then
      if hue <? 1275 then (to_uint8 (to_uint16 (hue - 1020)), 0, 255)
      else (255, 0, to_uint8 (to_uint16 (1530 - hue)))
    else (255, 0, 0) in
  let v1 := to_uint32 (to_int (1 + val)) in
  let s1 := to_uint16 (to_int (1 + sat)) in
  let s2 := to_uint8 (to_int (255 - sat)) in
  let scaled c :=
    to_uint32 (to_uint16 (Z.shiftr (to_uint16 (c * s1)) 8 + s2) * v1) in
  Z.lor (Z.lor (to_uint32 (Z.shiftl (Z.land (scaled r) 65280) 8))
               (Z.land (scaled g) 65280))
        (Z.shiftr (scaled b) 8).

Definition with_brightness (b : Z) (s : AdafruitMyPixel) : AdafruitMyPixel :=
  {| begun := begun s; numLEDs := numLEDs s; numBytes := numBytes s;
     pin := pin s; port := port s; pinMask := pinMask s;
     brightness := b; pixels := pixels s;
     rOffset := rOffset s; gOffset := gOffset s; bOffset := bOffset s;
     wOffset := wOffset s; endTime := endTime s |}.

(** [setBrightness(uint8_t b)]: the stored value is [b + 1], wrapped; the
    pixel data is not rescaled. *)
Definition setBrightness (s : AdafruitMyPixel) (b : Z) : AdafruitMyPixel :=
  let newBrightness := to_uint8 (to_int (b + 1)) in
  if negb (newBrightness =? brightness s)
  then with_brightness newBrightness s
  else s.

(** [getBrightness()] *)
Definition getBrightness (s : AdafruitMyPixel) : Z :=
  to_uint8 (to_int (brightness s - 1)).

(** [clear()]: [numBytes] stores of 0. *)
Definition clear (s : AdafruitMyPixel) : option AdafruitMyPixel :=
  px ← foldl (fun acc i => px ← acc; px' ← store px i 0; Some (Some px'))
             (Some (pixels s)) (seqZ 0 (numBytes s));
  Some (with_pixels px s).

Definition with_begun (b : bool) (s : AdafruitMyPixel) : AdafruitMyPixel :=
  {| begun := b; numLEDs := numLEDs s; numBytes := numBytes s;
     pin := pin s; port := port s; pinMask := pinMask s;
     brightness := brightness s; pixels := pixels s;
     rOffset := rOffset s; gOffset := gOffset s; bOffset := bOffset s;
     wOffset := wOffset s; endTime := endTime s |}.

(** [begin()] *)
Definition begin (s : AdafruitMyPixel) (m : MicroLED.AVR)
  : option (AdafruitMyPixel * MicroLED.AVR) :=
  m' ← (if pin s >=? 8 then
          x ← bit_mask (to_int (pin s - 8));
          Some (clear_bits MicroLED.PORTB x (set_bits MicroLED.DDRB x m))
        else if pin s >=? 0 then
          x ← bit_mask (pin s);
          Some (clear_bits MicroLED.PORTD x (set_bits MicroLED.DDRD x m))
        else Some m);
  Some (with_begun true s, m').

(** The characters of a C string: those before the first NUL. *)
Fixpoint c_string (v : list ascii) : list ascii :=
  match v with
  | [] => []
  | c :: v' => if Ascii.eqb c Ascii.zero then [] else c :: c_string v'
  end.

Definition is_letter (lower upper c : ascii) : bool :=
  Ascii.eqb c lower || Ascii.eqb c upper.

(** One round of the loop of [str2order]: the index, an [uint8_t], is
    stored into an [int8_t]. *)
Definition str2order_step (acc : Z * Z * Z * Z) (ic : Z * ascii)
  : Z * Z * Z * Z :=
  let '(r, g, b, w) := acc in
  let i := to_signed 8 ic.1 in
  if is_letter "r" "R" ic.2 then (i, g, b, w)
  else if is_letter "g" "G" ic.2 then (r, i, b, w)
  else if is_letter "b" "B" ic.2 then (r, g, i, w)
  else if is_letter "w" "W" ic.2 then (r, g, b, i)
  else acc.

(** [str2order(const char *v)]; [None] as argument is the null pointer.
    On a string of 256 characters or more the 8-bit index wraps around
    and the loop does not end: there is no result. *)
Definition str2order (v : option String.string) : option Z :=
  rgbw ← match v with
         | None => Some (0, 0, 0, -1)
         | Some str =>
             let cs := c_string (String.list_ascii_of_string str) in
             if 256 <=? Z.of_nat (length cs) then None
             else
               let '(r, g, b, w) :=
                 foldl str2order_step (0, 0, 0, -1)
                       (zip (seqZ 0 (Z.of_nat (length cs))) cs) in
               Some (to_signed 8 (Z.land r 3), g, b, w)
         end;
  let '(r, g, b, w) := rgbw in
  let w := if w <? 0 then r else w in
  Some (to_uint16
          (Z.lor (Z.lor (Z.lor (to_int (Z.shiftl w 6)) (to_int (Z.shiftl r 4)))
                        (to_int (Z.shiftl (Z.land g 3) 2)))
                 (Z.land b 3))).

(** The position of the last character of [cs] that is one of the two
    letters, counted from [i]. *)
Fixpoint last_letter (lower upper : ascii) (cs : list ascii) (i : Z)
  : option Z :=
  match cs with
  | [] => None
  | c :: cs' =>
      match last_letter lower upper cs' (i + 1) with
      | Some j => Some j
      | None => if is_letter lower upper c then Some i else None
      end
  end.

End AdafruitOps.

(** ** Concrete configurations used to exercise the theorems *)

Module Examples.
Import CInt MicroLED.

(** A heap that satisfies every request with a block of stale bytes. *)
Definition stale_malloc (n : Z) : option (list Z) :=
  Some (replicate (Z.to_nat n) 170).

Definition raw_pixel_object : Adafruit.AdafruitMyPixel :=
  {| Adafruit.begun := true; Adafruit.numLEDs := 7; Adafruit.numBytes := 9;
     Adafruit.pin := 3; Adafruit.port := None; Adafruit.pinMask := 0;
     Adafruit.brightness := 99; Adafruit.pixels := None;
     Adafruit.rOffset := 2; Adafruit.gOffset := 2; Adafruit.bOffset := 1;
     Adafruit.wOffset := 0; Adafruit.endTime := 12 |}.

(** The MCU after reset, interrupts enabled. *)
Definition mcu_reset : AVR :=
  {| SREG := 128; io := fun _ => 0; trace := [] |}.

(** [AdafruitMyPixel strip(n, 6, t)], which completes for pin 6. *)
Definition pixel_strip (n t : Z) : Adafruit.AdafruitMyPixel :=
  match Adafruit.construct stale_malloc raw_pixel_object mcu_reset n 6 t with
  | Some (s, _) => s
  | None => raw_pixel_object
  end.

(** Modelled from the spec: [color_utility.h] and [types.h] are not among
    the sources.  At the default colour depth (24 bits, 8 bits per channel,
    exact) a colour is its three channel bytes, and a fade is the linear
    per-channel scale of section 4.1: factor 255 leaves the channel
    unchanged, factor 0 gives black. *)
Record mData := { r : Z; g : Z; b : Z }.

Definition fade8_linear (x factor : Z) : Z :=
  Z.shiftr (to_uint8 x * (to_uint8 factor + 1)) 8.

#[global] Instance rgb24 : ColorUtility mData :=
  {| fade8 := fade8_linear;
     fade8R := fun c => fade8_linear (r c);
     fade8G := fun c => fade8_linear (g c);
     fade8B := fun c => fade8_linear (b c) |}.

Definition mBlack : mData := {| r := 0; g := 0; b := 0 |}.
Definition mWhite : mData := {| r := 255; g := 255; b := 255 |}.
Definition mRed : mData := {| r := 255; g := 0; b := 0 |}.

(** [microLED<n, 6, MLED_NO_CLOCK, chip, order, isr>]: data on pin 6, the
    three bytes sent green first (order code 0b010010). *)
Definition strip_template (n : Z) (c : M_chip) (i : M_ISR) : Template :=
  {| amount := n; pin := 6; pinCLK := MLED_NO_CLOCK; chip := c;
     order := 18; def_isr := i; uptime := 0; MLED_USE_SPI := false |}.

(** Storage before construction: [n] pixels of whatever was there. *)
Definition raw_storage (pixels : list mData) : microLED mData :=
  {| oneLedMax := 0; oneLedIdle := 0; leds := pixels; white := [];
     _bright := 0; _showBright := 0; _matrixConfig := 0; _matrixType := 0;
     _width := 0; _height := 0; _matrixW := 0; _maxCurrent := 0;
     _dat_port := None; _dat_ddr := None; _clk_port := None;
     _clk_ddr := None; _dat_mask := 0; _clk_mask := 0;
     _mask_h := 0; _mask_l := 0; sregSave := 0; isr := CLI_OFF |}.

Definition power_on (pixels : list mData) : @state mData :=
  {| this := raw_storage pixels; mcu := mcu_reset |}.

(** The state a computation completes in (the start state if it does
    not complete). *)
Definition after {A : Type} (c : @M mData A) (s : @state mData)
  : @state mData :=
  match c s with
  | Some (_, s') => s'
  | None => s
  end.

(** A 10 x 3 serpentine matrix with the first pixel at the coordinate
    origin, rows along x, as [strip(10, 3, 0, 0, 0)], on 30 pixels... *)
Definition matrix_10x3 (n : Z) : @state mData :=
  after (microLED_matrix (strip_template n LED_WS2812 CLI_OFF) 10 3 0 0 0)
        (power_on (replicate (Z.to_nat n) mBlack)).


(** Four pixels on a WS2811 strip, per-frame masking, [fill(mWhite)],
    [setMaxCurrent(budget)]. *)
Definition T4 : Template := strip_template 4 LED_WS2811 CLI_HIGH.

Definition white4 (budget : Z) : @state mData :=
  let s := after (microLED_strip T4) (power_on (replicate 4 mBlack)) in
  {| this := setMaxCurrent (fill T4 (this s) mWhite) budget; mcu := mcu s |}.

(** The same strip left black. *)
Definition black4 (budget : Z) : @state mData :=
  let s := after (microLED_strip T4) (power_on (replicate 4 mBlack)) in
  {| this := setMaxCurrent (this s) budget; mcu := mcu s |}.

(** One pixel of colour (255, 255, 1) on a WS2811 strip. *)
Definition T1 : Template := strip_template 1 LED_WS2811 CLI_OFF.

Definition pixel1 (budget : Z) : @state mData :=
  let s := after (microLED_strip T1)
             (power_on [{| r := 255; g := 255; b := 1 |}]) in
  {| this := setMaxCurrent (this s) budget; mcu := mcu s |}.

(** Ten pixels declared for a 10 x 3 matrix. *)
Definition T10 : Template := strip_template 10 LED_WS2812 CLI_OFF.

(** Thirty pixels, for a 10 x 3 matrix. *)
Definition T30 : Template := strip_template 30 LED_WS2812 CLI_OFF.


(** A frame element shown as a grey of that level. *)
Definition grey (v : Z) : mData := {| r := v; g := v; b := v |}.

(** A blend that records the step and the number of steps. *)
Definition step_blend (k n : Z) (c1 c2 : mData) : mData :=
  {| r := k; g := n; b := r c2 |}.

(** One pixel of an APA102 strip, data on pin 11 and clock on pin 13,
    driven by the loop of [sendRaw], after the constructor. *)
Definition T_clocked : Template :=
  {| amount := 1; pin := 11; pinCLK := 13; chip := LED_APA102;
     order := 18; def_isr := CLI_OFF; uptime := 0; MLED_USE_SPI := false |}.

Definition clocked1 : @state mData :=
  after (microLED_strip T_clocked) (power_on [mRed]).

(** A data pin past the end of the pin tables. *)
Definition T_pin20 : Template :=
  {| amount := 1; pin := 20; pinCLK := MLED_NO_CLOCK; chip := LED_WS2812;
     order := 18; def_isr := CLI_OFF; uptime := 0; MLED_USE_SPI := false |}.

(** The colour order of the WS2812, as text. *)
Section Strings.
Local Open Scope string_scope.
Definition order_GRB : String.string := "GRB".
End Strings.

(** A heap with no memory left. *)
Definition no_malloc (n : Z) : option (list Z) := None.

(** Closed arithmetic facts about the concrete configurations. *)
Ltac concrete :=
  vm_compute; repeat split;
  first [ reflexivity | discriminate
        | let H := fresh in intros H; discriminate H ].

End Examples.

(** * Verification *)

(** ** binary32: integers, their products and their quotients *)

Section Binary32.
Local Abbreviation digits := F32.digits.
Local Abbreviation normal := F32.normal.

Lemma digits2_pos_digits p : Z.pos (digits2_pos p) = digits (Z.pos p).
Proof.
  unfold digits.
  induction p as [p IH|p IH|]; cbn [digits2_pos]; try reflexivity.
  - rewrite Pos2Z.inj_succ, IH. unfold digits.
    rewrite (Pos2Z.inj_xI p), Z.log2_succ_double by lia. lia.
  - rewrite Pos2Z.inj_succ, IH. unfold digits.
    rewrite (Pos2Z.inj_xO p), Z.log2_double by lia. lia.
Qed.

Lemma Zdigits2_digits n : 0 < n -> Zdigits2 n = digits n.
Proof. destruct n; try lia. intros _. apply digits2_pos_digits. Qed.

Lemma digits_bounds n : 0 < n -> 2 ^ (digits n - 1) <= n < 2 ^ digits n.
Proof.
  intros Hn. unfold digits. pose proof (Z.log2_spec n Hn) as H.
  replace (Z.log2 n + 1 - 1) with (Z.log2 n) by lia.
  replace (Z.log2 n + 1) with (Z.succ (Z.log2 n)) by lia. exact H.
Qed.

Lemma digits_unique n d : 0 < d -> 2 ^ (d - 1) <= n < 2 ^ d -> digits n = d.
Proof.
  intros Hd H. unfold digits.
  rewrite (Z.log2_unique n (d - 1)); [lia | lia |].
  replace (Z.succ (d - 1)) with d by lia. exact H.
Qed.

Lemma digits_pos n : 0 < n -> 0 < digits n.
Proof. intros Hn. unfold digits. pose proof (Z.log2_nonneg n). lia. Qed.

Lemma digits_le n k : 0 < n -> 0 <= k -> n < 2 ^ k -> digits n <= k.
Proof.
  intros Hn Hk H. unfold digits.
  destruct (Z.eq_dec k 0) as [->|]; [simpl in H; lia|].
  pose proof (Z.log2_lt_pow2 n k Hn). lia.
Qed.

Lemma digits_shift n k : 0 < n -> 0 <= k -> digits (n * 2 ^ k) = digits n + k.
Proof.
  intros Hn Hk. unfold digits.
  rewrite <- Z.shiftl_mul_pow2, Z.log2_shiftl by lia. lia.
Qed.



Lemma pow2_pos k : 0 <= k -> 0 < 2 ^ k.
Proof. intros. apply Z.pow_pos_nonneg; lia. Qed.

Lemma mul_pow2_pos x k : 0 < x -> 0 <= k -> 0 < x * 2 ^ k.
Proof. intros. apply Z.mul_pos_pos; [lia | by apply pow2_pos]. Qed.

Lemma fexp_normal x : -125 <= x -> fexp 24 128 x = x - 24.
Proof. intros H. unfold fexp, emin. lia. Qed.

Lemma loc_of_shr_record_of_loc m l :
  loc_of_shr_record (shr_record_of_loc m l) = l.
Proof. destruct l as [|[]]; reflexivity. Qed.

Lemma shr_m_of_loc m l : shr_m (shr_record_of_loc m l) = m.
Proof. destruct l as [|[]]; reflexivity. Qed.

(** A mantissa of 24 digits is not shifted. *)
Lemma shr_fexp_24 m e l :
  0 < m -> digits m = 24 -> -149 <= e ->
  shr_fexp 24 128 m e l = (shr_record_of_loc m l, e).
Proof.
  intros Hm Hd He. unfold shr_fexp.
  rewrite Zdigits2_digits, Hd, fexp_normal by lia.
  replace (24 + e - 24 - e) with 0 by lia. reflexivity.
Qed.

(** A mantissa of 25 digits is shifted by one. *)
Lemma shr_fexp_25 m e l :
  0 < m -> digits m = 25 -> -150 <= e ->
  shr_fexp 24 128 m e l = (shr_1 (shr_record_of_loc m l), e + 1).
Proof.
  intros Hm Hd He. unfold shr_fexp.
  rewrite Zdigits2_digits, Hd, fexp_normal by lia.
  replace (25 + e - 24 - e) with 1 by lia. reflexivity.
Qed.

Lemma iter_pos_nat {A} (f : A -> A) p x :
  iter_pos f p x = Nat.iter (Pos.to_nat p) f x.
Proof.
  revert x. induction p as [p IH|p IH|]; intros x; cbn [iter_pos].
  - rewrite !IH, Pos2Nat.inj_xI.
    replace (S (2 * Pos.to_nat p))%nat
      with (Pos.to_nat p + (Pos.to_nat p + 1))%nat by lia.
    rewrite !Nat.iter_add. reflexivity.
  - rewrite !IH, Pos2Nat.inj_xO.
    replace (2 * Pos.to_nat p)%nat
      with (Pos.to_nat p + Pos.to_nat p)%nat by lia.
    rewrite Nat.iter_add. reflexivity.
  - reflexivity.
Qed.

(** Shifting out zero bits is exact. *)
Lemma shr_exact_nat (n : nat) x :
  0 < x ->
  Nat.iter n shr_1
    {| shr_m := x * 2 ^ Z.of_nat n; shr_r := false; shr_s := false |} =
  {| shr_m := x; shr_r := false; shr_s := false |}.
Proof.
  intros Hx. induction n as [|n IH].
  - cbn [Nat.iter]. change (Z.of_nat 0) with 0.
    rewrite Z.pow_0_r, Z.mul_1_r. reflexivity.
  - rewrite Nat.iter_succ_r.
    replace (x * 2 ^ Z.of_nat (S n)) with (2 * (x * 2 ^ Z.of_nat n))
      by (rewrite Nat2Z.inj_succ, Z.pow_succ_r by lia; ring).
    assert (Hp : 0 < x * 2 ^ Z.of_nat n) by (apply mul_pow2_pos; lia).
    destruct (x * 2 ^ Z.of_nat n) as [|p|p] eqn:E; try lia.
    exact IH.
Qed.

Lemma shr_exact x k e :
  0 < x -> 0 < k ->
  shr {| shr_m := x * 2 ^ k; shr_r := false; shr_s := false |} e k =
  ({| shr_m := x; shr_r := false; shr_s := false |}, e + k).
Proof.
  intros Hx Hk. destruct k as [|p|p]; try lia. cbn [shr].
  rewrite iter_pos_nat. f_equal.
  rewrite <- (positive_nat_Z p). by apply shr_exact_nat.
Qed.

(** Rounding a value that fits a 24-digit mantissa changes nothing. *)
Lemma round_exact sx x k e :
  0 < x -> digits x = 24 -> 0 <= k -> -149 <= e + k <= 104 ->
  binary_round_aux 24 128 sx (x * 2 ^ k) e loc_Exact =
  S754_finite sx (Z.to_pos x) (e + k).
Proof.
  intros Hx Hd Hk He. unfold binary_round_aux.
  assert (Hfirst : shr_fexp 24 128 (x * 2 ^ k) e loc_Exact =
                   ({| shr_m := x; shr_r := false; shr_s := false |}, e + k)).
  { destruct (Z.eq_dec k 0) as [->|Hk0].
    - change (2 ^ 0) with 1. rewrite Z.mul_1_r, Z.add_0_r.
      apply shr_fexp_24; lia.
    - unfold shr_fexp.
      assert (0 < x * 2 ^ k) by (apply mul_pow2_pos; lia).
      rewrite Zdigits2_digits, digits_shift, Hd, fexp_normal by lia.
      replace (24 + k + e - 24 - e) with k by lia.
      apply shr_exact; lia. }
  rewrite Hfirst. cbn [shr_m loc_of_shr_record round_nearest_even].
  rewrite shr_fexp_24 by lia. cbn [shr_m shr_record_of_loc].
  destruct x as [|p|p]; try lia.
  replace (e + k <=? 128 - 24) with true by (symmetry; apply Z.leb_le; lia).
  reflexivity.
Qed.



Lemma pos_iter_xO p d : Z.pos (Pos.iter xO p d) = Z.pos p * 2 ^ Z.pos d.
Proof.
  induction d as [|d IH] using Pos.peano_ind.
  - cbn. lia.
  - rewrite Pos.iter_succ, Pos2Z.inj_xO, IH, Pos2Z.inj_succ, Z.pow_succ_r by lia.
    ring.
Qed.

Lemma digits_normal n (Hn : 0 < n) :
  n < 2 ^ 24 -> digits (n * 2 ^ (24 - digits n)) = 24.
Proof.
  intros H. pose proof (digits_le n 24 Hn ltac:(lia) H).
  rewrite digits_shift by lia. lia.
Qed.

(** [(float) z] is exact for 0 < |z| < 2^24. *)
Lemma of_Z_signed sx n :
  0 < n < 2 ^ 24 -> F32.of_Z (F32.signed sx n) = F32.signed_normal sx n.
Proof.
  intros [Hn Hlt]. pose proof (digits_le n 24 Hn ltac:(lia) Hlt) as Hd.
  pose proof (digits_pos n Hn) as Hd0.
  assert (Hround : forall p, n = Z.pos p ->
            binary_round 24 128 sx p 0 = F32.signed_normal sx n).
  { intros p ->. unfold F32.signed_normal, binary_round, shl_align.
    rewrite digits2_pos_digits, Z.add_0_r, fexp_normal, Z.sub_0_r by lia.
    destruct (digits (Z.pos p) - 24) as [|q|q] eqn:E; try lia.
    - replace (24 - digits (Z.pos p)) with 0 by lia.
      pose proof (round_exact sx (Z.pos p) 0 0) as H.
      rewrite Z.pow_0_r, Z.mul_1_r in *. apply H; lia.
    - rewrite pos_iter_xO.
      replace (24 - digits (Z.pos p)) with (Z.pos q) by lia.
      pose proof (round_exact sx (Z.pos p * 2 ^ Z.pos q) 0 (Z.neg q)) as H.
      rewrite Z.pow_0_r, Z.mul_1_r, Z.add_0_r in H.
      apply H; [apply mul_pow2_pos; lia| |lia|lia].
      replace (Z.pos q) with (24 - digits (Z.pos p)) by lia.
      by apply digits_normal. }
  unfold F32.of_Z, binary_normalize, F32.prec, F32.emax, F32.signed.
  destruct n as [|p|p]; try lia.
  destruct sx; cbn [Z.opp]; by apply Hround.
Qed.

Lemma of_Z_normal n : 0 < n < 2 ^ 24 -> F32.of_Z n = normal n.
Proof. apply (of_Z_signed false). Qed.

Lemma digits_mul_ge a b :
  0 < a -> 0 < b -> digits a + digits b - 1 <= digits (a * b).
Proof.
  intros Ha Hb. unfold digits.
  pose proof (Z.log2_mul_below a b Ha Hb). lia.
Qed.

Lemma to_pos_mul_pow2 x k :
  0 < x -> 0 <= k -> Z.pos (Z.to_pos (x * 2 ^ k)) = x * 2 ^ k.
Proof. intros. apply Z2Pos.id. by apply mul_pow2_pos. Qed.

(** The product of two integers is exact when it is below 2^24. *)
Lemma mul_signed sa sb a b :
  0 < a -> 0 < b -> a * b < 2 ^ 24 ->
  F32.mul (F32.signed_normal sa a) (F32.signed_normal sb b) =
  F32.signed_normal (xorb sa sb) (a * b).
Proof.
  intros Ha Hb Hab.
  assert (HP : 0 < a * b) by lia.
  assert (Ha24 : a < 2 ^ 24) by nia. assert (Hb24 : b < 2 ^ 24) by nia.
  pose proof (digits_le a 24 Ha ltac:(lia) Ha24) as Hda.
  pose proof (digits_le b 24 Hb ltac:(lia) Hb24) as Hdb.
  pose proof (digits_le (a * b) 24 HP ltac:(lia) Hab) as HdP.
  pose proof (digits_pos a Ha). pose proof (digits_pos b Hb).
  pose proof (digits_pos _ HP). pose proof (digits_mul_ge a b Ha Hb) as Hge.
  unfold F32.mul, F32.signed_normal, SFmul, F32.prec, F32.emax.
  rewrite Pos2Z.inj_mul, !to_pos_mul_pow2 by lia.
  set (k := 24 - digits a - digits b + digits (a * b)).
  replace (a * 2 ^ (24 - digits a) * (b * 2 ^ (24 - digits b)))
    with (a * b * 2 ^ (24 - digits (a * b)) * 2 ^ k).
  2:{ rewrite <- !Z.mul_assoc, <- Z.pow_add_r by lia.
      replace (a * (2 ^ (24 - digits a) * (b * 2 ^ (24 - digits b))))
        with (a * (b * (2 ^ (24 - digits a) * 2 ^ (24 - digits b)))) by ring.
      rewrite <- Z.pow_add_r by lia. do 3 f_equal. lia. }
  rewrite round_exact; [|by apply mul_pow2_pos; lia|by apply digits_normal|lia|lia].
  f_equal. lia.
Qed.



Lemma round_nearest_even_bounds m l :
  m <= round_nearest_even m l <= m + 1.
Proof.
  unfold round_nearest_even. destruct l as [|[]]; try lia.
  destruct (Z.even m); lia.
Qed.

Lemma shr_1_m mrs : 0 <= shr_m mrs -> shr_m (shr_1 mrs) = shr_m mrs / 2.
Proof.
  destruct mrs as [m r s]. cbn [shr_m]. intros Hm.
  destruct m as [|[p|p|]|p]; cbn [shr_1 shr_m orb];
    rewrite <- ?Z.div2_div; try reflexivity; lia.
Qed.

(** Halving an even mantissa leaves nothing to round up. *)
Lemma shr_1_even q l :
  0 < q -> Z.even q = true ->
  round_nearest_even (shr_m (shr_1 (shr_record_of_loc q l)))
    (loc_of_shr_record (shr_1 (shr_record_of_loc q l))) = q / 2.
Proof.
  intros Hq He. destruct q as [|[p|p|]|p]; try lia; try discriminate He.
  rewrite <- Z.div2_div.
  destruct l as [|[]]; reflexivity.
Qed.

(** The second normalisation of [binary_round_aux]: a mantissa that the
    rounding carried up to 2^24 is renormalised, the value is kept. *)
Lemma round_finish sx m e :
  2 ^ 23 <= m <= 2 ^ 24 -> -149 <= e <= 103 ->
  exists M E,
    (let '(mrs, e') := shr_fexp 24 128 m e loc_Exact in
     match shr_m mrs with
     | 0 => S754_zero sx
     | Z.pos m' =>
         if e' <=? 128 - 24 then S754_finite sx m' e' else S754_infinity sx
     | Z.neg _ => S754_nan
     end) = S754_finite sx M E /\
    e <= E <= e + 1 /\ Z.pos M * 2 ^ (E - e) = m.
Proof.
  intros Hm He. destruct (Z.eq_dec m (2 ^ 24)) as [->|Hne].
  - rewrite shr_fexp_25 by (try reflexivity; lia).
    cbn [shr_record_of_loc shr_1 shr_m].
    replace (e + 1 <=? 128 - 24) with true by (symmetry; apply Z.leb_le; lia).
    eexists _, _. split; [reflexivity|]. split; [lia|].
    replace (e + 1 - e) with 1 by lia. reflexivity.
  - rewrite shr_fexp_24; [|lia|apply digits_unique; lia|lia].
    cbn [shr_record_of_loc shr_m].
    destruct m as [|p|p]; try lia.
    replace (e <=? 128 - 24) with true by (symmetry; apply Z.leb_le; lia).
    eexists _, _. split; [reflexivity|]. split; [lia|].
    rewrite Z.sub_diag. lia.
Qed.

(** Rounding a quotient of 24 or 25 digits: the result is finite and, in
    units of the quotient's last digit, lies between the quotient with its
    last digit cleared (25 digits) or the quotient (24 digits) and the
    quotient plus one. *)
Lemma round_sandwich sx q e l :
  2 ^ 23 <= q < 2 ^ 25 -> -149 <= e <= 100 ->
  exists M E,
    binary_round_aux 24 128 sx q e l = S754_finite sx M E /\
    e <= E <= e + 2 /\
    (q < 2 ^ 24 -> q <= Z.pos M * 2 ^ (E - e) <= q + 1) /\
    (2 ^ 24 <= q ->
     2 * (q / 2) <= Z.pos M * 2 ^ (E - e) <= q + 1).
Proof.
  intros Hq He. unfold binary_round_aux.
  destruct (Z_lt_le_dec q (2 ^ 24)) as [Hlt|Hge].
  - rewrite shr_fexp_24; [|lia|apply digits_unique; lia|lia].
    rewrite shr_m_of_loc, loc_of_shr_record_of_loc.
    pose proof (round_nearest_even_bounds q l) as Hr.
    destruct (round_finish sx (round_nearest_even q l) e)
      as (M & E & -> & HE & HW); [lia|lia|].
    exists M, E. split; [reflexivity|]. split; [lia|]. split; lia.
  - rewrite shr_fexp_25; [|lia|apply digits_unique; lia|lia].
    set (mrs := shr_1 (shr_record_of_loc q l)).
    assert (Hm : shr_m mrs = q / 2).
    { unfold mrs. rewrite shr_1_m, shr_m_of_loc; [done|].
      rewrite shr_m_of_loc. lia. }
    assert (Hhalf : 2 ^ 23 <= q / 2 < 2 ^ 24).
    { split; [apply Z.div_le_lower_bound; lia|].
      apply Z.div_lt_upper_bound; lia. }
    pose proof (round_nearest_even_bounds (q / 2) (loc_of_shr_record mrs))
      as Hr.
    assert (Hup : 2 * round_nearest_even (q / 2) (loc_of_shr_record mrs)
                  <= q + 1).
    { destruct (Z.even q) eqn:Hev.
      - pose proof (shr_1_even q l ltac:(lia) Hev) as Heq.
        fold mrs in Heq. rewrite Hm in Heq. rewrite Heq.
        pose proof (Z.mul_div_le q 2 ltac:(lia)). lia.
      - rewrite <- Z.negb_odd in Hev. apply negb_false_iff in Hev.
        rewrite Z.odd_spec in Hev. destruct Hev as [k ->].
        replace (2 * k + 1) with (1 + k * 2) in * by lia.
        rewrite Z.div_add in * by lia. change (1 / 2) with 0 in *. lia. }
    rewrite Hm.
    destruct (round_finish sx
                (round_nearest_even (q / 2) (loc_of_shr_record mrs)) (e + 1))
      as (M & E & -> & HE & HW); [lia|lia|].
    exists M, E. split; [reflexivity|]. split; [lia|]. split; [lia|].
    intros _.
    replace (E - e) with (1 + (E - (e + 1))) by lia.
    rewrite Z.pow_add_r by lia. change (2 ^ 1) with 2.
    replace (Z.pos M * (2 * 2 ^ (E - (e + 1))))
      with (2 * (Z.pos M * 2 ^ (E - (e + 1)))) by ring.
    rewrite HW. lia.
Qed.


Lemma pow2_ge k j : 0 <= j <= k -> 2 ^ j <= 2 ^ k.
Proof. intros. apply Z.pow_le_mono_r; lia. Qed.

Lemma quot_lower P s G q n :
  0 < s -> 0 <= G -> n * s <= P -> P * G < (q + 1) * s -> n * G <= q.
Proof.
  intros Hs HG Hn Hq.
  assert (n * G * s < (q + 1) * s) by nia.
  assert (n * G < q + 1) by (apply (Z.mul_lt_mono_pos_r s); lia).
  lia.
Qed.

Lemma quot_upper P s G q n k :
  0 < s -> k * s < G -> 0 <= k -> P < (n + 1) * s -> q * s <= P * G ->
  q + k < (n + 1) * G.
Proof.
  intros Hs HG Hk Hn Hq.
  assert (P + 1 <= (n + 1) * s) by lia.
  assert ((P + 1) * G <= (n + 1) * s * G) by (apply Z.mul_le_mono_nonneg_r; lia).
  assert ((q + k) * s < (n + 1) * G * s) by nia.
  apply (Z.mul_lt_mono_pos_r s); lia.
Qed.

(** The quotient of two integers below 2^24: truncating the binary32
    quotient gives the integer quotient, whatever the sign of the
    dividend. *)
Lemma div_signed_trunc sx P s :
  0 < P < 2 ^ 24 -> 0 < s < 2 ^ 24 ->
  F32.trunc (F32.div (F32.signed_normal sx P) (normal s)) =
  Some (F32.signed sx (P / s)).
Proof.
  intros [HP HP24] [Hs Hs24].
  pose proof (digits_pos P HP) as HdP0. pose proof (digits_pos s Hs) as Hds0.
  pose proof (digits_le P 24 HP ltac:(lia) HP24) as HdP.
  pose proof (digits_le s 24 Hs ltac:(lia) Hs24) as Hds.
  pose proof (digits_bounds s Hs) as [Hslo Hshi].
  set (e := digits P - digits s - 24).
  set (G := 2 ^ (- e)).
  assert (HsG : s < G).
  { unfold G. eapply Z.lt_le_trans; [exact Hshi|]. apply pow2_ge. lia. }
  assert (HGeven : G = 2 * 2 ^ (- e - 1)).
  { unfold G. rewrite <- Z.pow_succ_r by lia. f_equal. lia. }
  (* the mantissas *)
  set (mP := P * 2 ^ (24 - digits P)). set (ms := s * 2 ^ (24 - digits s)).
  assert (HmP : Z.pos (Z.to_pos mP) = mP) by (apply to_pos_mul_pow2; lia).
  assert (Hms : Z.pos (Z.to_pos ms) = ms) by (apply to_pos_mul_pow2; lia).
  assert (HdmP : digits mP = 24) by (apply digits_normal; lia).
  assert (Hdms : digits ms = 24) by (apply digits_normal; lia).
  assert (HmP0 : 0 < mP) by (apply mul_pow2_pos; lia).
  assert (Hms0 : 0 < ms) by (apply mul_pow2_pos; lia).
  pose proof (digits_bounds mP HmP0) as HmPb. rewrite HdmP in HmPb.
  pose proof (digits_bounds ms Hms0) as Hmsb. rewrite Hdms in Hmsb.
  (* the quotient the division core computes *)
  assert (Hq : mP * 2 ^ 24 / ms = P * G / s).
  { unfold mP, ms, G.
    replace (P * 2 ^ (24 - digits P) * 2 ^ 24)
      with (P * 2 ^ (- e) * 2 ^ (24 - digits s)).
    - apply Z.div_mul_cancel_r; [lia|]. pose proof (pow2_pos (24 - digits s)). lia.
    - rewrite <- !Z.mul_assoc, <- !Z.pow_add_r by lia. do 2 f_equal. lia. }
  set (q := P * G / s) in *.
  assert (Hq23 : 2 ^ 23 <= q < 2 ^ 25).
  { rewrite <- Hq. split.
    - apply Z.div_le_lower_bound; [lia|]. nia.
    - apply Z.div_lt_upper_bound; [lia|]. nia. }
  assert (Hcore : SFdiv_core_binary 24 128 mP (digits P - 24) ms (digits s - 24)
                  = (q, e, new_location ms (mP * 2 ^ 24 mod ms))).
  { unfold SFdiv_core_binary.
    rewrite !Zdigits2_digits, HdmP, Hdms, fexp_normal by lia.
    replace (Z.min (24 + (digits P - 24) - (24 + (digits s - 24)) - 24)
                   (digits P - 24 - (digits s - 24))) with e by lia.
    replace (digits P - 24 - (digits s - 24) - e) with 24 by lia.
    rewrite Z.shiftl_mul_pow2 by lia.
    unfold Z.div, Z.modulo in *.
    destruct (Z.div_eucl (mP * 2 ^ 24) ms) as [q' r']. cbn [fst snd] in *.
    by rewrite Hq. }
  unfold F32.div, normal, F32.signed_normal, SFdiv, F32.prec, F32.emax.
  fold mP ms.
  rewrite HmP, Hms, Hcore. rewrite xorb_false_r.
  destruct (round_sandwich sx q e
              (new_location ms (mP * 2 ^ 24 mod ms)) Hq23 ltac:(lia))
    as (M & E & -> & HE & H24 & H25).
  unfold F32.trunc. f_equal.
  (* in units of 2^e the result is W, and W / G is its integer part *)
  set (W := Z.pos M * 2 ^ (E - e)) in *.
  assert (HW : (if 0 <=? E then Z.pos M * 2 ^ E else Z.pos M / 2 ^ (- E))
               = W / G).
  { unfold W, G. destruct (Z.leb_spec 0 E) as [HE0|HE0].
    - replace (E - e) with (E + - e) by lia.
      rewrite Z.pow_add_r, Z.mul_assoc by lia.
      symmetry. apply Z.div_mul. pose proof (pow2_pos (- e)). lia.
    - replace (- e) with (- E + (E - e)) by lia.
      rewrite Z.pow_add_r by lia.
      symmetry. apply Z.div_mul_cancel_r.
      + pose proof (pow2_pos (- E)). lia.
      + pose proof (pow2_pos (E - e)). lia. }
  rewrite HW. clear HW.
  assert (Hn : P / s * s <= P < (P / s + 1) * s).
  { pose proof (Z.mul_div_le P s Hs).
    pose proof (Z.mul_succ_div_gt P s Hs). lia. }
  set (n := P / s) in *.
  assert (Hn0 : 0 <= n) by (apply Z.div_pos; lia).
  assert (HqlePG : q * s <= P * G)
    by (unfold q; pose proof (Z.mul_div_le (P * G) s Hs); lia).
  assert (HqgtPG : P * G < (q + 1) * s)
    by (unfold q; pose proof (Z.mul_succ_div_gt (P * G) s Hs); lia).
  assert (HnGq : n * G <= q) by (apply (quot_lower P s G q n); lia).
  pose proof (quot_upper P s G q n 1 Hs ltac:(lia) ltac:(lia)
                (proj2 Hn) HqlePG) as Hup.
  assert (HWn : W / G = n).
  { symmetry. apply Z.div_unique_pos with (r := W - n * G); [|lia].
    destruct (Z_lt_le_dec q (2 ^ 24)) as [Hlt|Hge].
    - specialize (H24 Hlt). lia.
    - specialize (H25 Hge).
      pose proof (Z.mul_div_le q 2 ltac:(lia)).
      assert (n * 2 ^ (- e - 1) <= q / 2).
      { apply Z.div_le_lower_bound; [lia|]. rewrite HGeven in HnGq. lia. }
      rewrite HGeven in *. lia. }
  rewrite HWn. unfold F32.signed. by destruct sx.
Qed.

Lemma signed_quot sx P s :
  0 <= P -> 0 < s -> F32.signed sx (P / s) = F32.signed sx P ÷ s.
Proof.
  intros HP Hs. unfold F32.signed. destruct sx.
  - rewrite Z.quot_opp_l, Z.quot_div_nonneg by lia. done.
  - by rewrite Z.quot_div_nonneg by lia.
Qed.

(** [(uint8_t)((float)a * b / s)] is the low byte of the integer quotient
    a*b / s, truncated towards zero, for an [int] a, a byte b and
    0 < s < 2^24. *)
Lemma f32_quotient a b s :
  -32768 <= a <= 32767 -> 0 <= b <= 255 -> 0 < s < 2 ^ 24 ->
  F32.to_uint8 (F32.div (F32.mul (F32.of_Z a) (F32.of_Z b)) (F32.of_Z s)) =
  Some ((a * b ÷ s) mod 256).
Proof.
  intros Ha Hb Hs.
  rewrite (of_Z_normal s) by lia.
  assert (Hzero : forall sz,
            F32.to_uint8 (F32.div (S754_zero sz) (normal s)) = Some 0)
    by (intros sz; reflexivity).
  assert (Hsign : exists sx n, a = F32.signed sx n /\ 0 <= n <= 32768).
  { destruct (Z_lt_le_dec a 0); [exists true, (- a) | exists false, a];
      unfold F32.signed; split; lia. }
  destruct Hsign as (sx & n & -> & Hn).
  destruct (Z.eq_dec n 0) as [->|Hn0].
  { replace (F32.signed sx 0) with 0 by (by destruct sx).
    rewrite Z.mul_0_l, Z.quot_0_l by lia.
    destruct (Z.eq_dec b 0) as [->|Hb0]; [reflexivity|].
    rewrite (of_Z_normal b) by lia. apply Hzero. }
  rewrite (of_Z_signed sx n) by lia.
  destruct (Z.eq_dec b 0) as [->|Hb0].
  { rewrite Z.mul_0_r, Z.quot_0_l by lia. apply Hzero. }
  assert (HP : 0 < n * b < 2 ^ 24) by nia.
  rewrite (of_Z_normal b) by lia.
  change (F32.normal b) with (F32.signed_normal false b).
  rewrite mul_signed by lia. rewrite xorb_false_r.
  unfold F32.to_uint8. rewrite div_signed_trunc by lia.
  cbn [mbind option_bind].
  assert (Hq : 0 <= n * b / s < 2 ^ 24).
  { split; [apply Z.div_pos; lia|]. apply Z.div_lt_upper_bound; nia. }
  replace (F32.signed sx n * b) with (F32.signed sx (n * b))
    by (unfold F32.signed; destruct sx; ring).
  rewrite <- (signed_quot sx (n * b) s) by lia.
  replace ((-2147483648 <=? F32.signed sx (n * b / s))
           && (F32.signed sx (n * b / s) <=? 2147483647)) with true; [done|].
  symmetry. apply andb_true_intro.
  unfold F32.signed.
  split; [apply Z.leb_le | apply Z.leb_le]; destruct sx; lia.
Qed.

End Binary32.

(** ** The alternate backend *)

Section AdafruitFacts.
Import CInt Adafruit.

Lemma channel_at_same (s : AdafruitMyPixel) (k v : Z) :
  channel_at s k v v v = v.
Proof. unfold channel_at. repeat case_match; reflexivity. Qed.

Lemma pixel_strip_fields (t : Z) :
  numLEDs (Examples.pixel_strip 1 t) = 1 /\
  brightness (Examples.pixel_strip 1 t) = 0 /\
  pixels (Examples.pixel_strip 1 t) = Some [170; 170].
Proof. repeat split. Qed.

(** C6.  On a one-pixel strip of any colour order, with brightness
    scaling off, storing (128, 128, 128) at pixel 0 and reading it back
    gives 0x800800: red 128, green 8, blue 0.  The store packs the three
    channels at bits 15..11, 10..6 and 5..1; the load reads green at bits
    9..5 and blue at bits 4..0. *)
Theorem setPixelColor_getPixelColor_mismatch (t : Z) :
  exists s',
    brightness (Examples.pixel_strip 1 t) = 0 /\
    setPixelColor (Examples.pixel_strip 1 t) 0 128 128 128 = Some s' /\
    getPixelColor s' 0 = Some 8390656 /\
    red 8390656 = 128 /\ green 8390656 = 8 /\ blue 8390656 = 0.
Proof.
  destruct (pixel_strip_fields t) as (Hn & Hb & Hp).
  exists (with_pixels (Some [132; 32]) (Examples.pixel_strip 1 t)).
  split; [exact Hb|]. split.
  - unfold setPixelColor. rewrite Hn, Hb, Hp, !channel_at_same. reflexivity.
  - unfold getPixelColor. cbn [numLEDs with_pixels brightness pixels].
    rewrite Hn, Hb. repeat split.
Qed.

Lemma same_shape_refl s : block_ok s -> same_shape s s.
Proof. intros (_ & l & Hl & _). exists l, l. destruct s; cbn in *; subst; done. Qed.

Lemma same_shape_trans s1 s2 s3 :
  same_shape s1 s2 -> same_shape s2 s3 -> same_shape s1 s3.
Proof.
  intros (l1 & l2 & H1 & -> & Hlen) (l2' & l3 & H2 & -> & Hlen').
  cbn in H2. injection H2 as <-.
  exists l1, l3. repeat split; [done|congruence].
Qed.

Lemma block_ok_same_shape s s' : block_ok s -> same_shape s s' -> block_ok s'.
Proof.
  intros (Hn & l & Hl & Hlen) (l1 & l2 & H1 & -> & H3).
  split; [done|]. exists l2. split; [done|].
  rewrite Hl in H1. injection H1 as <-. cbn. lia.
Qed.

Lemma to_uint16_small z : 0 <= z <= 65535 -> to_uint16 z = z.
Proof. intros. unfold to_uint16, to_unsigned. apply Z.mod_small. lia. Qed.

Lemma setPixelColor_in_block s n r g b :
  block_ok s -> 0 <= n ->
  exists s', setPixelColor s n r g b = Some s' /\ same_shape s s'.
Proof.
  intros Hok Hn0. pose proof Hok as (Hn & l & Hl & Hlen).
  unfold setPixelColor. destruct (n <? numLEDs s) eqn:Hlt.
  - apply Z.ltb_lt in Hlt.
    rewrite (to_uint16_small (n * 2)) by lia.
    rewrite Hl. unfold store at 2. cbn [mbind option_bind].
    assert (Hb : forall i k, 0 <= i < Z.of_nat k ->
               (0 <=? i) && (i <? Z.of_nat k) = true).
    { intros i k Hi. apply andb_true_intro.
      split; [apply Z.leb_le | apply Z.ltb_lt]; lia. }
    rewrite Hb by lia.
    cbn [mbind option_bind]. unfold store. cbn [mbind option_bind].
    rewrite length_insert, Hb by lia.
    cbn [mbind option_bind].
    eexists. split; [reflexivity|].
    eexists _, _. split; [exact Hl|]. split; [reflexivity|].
    by rewrite !length_insert.
  - exists s. split; [done|]. by apply same_shape_refl.
Qed.

Lemma setPixelColor_c_in_block s n c :
  block_ok s -> 0 <= n ->
  exists s', setPixelColor_c s n c = Some s' /\ same_shape s s'.
Proof.
  intros Hok Hn. unfold setPixelColor_c. destruct (n <? numLEDs s).
  - by apply setPixelColor_in_block.
  - exists s. split; [done|]. by apply same_shape_refl.
Qed.

Lemma fill_loop_in_block c idx : forall s,
  block_ok s -> Forall (fun i => 0 <= i) idx ->
  exists s', foldl (fun acc i => s' ← acc; setPixelColor_c s' i c)
                   (Some s) idx = Some s' /\ same_shape s s'.
Proof.
  induction idx as [|i idx IH]; intros s Hok Hidx.
  - exists s. split; [done|]. by apply same_shape_refl.
  - inversion Hidx as [|? ? Hi Hrest]; subst.
    destruct (setPixelColor_c_in_block s i c Hok Hi) as (s1 & H1 & Hs1).
    cbn [foldl mbind option_bind]. rewrite H1.
    destruct (IH s1 (block_ok_same_shape _ _ Hok Hs1) Hrest) as (s2 & H2 & Hs2).
    exists s2. split; [done|]. eapply same_shape_trans; eauto.
Qed.

(** C10.  For every index n >= numLEDs, each setPixelColor overload
    returns the object as it was, getPixelColor returns 0, and fill with
    first = n returns the object as it was; and on a strip whose block
    holds two bytes per pixel, fill completes for every first and count
    with every store inside the block, changing nothing but the bytes of
    the block. *)
Theorem backend_bounds_checked (s : AdafruitMyPixel) :
  (forall n, numLEDs s <= n ->
     (forall r g b, setPixelColor s n r g b = Some s) /\
     (forall r g b w, setPixelColor_w s n r g b w = Some s) /\
     (forall c, setPixelColor_c s n c = Some s) /\
     getPixelColor s n = Some 0 /\
     (forall c count, fill s c n count = Some s)) /\
  (block_ok s ->
   forall c first count, 0 <= first ->
     exists s', fill s c first count = Some s' /\ same_shape s s').
Proof.
  split.
  - intros n Hn.
    assert (Hlt : (n <? numLEDs s) = false) by (apply Z.ltb_ge; lia).
    assert (Hge : (n >=? numLEDs s) = true) by (apply Z.geb_le; lia).
    unfold setPixelColor_w, setPixelColor_c, setPixelColor, getPixelColor, fill.
    rewrite Hlt, Hge. repeat split.
  - intros Hok c first count Hfirst. unfold fill.
    destruct (first >=? numLEDs s); [exists s; split; [done|by apply same_shape_refl]|].
    apply fill_loop_in_block; [done|].
    apply Forall_forall. intros i Hi. apply elem_of_seqZ in Hi. lia.
Qed.

End AdafruitFacts.

Import CInt MicroLED.

(** ** Matrix addressing *)

Create HintDb eqm.

Section Wrap.

Lemma eqm_refl a : eqm a a.
Proof. reflexivity. Qed.

Lemma eqm_eq a b : a = b -> eqm a b.
Proof. intros ->. reflexivity. Qed.

Lemma eqm_trans a b c : eqm a b -> eqm b c -> eqm a c.
Proof. unfold eqm. congruence. Qed.

Lemma eqm_to_int a : eqm (to_int a) a.
Proof.
  unfold eqm, to_int, to_signed.
  change (2 ^ (16 - 1)) with 32768. change (2 ^ 16) with 65536.
  rewrite Zminus_mod, Z.mod_mod by lia.
  rewrite <- Zminus_mod. f_equal. lia.
Qed.

Lemma eqm_add a a' b b' : eqm a a' -> eqm b b' -> eqm (a + b) (a' + b').
Proof. unfold eqm. intros Ha Hb. rewrite Z.add_mod, Ha, Hb, <- Z.add_mod; lia. Qed.

Lemma eqm_sub a a' b b' : eqm a a' -> eqm b b' -> eqm (a - b) (a' - b').
Proof. unfold eqm. intros Ha Hb. rewrite Zminus_mod, Ha, Hb, <- Zminus_mod; lia. Qed.

Lemma eqm_mul a a' b b' : eqm a a' -> eqm b b' -> eqm (a * b) (a' * b').
Proof. unfold eqm. intros Ha Hb. rewrite Z.mul_mod, Ha, Hb, <- Z.mul_mod; lia. Qed.

Lemma to_uint16_eqm a b : eqm a b -> to_uint16 a = b mod 65536.
Proof. intros H. exact H. Qed.

Lemma even_to_int a : Z.even (to_int a) = Z.even a.
Proof.
  unfold to_int, to_signed.
  change (2 ^ (16 - 1)) with 32768. change (2 ^ 16) with 65536.
  rewrite Z.even_sub. change (Z.even 32768) with true.
  rewrite (Z.mod_eq (a + 32768) 65536) by lia.
  rewrite Z.even_sub, Z.even_add, Z.even_mul. simpl.
  destruct (Z.even a); reflexivity.
Qed.

Lemma rem_even a : (Z.rem a 2 =? 0) = Z.even a.
Proof.
  rewrite Zeven_mod. pose proof (Z.rem_mod_eq_0 a 2).
  destruct (Z.eqb_spec (Z.rem a 2) 0), (Z.eqb_spec (a mod 2) 0); lia.
Qed.




Lemma eqm_to_int' a b : eqm a b -> eqm (to_int a) b.
Proof. intros H. eapply eqm_trans; [apply eqm_to_int | exact H]. Qed.

End Wrap.

#[global] Hint Resolve eqm_refl eqm_to_int' eqm_add eqm_sub eqm_mul : eqm.

Section Addressing.
Context {mData : Type}.
Implicit Type o : microLED mData.

(** The source's index is the canonical row index modulo 2^16. *)
Lemma getPixNumber_row_index o x y :
  supported (_matrixConfig o) ->
  getPixNumber o x y =
    Some (uncurry (row_index (_matrixType o =? 0) (_matrixW o))
                  (canonical (_matrixConfig o) (_width o) (_height o) x y)
          mod 65536).
Proof.
  intros Hc. unfold getPixNumber, thisXY, canonical, row_index.
  destruct (_matrixType o =? 0);
    destruct Hc as [-> | [-> | [-> | [-> | [-> | [-> | [-> | ->]]]]]]];
    cbn [mbind option_bind negb orb andb uncurry];
    rewrite ?rem_even, <- ?Z.negb_even;
    repeat (rewrite Z.even_sub || rewrite even_to_int);
    change (Z.even 1) with false;
    repeat match goal with
    | |- context [Z.even ?c] => destruct (Z.even c)
    end;
    cbn [negb Bool.eqb]; f_equal; apply to_uint16_eqm;
    lazymatch goal with
    | |- eqm ?l ?r =>
        let l' := strip_to_int l in
        apply (eqm_trans l l' r);
        [solve [auto 20 with eqm] | apply eqm_eq; ring]
    end.
Qed.



Lemma row_index_range serp RW RH cx cy :
  0 <= cx < RW -> 0 <= cy < RH ->
  0 <= row_index serp RW cx cy < RW * RH.
Proof. intros. unfold row_index. destruct (serp && Z.odd cy); nia. Qed.

Lemma row_index_inj serp RW cx cy cx' cy' :
  0 <= cx < RW -> 0 <= cx' < RW -> 0 <= cy -> 0 <= cy' ->
  row_index serp RW cx cy = row_index serp RW cx' cy' ->
  cx = cx' /\ cy = cy'.
Proof.
  intros Hx Hx' Hy Hy' H.
  assert (Hrow : cy = cy').
  { unfold row_index in H.
    destruct (serp && Z.odd cy), (serp && Z.odd cy'); nia. }
  subst cy'. unfold row_index in H.
  destruct (serp && Z.odd cy); split; lia.
Qed.

Lemma row_index_surj serp RW RH i :
  0 <= RW -> 0 <= RH -> 0 <= i < RW * RH ->
  exists cx cy, 0 <= cx < RW /\ 0 <= cy < RH /\ row_index serp RW cx cy = i.
Proof.
  intros HRW0 HRH0 Hi.
  assert (HRW : 0 < RW) by nia.
  pose proof (Z.div_mod i RW ltac:(lia)) as Hdm.
  pose proof (Z.mod_pos_bound i RW HRW) as Hm.
  assert (Hq : 0 <= i / RW < RH).
  { split; [apply Z.div_pos; lia|]. apply Z.div_lt_upper_bound; lia. }
  exists (if serp && Z.odd (i / RW) then RW - 1 - i mod RW else i mod RW),
         (i / RW).
  set (q := i / RW) in *. set (r := i mod RW) in *.
  unfold row_index. destruct (serp && Z.odd q); repeat split; nia.
Qed.

(** The corner/direction transform maps the matrix onto the canonical
    rectangle, one to one. *)
Lemma canonical_on_rect o x y :
  supported (_matrixConfig o) -> on_matrix o x y ->
  let '(cx, cy) := canonical (_matrixConfig o) (_width o) (_height o) x y in
  0 <= cx < rowWidth o /\ 0 <= cy < rowCount o.
Proof.
  unfold on_matrix, rowWidth, rowCount, canonical.
  intros [-> | [-> | [-> | [-> | [-> | [-> | [-> | ->]]]]]]] H; cbn; lia.
Qed.

Lemma canonical_inj o x y x' y' :
  supported (_matrixConfig o) ->
  canonical (_matrixConfig o) (_width o) (_height o) x y =
  canonical (_matrixConfig o) (_width o) (_height o) x' y' ->
  x = x' /\ y = y'.
Proof.
  unfold canonical.
  intros [-> | [-> | [-> | [-> | [-> | [-> | [-> | ->]]]]]]] H;
    injection H; lia.
Qed.

Lemma canonical_surj o cx cy :
  supported (_matrixConfig o) ->
  0 <= cx < rowWidth o -> 0 <= cy < rowCount o ->
  exists x y, on_matrix o x y /\
    canonical (_matrixConfig o) (_width o) (_height o) x y = (cx, cy).
Proof.
  unfold on_matrix, rowWidth, rowCount, canonical.
  set (w := _width o). set (h := _height o).
  intros [-> | [-> | [-> | [-> | [-> | [-> | [-> | ->]]]]]]] Hx Hy;
    cbn in Hx, Hy.
  - exists cx, cy. split; [lia | reflexivity].
  - exists cx, (h - cy - 1). split; [lia | f_equal; lia].
  - exists cy, cx. split; [lia | reflexivity].
  - exists (w - cy - 1), cx. split; [lia | f_equal; lia].
  - exists (w - cx - 1), (h - cy - 1). split; [lia | f_equal; lia].
  - exists (w - cx - 1), cy. split; [lia | f_equal; lia].
  - exists cy, (h - cx - 1). split; [lia | f_equal; lia].
  - exists (w - cy - 1), (h - cx - 1). split; [lia | f_equal; lia].
Qed.

Lemma rows_times_width o : rowWidth o * rowCount o = _width o * _height o.
Proof. unfold rowWidth, rowCount. destruct (swaps_axes _); lia. Qed.

(** On the matrix the index needs no reduction modulo 2^16. *)
Lemma getPixNumber_on_matrix o x y :
  matrix_object o -> supported (_matrixConfig o) -> on_matrix o x y ->
  getPixNumber o x y =
    Some (uncurry (row_index (_matrixType o =? 0) (rowWidth o))
                  (canonical (_matrixConfig o) (_width o) (_height o) x y)).
Proof.
  intros (Hw & Hh & HW) Hc Hxy.
  rewrite getPixNumber_row_index, HW by done. f_equal.
  pose proof (canonical_on_rect o x y Hc Hxy) as Hrect.
  destruct (canonical _ _ _ x y) as [cx cy]. cbn [uncurry].
  destruct Hrect as [Hcx Hcy].
  pose proof (row_index_range (_matrixType o =? 0) _ _ cx cy Hcx Hcy) as Hr.
  rewrite rows_times_width in Hr.
  apply Z.mod_small. unfold is_uint8 in *. nia.
Qed.

Lemma getPixNumber_bijective o :
  matrix_object o -> supported (_matrixConfig o) ->
  (forall x y, on_matrix o x y ->
     exists n, getPixNumber o x y = Some n /\ 0 <= n < _width o * _height o) /\
  (forall x y x' y', on_matrix o x y -> on_matrix o x' y' ->
     getPixNumber o x y = getPixNumber o x' y' -> x = x' /\ y = y') /\
  (forall n, 0 <= n < _width o * _height o ->
     exists x y, on_matrix o x y /\ getPixNumber o x y = Some n).
Proof.
  intros Hobj Hc. split; [|split].
  - intros x y H. rewrite getPixNumber_on_matrix by done.
    pose proof (canonical_on_rect o x y Hc H) as Hrect.
    destruct (canonical _ _ _ x y) as [cx cy]. destruct Hrect.
    eexists. split; [reflexivity|]. cbn [uncurry].
    rewrite <- rows_times_width. by apply row_index_range.
  - intros x y x' y' H H0. rewrite !getPixNumber_on_matrix by done.
    pose proof (canonical_on_rect o x y Hc H) as Hr.
    pose proof (canonical_on_rect o x' y' Hc H0) as Hr'.
    destruct (canonical _ _ _ x y) as [cx cy] eqn:E.
    destruct (canonical _ _ _ x' y') as [cx' cy'] eqn:E'.
    cbn [uncurry]. intros [= Hidx].
    apply row_index_inj in Hidx as [-> ->]; try lia.
    rewrite <- E' in E. by apply canonical_inj in E.
  - intros n Hn. rewrite <- rows_times_width in Hn.
    pose proof Hobj as (Hw & Hh & _).
    assert (HRW : 0 <= rowWidth o /\ 0 <= rowCount o).
    { unfold rowWidth, rowCount, is_uint8 in *. destruct (swaps_axes _); lia. }
    destruct (row_index_surj (_matrixType o =? 0) _ _ n
                (proj1 HRW) (proj2 HRW) Hn)
      as (cx & cy & Hcx & Hcy & Hidx).
    destruct (canonical_surj o cx cy Hc Hcx Hcy) as (x & y & Hxy & Hcan).
    exists x, y. split; [done|].
    rewrite getPixNumber_on_matrix, Hcan by done.
    cbn [uncurry]. by f_equal.
Qed.

End Addressing.

(** ** Frame rules for the output monad *)

Create HintDb respects.

Section Respects.
Context {mData : Type}.
Local Abbreviation state := (@state mData).
Local Abbreviation M := (@M mData).
Context (R : relation state) `{!PreOrder R}.

Lemma respects_ret {A} (a : A) : respects R (mret a : M A).
Proof. intros s a' s' [= _ <-]. reflexivity. Qed.

Lemma respects_bind {A B} (c : M A) (k : A -> M B) :
  respects R c -> (forall a, respects R (k a)) -> respects R (c ≫= k).
Proof.
  intros Hc Hk s b s'. unfold mbind, M_bind.
  destruct (c s) as [[a s1]|] eqn:E; [|discriminate].
  intros H. transitivity s1; [eapply Hc; eauto | eapply Hk; eauto].
Qed.

Lemma respects_undefined {A} : respects R (undefined : M A).
Proof. intros s a s'. discriminate. Qed.

Lemma respects_gets {A} (g : state -> A) : respects R (gets g).
Proof. intros s a s' [= _ <-]. reflexivity. Qed.

Lemma respects_deref {A} (p : option A) : respects R (deref p : M A).
Proof. destruct p; [apply respects_ret | apply respects_undefined]. Qed.

Lemma respects_when (b : bool) (c : M unit) :
  respects R c -> respects R (when b c).
Proof. destruct b; [done | intros _; apply respects_ret]. Qed.

Lemma respects_if {A} (b : bool) (c1 c2 : M A) :
  respects R c1 -> respects R c2 -> respects R (if b then c1 else c2).
Proof. by destruct b. Qed.

Lemma respects_for_each {A} (l : list A) (body : A -> M unit) :
  (forall a, respects R (body a)) -> respects R (for_each l body).
Proof.
  intros Hb. induction l as [|a l IH]; cbn [for_each].
  - apply respects_ret.
  - apply respects_bind; [apply Hb | intros _; apply IH].
Qed.

Lemma respects_repeat_n (n : nat) (body : M unit) :
  respects R body -> respects R (repeat_n n body).
Proof.
  intros Hb. induction n as [|n IH]; cbn [repeat_n].
  - apply respects_ret.
  - apply respects_bind; [apply Hb | intros _; apply IH].
Qed.

Lemma respects_update_this (g : microLED mData -> microLED mData) :
  (forall o m, R {| this := o; mcu := m |} {| this := g o; mcu := m |}) ->
  respects R (update_this g).
Proof. intros H [o m] a s' [= _ <-]. apply H. Qed.

Lemma respects_update_mcu (g : AVR -> AVR) :
  (forall o m, R {| this := o; mcu := m |} {| this := o; mcu := g m |}) ->
  respects R (update_mcu g).
Proof. intros H [o m] a s' [= _ <-]. apply H. Qed.

End Respects.

#[global] Hint Resolve respects_ret respects_undefined respects_gets
  respects_deref : respects.
#[global] Hint Extern 1 (PreOrder _) => apply _ : respects.
#[global] Hint Extern 2 (respects _ (_ ≫= _)) =>
  apply respects_bind; [apply _| |intros ?] : respects.
#[global] Hint Extern 2 (respects _ (when _ _)) =>
  apply respects_when : respects.
#[global] Hint Extern 2 (respects _ (if _ then _ else _)) =>
  apply respects_if : respects.
#[global] Hint Extern 2 (respects _ (for_each _ _)) =>
  apply respects_for_each; [apply _|intros ?] : respects.
#[global] Hint Extern 2 (respects _ (repeat_n _ _)) =>
  apply respects_repeat_n : respects.
#[global] Hint Extern 2 (respects _ (read_io _)) => unfold read_io : respects.
#[global] Hint Extern 2 (respects _ (write_io _ _)) =>
  unfold write_io : respects.
#[global] Hint Extern 2 (respects _ (isr_is _)) => unfold isr_is : respects.
#[global] Hint Extern 4 (respects (same _) (update_mcu _)) =>
  apply respects_update_mcu; reflexivity : respects.
#[global] Hint Extern 4 (respects (same _) (update_this _)) =>
  apply respects_update_this; reflexivity : respects.

Section ObjectFrames.
Context {mData : Type} `{CU : ColorUtility mData}.
Variable T : Template.
Context {X : Type} (g : microLED mData -> X).
Hypothesis g_sregSave : forall s o, g (with_sregSave s o) = g o.

Lemma ws_pulses_keeps_object n data :
  keeps (of_object g) (ws_pulses n data).
Proof.
  revert data. induction n; intros; cbn [ws_pulses]; auto 20 with respects.
Qed.

Lemma apa102_bits_keeps_object n data :
  keeps (of_object g) (apa102_bits n data).
Proof.
  revert data. induction n; intros; cbn [apa102_bits]; auto 30 with respects.
Qed.

Lemma save_and_cli_keeps : keeps (of_object g) save_and_cli.
Proof.
  unfold save_and_cli.
  apply respects_bind; [apply _|auto with respects|intros sreg].
  apply respects_bind; [apply _| |auto with respects].
  apply respects_update_this. intros. apply g_sregSave.
Qed.

Lemma restore_sreg_keeps : keeps (of_object g) restore_sreg.
Proof. unfold restore_sreg. auto with respects. Qed.

Lemma sendRaw_keeps data : keeps (of_object g) (sendRaw T data).
Proof.
  pose proof save_and_cli_keeps. pose proof restore_sreg_keeps.
  pose proof ws_pulses_keeps_object. pose proof apa102_bits_keeps_object.
  unfold sendRaw. destruct (chip T); auto 20 with respects.
Qed.

Lemma send_keeps color w : keeps (of_object g) (send T color w).
Proof.
  pose proof save_and_cli_keeps. pose proof restore_sreg_keeps.
  pose proof sendRaw_keeps.
  unfold send, store_data. auto 40 with respects.
Qed.

End ObjectFrames.

Section ShowFrames.
Context {mData : Type} `{CU : ColorUtility mData}.
Variable T : Template.
Context {X : Type} (g : microLED mData -> X).
Hypothesis g_sregSave : forall s o, g (with_sregSave s o) = g o.
Hypothesis g_masks : forall h l o, g (with_masks h l o) = g o.
Hypothesis g_showBright : forall b o, g (with_showBright b o) = g o.

Lemma begin_keeps : keeps (of_object g) (begin T).
Proof.
  pose proof (save_and_cli_keeps g g_sregSave).
  pose proof (sendRaw_keeps T g g_sregSave).
  assert (forall h l, keeps (of_object g) (update_this (with_masks h l))).
  { intros h l. apply respects_update_this. intros. apply g_masks. }
  assert (keeps (of_object g)
            (update_this (fun o => with_showBright (_bright o) o))).
  { apply respects_update_this. intros. apply g_showBright. }
  unfold begin. auto 40 with respects.
Qed.

Lemma end_keeps : keeps (of_object g) (end_ T).
Proof.
  pose proof (restore_sreg_keeps g).
  pose proof (sendRaw_keeps T g g_sregSave).
  unfold end_. auto 40 with respects.
Qed.

Lemma show_keeps : keeps (of_object g) (show T).
Proof.
  pose proof begin_keeps. pose proof end_keeps.
  pose proof (send_keeps T g g_sregSave).
  assert (forall b, keeps (of_object g) (update_this (with_showBright b))).
  { intros b. apply respects_update_this. intros. apply g_showBright. }
  unfold show. auto 40 with respects.
Qed.

End ShowFrames.

Section InitFrames.
Context {mData : Type} `{CU : ColorUtility mData}.
Variable T : Template.

Lemma init_keeps_geometry : keeps (of_object (@geometry mData)) (init T).
Proof. unfold init. destruct (chip T); auto 40 with respects. Qed.

End InitFrames.

(** ** Interrupt masking *)

Section Interrupts.
Context {mData : Type} `{CU : ColorUtility mData}.
Variable T : Template.

Local Abbreviation state := (@state mData).
Local Abbreviation M := (@MicroLED.M mData).
Implicit Types s : state.

Lemma bind_inv {A B} (c : M A) (k : A -> M B) s b (s' : state) :
  (c ≫= k) s = Some (b, s') ->
  exists a s1, c s = Some (a, s1) /\ k a s1 = Some (b, s').
Proof.
  unfold mbind, M_bind. destruct (c s) as [[a s1]|]; [eauto | discriminate].
Qed.

Lemma isr_is_inv i s b (s' : state) :
  isr_is i s = Some (b, s') ->
  s' = s /\ (b = true <-> isr (this s) = i).
Proof.
  unfold isr_is, gets. intros [= <- <-]. split; [done|].
  destruct (isr (this s)), i; split; congruence.
Qed.

Lemma save_and_cli_inv s u (s' : state) :
  save_and_cli s = Some (u, s') ->
  sregSave (this s') = SREG (mcu s) /\ isr (this s') = isr (this s).
Proof. unfold save_and_cli. intros [= _ <-]. done. Qed.

Lemma restore_sreg_inv s u (s' : state) :
  restore_sreg s = Some (u, s') ->
  SREG (mcu s') = sregSave (this s) /\ isr (this s') = isr (this s) /\
  sregSave (this s') = sregSave (this s).
Proof. unfold restore_sreg. intros [= _ <-]. done. Qed.

Lemma keeps_ctl_quiet {A} (c : M A) : keeps ctl c -> respects quiet c.
Proof.
  intros H s a s' Hrun. apply H in Hrun. injection Hrun as H1 H2 H3.
  by repeat split.
Qed.

Lemma quiet_streaming {A} (c : M A) : respects quiet c -> respects streaming c.
Proof.
  intros H s a s' Hrun. apply H in Hrun as (H1 & H2 & H3).
  repeat split; [done..|]. intros Hh. apply H3. congruence.
Qed.

Lemma ws_pulses_keeps_ctl n data : keeps (@ctl mData) (ws_pulses n data).
Proof.
  revert data. induction n; intros; cbn [ws_pulses]; auto 20 with respects.
Qed.

Lemma apa102_bits_keeps_ctl n data : keeps (@ctl mData) (apa102_bits n data).
Proof.
  revert data. induction n; intros; cbn [apa102_bits]; auto 30 with respects.
Qed.

(** The chip-specific part of [sendRaw]. *)
Lemma sendRaw_chip_keeps_ctl data :
  keeps (@ctl mData)
    (match chip T with
     | LED_WS2811 => ws_pulses 8 data
     | LED_WS2812 | LED_WS2813 | LED_WS2815 | LED_WS2818 | LED_WS6812 =>
         ws_pulses 8 data
     | LED_APA102 => apa102_bits 8 data
     | LED_APA102_SPI =>
         when (MLED_USE_SPI T) (update_mcu (emit (SpiTransfer data)))
     end).
Proof.
  destruct (chip T);
    auto using ws_pulses_keeps_ctl, apa102_bits_keeps_ctl with respects.
Qed.

Lemma sendRaw_quiet data : respects (@quiet mData) (sendRaw T data).
Proof.
  intros s u s'. unfold sendRaw. intros H.
  apply bind_inv in H as (low & s1 & H1 & H).
  apply isr_is_inv in H1 as [-> Hlow].
  apply bind_inv in H as ([] & s2 & H2 & H).
  apply bind_inv in H as ([] & s3 & H3 & H).
  apply bind_inv in H as (low' & s4 & H4 & H).
  apply isr_is_inv in H4 as [-> Hlow'].
  apply sendRaw_chip_keeps_ctl in H3.
  injection H3 as HS Hsave Hisr.
  destruct low.
  - apply save_and_cli_inv in H2 as [Hsv Hi].
    assert (low' = true) as -> by (apply Hlow'; rewrite Hisr, Hi; by apply Hlow).
    apply restore_sreg_inv in H as (HS' & Hi' & Hsv').
    repeat split; try congruence.
    intros Hne. destruct Hne. by apply Hlow.
  - injection H2 as <-.
    assert (low' = false) as ->.
    { destruct low'; [|done]. rewrite Hisr in Hlow'.
      destruct Hlow as [_ Hlow]. by rewrite Hlow in * by (by apply Hlow'). }
    injection H as <-. repeat split; congruence.
Qed.

Lemma store_data_inv data i v s d (s' : state) :
  store_data data i v s = Some (d, s') -> s' = s.
Proof.
  unfold store_data. destruct (_ && _); [|discriminate]. by intros [= _ <-].
Qed.

(** What [send] runs between masking and unmasking. *)
Lemma send_burst_quiet (data : list (option Z)) thisWhite :
  respects (@quiet mData)
    (when (chip_is_APA102 T) (sendRaw T 255) ;;
     for_each data (fun d => v ← deref d; sendRaw T v) ;;
     when (CHIP4COLOR T) (sendRaw T thisWhite)).
Proof. pose proof sendRaw_quiet. auto 20 with respects. Qed.

Lemma send_streaming color thisWhite :
  respects streaming (send T color thisWhite).
Proof.
  intros s u s'. unfold send. intros H.
  apply bind_inv in H as (b & s1 & H1 & H). injection H1 as <- <-.
  apply bind_inv in H as (d1 & s1 & H1 & H). apply store_data_inv in H1 as ->.
  apply bind_inv in H as (d2 & s1 & H1 & H). apply store_data_inv in H1 as ->.
  apply bind_inv in H as (d3 & s1 & H1 & H). apply store_data_inv in H1 as ->.
  cbv zeta in H.
  apply bind_inv in H as (aver & s1 & H1 & H).
  apply isr_is_inv in H1 as [-> Haver].
  apply bind_inv in H as ([] & s1 & Hsave & H).
  apply bind_inv in H as ([] & s2 & Hapa & H).
  apply bind_inv in H as ([] & s3 & Hrgb & H).
  apply bind_inv in H as ([] & s4 & Hw & H).
  assert (Hburst : quiet s1 s4).
  { eapply (send_burst_quiet d3
              (if CHIP4COLOR T
               then to_uint8 (fade8 thisWhite (_showBright (this s)))
               else thisWhite) s1 ()).
    cbv [mbind M_bind] in *. rewrite Hapa, Hrgb. exact Hw. }
  destruct Hburst as (HS & Hi & Hsv).
  apply bind_inv in H as (aver' & s5 & H5 & H).
  apply isr_is_inv in H5 as [-> Haver'].
  apply bind_inv in H as ([] & s5 & Hrestore & H).
  apply bind_inv in H as (high & s6 & H6 & H).
  apply isr_is_inv in H6 as [-> Hhigh].
  assert (Hlast : same ctl s5 s').
  { revert H. generalize (negb (uptime T =? 0) && (aver' || high)).
    intros b0 H.
    assert (Hk : keeps (@ctl mData) (when b0 (update_mcu (emit UptimePoll))))
      by auto with respects.
    exact (Hk _ _ _ H). }
  injection Hlast as HS' Hsv' Hi'.
  destruct aver.
  - apply save_and_cli_inv in Hsave as [Hsaved Hi1].
    assert (Hav : isr (this s) = CLI_AVER) by by apply Haver.
    assert (aver' = true) as -> by (apply Haver'; congruence).
    apply restore_sreg_inv in Hrestore as (HS5 & Hi5 & Hsv5).
    repeat split; try congruence.
    rewrite HS', HS5, Hsv, Hsaved; [done | congruence].
  - injection Hsave as <-.
    assert (aver' = false) as ->.
    { destruct aver'; [|done]. destruct Haver as [_ Haver].
      rewrite Haver; [done|]. rewrite <- Hi. by apply Haver'. }
    injection Hrestore as <-.
    repeat split; try congruence.
    intros Hh. rewrite Hsv', Hsv; congruence.
Qed.



Lemma run_stream_streaming ops : respects streaming (run_stream T ops).
Proof.
  pose proof send_streaming.
  pose proof (fun d => quiet_streaming _ (sendRaw_quiet d)).
  unfold run_stream. apply respects_for_each; [apply _|].
  intros []; auto.
Qed.

(** [begin()]: under the per-frame policy [SREG] is saved and interrupts
    are masked; under the others [SREG] is not touched. *)
Lemma begin_inv s u (s1 : state) :
  begin T s = Some (u, s1) ->
  isr (this s1) = isr (this s) /\
  (isr (this s) = CLI_HIGH -> sregSave (this s1) = SREG (mcu s)) /\
  (isr (this s) <> CLI_HIGH -> SREG (mcu s1) = SREG (mcu s)).
Proof.
  unfold begin. intros H.
  apply bind_inv in H as ([] & s0 & Hmask & H).
  assert (Hk0 : same ctl s s0).
  { revert Hmask.
    match goal with
    | |- ?c s = _ -> _ =>
        assert (Hk : keeps (@ctl mData) c) by auto 20 with respects
    end.
    intros Hm. exact (Hk _ _ _ Hm). }
  injection Hk0 as HS0 Hsv0 Hi0.
  apply bind_inv in H as ([] & s0' & Hsb & H).
  injection Hsb as <-. cbn [this mcu] in H.
  apply bind_inv in H as (high & s0' & Hh & H).
  apply isr_is_inv in Hh as [-> Hhigh].
  cbn [this mcu isr with_showBright] in Hhigh.
  apply bind_inv in H as ([] & s2 & Hsave & H).
  assert (Hrest : quiet s2 s1).
  { pose proof sendRaw_quiet.
    assert (Hq : respects (@quiet mData)
              (when (MLED_USE_SPI T) (update_mcu (emit SpiBeginTransaction)) ;;
               when (chip_is_APA102 T) (repeat_n 4 (sendRaw T 0)))).
    { apply respects_bind; [apply _| |intros ?]; [|auto with respects].
      apply keeps_ctl_quiet. auto with respects. }
    exact (Hq _ _ _ H). }
  destruct Hrest as (HS & Hi & Hsv).
  destruct high.
  - apply save_and_cli_inv in Hsave as [Hsaved Hi2].
    cbn [this mcu isr with_showBright] in *.
    assert (Hh : isr (this s0) = CLI_HIGH) by by apply Hhigh.
    split; [congruence|]. split; [|congruence].
    intros _. rewrite Hsv by congruence. congruence.
  - injection Hsave as <-. cbn [this mcu isr with_showBright sregSave] in *.
    split; [congruence|]. split; [|congruence].
    intros Hh. assert (false = true) by (apply Hhigh; congruence). done.
Qed.

(** [end()]: under the per-frame policy [SREG] gets the saved value back. *)
Lemma end_inv s u (s' : state) :
  end_ T s = Some (u, s') ->
  (isr (this s) = CLI_HIGH -> SREG (mcu s') = sregSave (this s)) /\
  (isr (this s) <> CLI_HIGH -> SREG (mcu s') = SREG (mcu s)).
Proof.
  unfold end_. intros H.
  apply bind_inv in H as (high & s0 & Hh & H).
  apply isr_is_inv in Hh as [-> Hhigh].
  apply bind_inv in H as ([] & s2 & Hrestore & H).
  assert (Hrest : quiet s2 s').
  { pose proof sendRaw_quiet.
    assert (Hq : respects (@quiet mData)
              (when (chip_is_APA102 T) (repeat_n 4 (sendRaw T 0)) ;;
               when (MLED_USE_SPI T) (update_mcu (emit SpiEndTransaction)))).
    { apply respects_bind; [apply _| |intros ?]; [auto with respects|].
      apply keeps_ctl_quiet. auto with respects. }
    exact (Hq _ _ _ H). }
  destruct Hrest as (HS & Hi & Hsv).
  destruct high.
  - apply restore_sreg_inv in Hrestore as (HS2 & Hi2 & Hsv2).
    split; [congruence|]. intros Hne. destruct Hne. by apply Hhigh.
  - injection Hrestore as <-. split; [|congruence].
    intros Hh. assert (false = true) by (by apply Hhigh). done.
Qed.

(** A frame: [begin()], streaming calls, [end()]. *)
Lemma frame_restores_SREG s u1 s1 s2 u2 (s' : state) :
  begin T s = Some (u1, s1) -> streaming s1 s2 ->
  end_ T s2 = Some (u2, s') ->
  SREG (mcu s') = SREG (mcu s).
Proof.
  intros Hb (HS & Hi & Hsv) He.
  apply begin_inv in Hb as (Hi1 & Hhigh & Hother).
  apply end_inv in He as (Hhigh' & Hother').
  destruct (isr (this s)) eqn:Hisr.
  1-3: rewrite Hother', HS, Hother; congruence.
  rewrite Hhigh', Hsv, Hhigh; congruence.
Qed.

(** What [show] runs between [begin()] and [end()]. *)
Lemma show_body_streaming :
  respects (@streaming mData)
    (ma ← gets (fun s => _maxCurrent (this s));
     when (negb (ma =? 0) && negb (amount T =? 0))
       (o ← gets this;
        b ← deref (correctBright T o (_bright o));
        update_this (with_showBright b)) ;;
     (if CHIP4COLOR T
      then for_each (seqZ 0 (amount T))
             (fun i =>
                o ← gets this;
                c ← deref (leds o !! Z.to_nat i);
                w ← deref (white o !! Z.to_nat i);
                send T c w)
      else for_each (seqZ 0 (amount T))
             (fun i =>
                o ← gets this;
                c ← deref (leds o !! Z.to_nat i);
                send T c 0))).
Proof.
  pose proof send_streaming.
  assert (forall b, respects (@streaming mData) (update_this (with_showBright b))).
  { intros b. apply respects_update_this. intros; by repeat split. }
  auto 30 with respects.
Qed.

End Interrupts.

(** ** Construction, addressing and output: the claims *)

Section Construction.
Context {mData : Type} `{CU : ColorUtility mData}.
Variable T : Template.
Local Abbreviation state := (@state mData).

Lemma microLED_matrix_geometry width height type conn dir s u (s' : state) :
  microLED_matrix T width height type conn dir s = Some (u, s') ->
  let o := this s' in
  _width o = to_uint8 width /\ _height o = to_uint8 height /\
  _matrixType o = to_uint8 type /\
  _matrixConfig o =
    to_uint8 (Z.lor (to_uint8 conn) (to_int (Z.shiftl (to_uint8 dir) 2))) /\
  matrix_object o.
Proof.
  unfold microLED_matrix. intros H.
  apply bind_inv in H as (sreg & s0 & H0 & H). injection H0 as <- <-.
  apply bind_inv in H as ([] & s1 & H1 & H). injection H1 as <-.
  apply bind_inv in H as ([] & s2 & H2 & H).
  apply init_keeps_geometry in H2. injection H2 as Hw Hh Hc Ht.
  cbn [this mcu _width _height _matrixConfig _matrixType initialised] in *.
  set (config := to_uint8 (Z.lor _ _)) in *.
  assert (Hu8 : forall z, is_uint8 (to_uint8 z)).
  { intros z. unfold is_uint8, to_uint8, to_unsigned.
    pose proof (Z.mod_pos_bound z (2 ^ 8) eq_refl). lia. }
  assert (Hgeo : forall W, 
    let o := with_matrixW W (this s2) in
    _width o = to_uint8 width /\ _height o = to_uint8 height /\
    _matrixType o = to_uint8 type /\ _matrixConfig o = config /\
    is_uint8 (_width o) /\ is_uint8 (_height o) /\ _matrixW o = W).
  { intros W. cbn. rewrite Hw, Hh. split_and!; auto. }
  destruct ((config =? 4) || (config =? 13) || (config =? 14) || (config =? 7))
    eqn:Hsw; unfold update_this in H; injection H as _ <-; cbn [this];
    match goal with
    | |- context [with_matrixW ?W _] =>
        destruct (Hgeo W) as (H1 & H2 & H3 & H4 & H5 & H6 & H7)
    end;
    (split_and!; [done..|]);
    (split_and!; [done..|]);
    unfold rowWidth, swaps_axes; rewrite H7, H4, Hsw; congruence.
Qed.

End Construction.

Section MatrixClaims.
Context {mData : Type} `{CU : ColorUtility mData}.
Variable T : Template.
Local Abbreviation state := (@state mData).

(** C4.  For a matrix built by the five-argument constructor with one of
    the eight configuration codes, serpentine or row-major, of any width
    and height: on 0 <= x < width, 0 <= y < height, getPixNumber takes
    values in [0, width*height), takes no value twice, and takes every
    value of that range. *)
Theorem getPixNumber_bijection width height type conn dir s u (s' : state) :
  microLED_matrix T width height type conn dir s = Some (u, s') ->
  supported (_matrixConfig (this s')) ->
  let o := this s' in
  _width o = to_uint8 width /\ _height o = to_uint8 height /\
  (forall x y, on_matrix o x y ->
     exists n, getPixNumber o x y = Some n /\ 0 <= n < _width o * _height o) /\
  (forall x y x' y', on_matrix o x y -> on_matrix o x' y' ->
     getPixNumber o x y = getPixNumber o x' y' -> x = x' /\ y = y') /\
  (forall n, 0 <= n < _width o * _height o ->
     exists x y, on_matrix o x y /\ getPixNumber o x y = Some n).
Proof.
  intros Hnew Hc o.
  destruct (microLED_matrix_geometry T _ _ _ _ _ _ _ _ Hnew)
    as (Hw & Hh & _ & _ & Hobj).
  split; [exact Hw|]. split; [exact Hh|].
  by apply getPixNumber_bijective.
Qed.


End MatrixClaims.

Section OutputClaims.
Context {mData : Type} `{CU : ColorUtility mData}.
Variable T : Template.
Local Abbreviation state := (@state mData).

(** C7.  Whatever the interrupt policy, SREG after a completed sendRaw,
    after a completed send, after a completed frame begin(); streaming
    calls; end(), and after a completed show() is SREG as it was when the
    call or the frame started. *)
Theorem interrupt_state_restored (s : state) :
  (forall data u s', sendRaw T data s = Some (u, s') ->
     SREG (mcu s') = SREG (mcu s)) /\
  (forall color thisWhite u s', send T color thisWhite s = Some (u, s') ->
     SREG (mcu s') = SREG (mcu s)) /\
  (forall ops u s',
     (begin T ;; run_stream T ops ;; end_ T) s = Some (u, s') ->
     SREG (mcu s') = SREG (mcu s)) /\
  (forall u s', show T s = Some (u, s') -> SREG (mcu s') = SREG (mcu s)).
Proof.
  split_and!.
  - intros data u s' H. by apply sendRaw_quiet in H as (? & _).
  - intros color w u s' H. by apply send_streaming in H as (? & _).
  - intros ops u s' H.
    apply bind_inv in H as (u1 & s1 & Hb & H).
    apply bind_inv in H as (u2 & s2 & Hops & He).
    eapply frame_restores_SREG; [exact Hb | | exact He].
    exact (run_stream_streaming T ops _ _ _ Hops).
  - intros u s' H. unfold show in H.
    apply bind_inv in H as (u1 & s1 & Hb & H).
    pose proof (show_body_streaming T) as Hbody.
    apply bind_inv in H as (ma & s1' & Hma & H).
    apply bind_inv in H as (u2 & s2 & Hlim & H).
    apply bind_inv in H as (u3 & s3 & Hloop & He).
    eapply frame_restores_SREG; [exact Hb | | exact He].
    eapply Hbody. cbv [mbind M_bind] in *. rewrite Hma, Hlim. exact Hloop.
Qed.

(** C9.  A completed show() leaves leds[], white[], _bright and
    _maxCurrent as they were. *)
Theorem show_read_only (s : state) u (s' : state) :
  show T s = Some (u, s') ->
  leds (this s') = leds (this s) /\ white (this s') = white (this s) /\
  _bright (this s') = _bright (this s) /\
  _maxCurrent (this s') = _maxCurrent (this s).
Proof.
  intros H.
  apply (show_keeps T user_state) in H; [|reflexivity..].
  injection H as H1 H2 H3 H4. done.
Qed.

End OutputClaims.

(** ** The current limiter *)

Section Limiter.
Context {mData : Type} `{CU : ColorUtility mData}.
Variable T : Template.
Hypothesis fades : fades_are_bytes mData.
Implicit Type o : microLED mData.

Lemma to_long_small z : -2147483648 <= z < 2147483648 -> to_long z = z.
Proof.
  intros H. unfold to_long, to_signed.
  change (2 ^ (32 - 1)) with 2147483648. change (2 ^ 32) with 4294967296.
  rewrite Z.mod_small; lia.
Qed.

Lemma to_int_small z : is_int z -> to_int z = z.
Proof.
  unfold is_int. intros H. unfold to_int, to_signed.
  change (2 ^ (16 - 1)) with 32768. change (2 ^ 16) with 65536.
  rewrite Z.mod_small; lia.
Qed.

Lemma channel_sum_bounds (l : list mData) bright :
  0 <= channel_sum l bright <= 765 * Z.of_nat (length l).
Proof.
  induction l as [|c l IH]; cbn [channel_sum foldr length]; [lia|].
  fold (channel_sum l bright). destruct (fades c bright) as (? & ? & ?). lia.
Qed.

Lemma sum_channels_ext o o' bright idx sum :
  leds o = leds o' ->
  sum_channels o bright idx sum = sum_channels o' bright idx sum.
Proof.
  intros H. revert sum. induction idx as [|i idx IH]; intros sum; [done|].
  cbn [sum_channels]. rewrite H. destruct (leds o' !! Z.to_nat i); [|done].
  cbn [mbind option_bind]. apply IH.
Qed.

(** The loop adds up the channels of the pixels it has not yet visited. *)
Lemma sum_channels_from o bright (l2 : list mData) : forall l1 sum,
  leds o = l1 ++ l2 -> 0 <= sum ->
  sum + 765 * Z.of_nat (length l2) < 2147483648 ->
  sum_channels o bright
    (seqZ (Z.of_nat (length l1)) (Z.of_nat (length l2))) sum =
  Some (sum + channel_sum l2 bright).
Proof.
  induction l2 as [|c l2 IH]; intros l1 sum Hl Hsum Hmax.
  - cbn. f_equal. lia.
  - rewrite seqZ_cons by (cbn [length]; lia). cbn [sum_channels].
    rewrite Nat2Z.id, Hl, list_lookup_middle by done.
    cbn [mbind option_bind].
    destruct (fades c bright) as (HR & HG & HB).
    pose proof (channel_sum_bounds l2 bright) as Hb.
    cbn [length] in Hmax. rewrite Nat2Z.inj_succ in Hmax.
    rewrite (to_long_small (sum + fade8R c bright)) by lia.
    rewrite (to_long_small (sum + fade8R c bright + fade8G c bright)) by lia.
    rewrite (to_long_small (_ + fade8B c bright)) by lia.
    replace (Z.succ (Z.of_nat (length l1)))
      with (Z.of_nat (length (l1 ++ [c]))) by (rewrite length_app; cbn; lia).
    replace (Z.pred (Z.of_nat (length (c :: l2))))
      with (Z.of_nat (length l2)) by (cbn [length]; lia).
    rewrite (IH (l1 ++ [c])); [| by rewrite <- app_assoc | lia | lia].
    f_equal. cbn [channel_sum foldr]. fold (channel_sum l2 bright). lia.
Qed.

Lemma sum_channels_all o bright :
  limiter_ready T o ->
  sum_channels o bright (seqZ 0 (amount T)) 0 =
  Some (channel_sum (leds o) bright).
Proof.
  intros (Hlen & Hn & _). rewrite <- Hlen.
  pose proof (sum_channels_from o bright (leds o) [] 0) as H.
  cbn [length] in H. change (Z.of_nat 0) with 0 in H.
  rewrite H; [done|done|lia|lia].
Qed.

Lemma active_bounds o bright :
  limiter_ready T o -> 0 <= active o bright < 2000000.
Proof.
  intros (Hlen & Hn & Hmax & _). unfold active.
  pose proof (channel_sum_bounds (leds o) bright) as Hs.
  rewrite Z.shiftr_div_pow2 by lia. change (2 ^ 8) with 256.
  assert (0 <= channel_sum (leds o) bright / 256 <= 98000).
  { split; [apply Z.div_pos; lia|]. apply Z.div_le_upper_bound; lia. }
  rewrite Z.quot_div_nonneg by nia.
  split; [apply Z.div_pos; nia|]. apply Z.div_lt_upper_bound; nia.
Qed.

Lemma idle_bounds o : limiter_ready T o -> 0 <= idle T o <= 65534.
Proof.
  intros (Hlen & Hn & _ & Hidle & _). unfold idle.
  rewrite Z.quot_div_nonneg by nia.
  split; [apply Z.div_pos; nia|]. apply Z.div_le_upper_bound; nia.
Qed.

(** [correctBright] with the wrap-arounds of [long] resolved; the idle
    current is stored in an [int]. *)
Lemma correctBright_unfold o bright :
  limiter_ready T o ->
  correctBright T o bright =
    if active o bright =? 0 then Some bright
    else if active o bright + to_int (idle T o) <? _maxCurrent o
    then Some bright
    else F32.to_uint8
           (F32.div
              (F32.mul (F32.of_Z (to_int (_maxCurrent o - to_int (idle T o))))
                       (F32.of_Z bright))
              (F32.of_Z (active o bright))).
Proof.
  intros Hready. unfold correctBright.
  rewrite sum_channels_all by done. cbn [mbind option_bind].
  pose proof (active_bounds o bright Hready) as Ha.
  pose proof (idle_bounds o Hready) as Hi.
  destruct Hready as (Hlen & Hn & Hmax & Hidle & Hbudget).
  pose proof (channel_sum_bounds (leds o) bright) as Hs.
  assert (Hsh : 0 <= Z.shiftr (channel_sum (leds o) bright) 8 <= 98000).
  { rewrite Z.shiftr_div_pow2 by lia. change (2 ^ 8) with 256.
    split; [apply Z.div_pos; lia|]. apply Z.div_le_upper_bound; lia. }
  rewrite (to_long_small (_ * oneLedMax o)) by nia.
  fold (active o bright). rewrite (to_long_small (active o bright)) by lia.
  rewrite (to_long_small (oneLedIdle o * amount T)) by nia.
  fold (idle T o).
  assert (Hint : is_int (to_int (idle T o))).
  { unfold is_int, to_int, to_signed.
    change (2 ^ (16 - 1)) with 32768. change (2 ^ 16) with 65536.
    pose proof (Z.mod_pos_bound (idle T o + 32768) 65536 eq_refl). lia. }
  unfold is_int in Hint.
  rewrite (to_long_small (active o bright + to_int (idle T o))) by lia.
  reflexivity.
Qed.

Lemma correctBright_view o o' bright :
  limiter_view o = limiter_view o' ->
  correctBright T o bright = correctBright T o' bright.
Proof.
  intros [= Hl Hmax Hidle Hb _]. unfold correctBright.
  rewrite (sum_channels_ext o o') by done. by rewrite Hmax, Hidle, Hb.
Qed.



(** What [correctBright] returns when the idle current and its
    difference to the budget fit an [int]: the rescaled brightness is the
    low byte of the quotient truncated towards zero. *)
Lemma correctBright_value o bright :
  limiter_ready T o -> is_uint8 bright ->
  idle T o <= 32767 -> is_int (_maxCurrent o - idle T o) ->
  correctBright T o bright =
    Some (if active o bright =? 0 then bright
          else if estimate T o bright <? _maxCurrent o then bright
          else ((_maxCurrent o - idle T o) * bright ÷ active o bright)
               mod 256).
Proof.
  intros Hready Hb Hidle Hdiff.
  rewrite correctBright_unfold by done.
  pose proof (active_bounds o bright Hready) as Ha.
  pose proof (idle_bounds o Hready) as Hi.
  rewrite (to_int_small (idle T o)) by (unfold is_int; lia).
  rewrite (to_int_small (_maxCurrent o - idle T o)) by done.
  unfold estimate.
  destruct (active o bright =? 0) eqn:H0; [done|].
  destruct (active o bright + idle T o <? _maxCurrent o); [done|].
  apply Z.eqb_neq in H0. unfold is_int, is_uint8 in *.
  apply f32_quotient; lia.
Qed.

(** A strip that draws no active current is left at the requested
    brightness, whatever the idle current. *)
Lemma correctBright_dark o bright :
  limiter_ready T o -> active o bright = 0 ->
  correctBright T o bright = Some bright.
Proof.
  intros Hready H0. rewrite correctBright_unfold by done.
  by rewrite H0.
Qed.

Lemma rescaled_bounds A B I bright :
  0 < A -> 0 <= bright -> I <= B -> B <= A + I ->
  0 <= (B - I) * bright / A <= bright /\
  (B - I) * bright / A * A <= (B - I) * bright /\
  (B < A + I -> 0 < bright -> (B - I) * bright / A < bright).
Proof.
  intros HA Hb HI HB.
  pose proof (Z.mul_div_le ((B - I) * bright) A HA) as Hle.
  split; [split|split].
  - apply Z.div_pos; nia.
  - apply Z.div_le_upper_bound; nia.
  - lia.
  - intros Hlt Hb0. apply Z.div_lt_upper_bound; nia.
Qed.

End Limiter.

Section ShowBrightness.
Context {mData : Type} `{CU : ColorUtility mData}.
Variable T : Template.
Local Abbreviation state := (@state mData).

(** The brightness a completed [show()] leaves in [_showBright]. *)
Lemma show_showBright (s : state) u (s' : state) :
  show T s = Some (u, s') ->
  if negb (_maxCurrent (this s) =? 0) && negb (amount T =? 0)
  then correctBright T (this s) (_bright (this s)) =
         Some (_showBright (this s'))
  else _showBright (this s') = _bright (this s).
Proof.
  unfold show. intros H.
  apply bind_inv in H as (u1 & s1 & Hb & H).
  apply bind_inv in H as (ma & s1' & Hma & H). injection Hma as <- <-.
  apply bind_inv in H as (u2 & s2 & Hlim & H).
  apply bind_inv in H as (u3 & s3 & Hloop & He).
  (* [begin] sets _showBright from _bright and keeps what the limiter reads *)
  assert (Hview : limiter_view (this s1) = limiter_view (this s)).
  { apply (begin_keeps T limiter_view) in Hb; [exact Hb|reflexivity..]. }
  assert (Hsb1 : _showBright (this s1) = _bright (this s1)).
  { revert Hb. unfold begin. intros Hb.
    apply bind_inv in Hb as (? & s0 & _ & Hb).
    apply bind_inv in Hb as (? & s0' & H0 & Hb). injection H0 as _ <-.
    assert (Hk : keeps (of_object (fun o : microLED mData =>
                                     (_showBright o, _bright o)))
                   (high ← isr_is CLI_HIGH;
                    when high save_and_cli ;;
                    when (MLED_USE_SPI T)
                      (update_mcu (emit SpiBeginTransaction)) ;;
                    when (chip_is_APA102 T) (repeat_n 4 (sendRaw T 0)))).
    { pose proof (save_and_cli_keeps
                    (fun o : microLED mData => (_showBright o, _bright o))
                    (fun _ _ => eq_refl)).
      pose proof (sendRaw_keeps T
                    (fun o : microLED mData => (_showBright o, _bright o))
                    (fun _ _ => eq_refl)).
      auto 30 with respects. }
    apply Hk in Hb. injection Hb as -> ->. reflexivity. }
  (* the loops and [end] keep _showBright *)
  assert (Hrest : _showBright (this s') = _showBright (this s2)).
  { assert (Hk : keeps (of_object (@_showBright mData))
                   ((if CHIP4COLOR T
                     then for_each (seqZ 0 (amount T))
                            (fun i =>
                               o ← gets this;
                               c ← deref (leds o !! Z.to_nat i);
                               w ← deref (white o !! Z.to_nat i);
                               send T c w)
                     else for_each (seqZ 0 (amount T))
                            (fun i =>
                               o ← gets this;
                               c ← deref (leds o !! Z.to_nat i);
                               send T c 0)) ;;
                    end_ T)).
    { pose proof (send_keeps T (@_showBright mData) (fun _ _ => eq_refl)).
      pose proof (end_keeps T (@_showBright mData) (fun _ _ => eq_refl)).
      auto 30 with respects. }
    eapply Hk. cbv [mbind M_bind] in *. rewrite Hloop. exact He. }
  injection Hview as Hl Hmax Hidle Hbud Hbr.
  rewrite <- Hbud.
  destruct (negb (_maxCurrent (this s1) =? 0) && negb (amount T =? 0));
    cbn [when] in Hlim.
  - apply bind_inv in Hlim as (o & s1' & Ho & Hlim). injection Ho as <- <-.
    apply bind_inv in Hlim as (b & s1' & Hcb & Hlim).
    unfold update_this in Hlim. injection Hlim as _ <-.
    rewrite Hrest. cbn [this _showBright with_showBright].
    destruct (correctBright T (this s1) (_bright (this s1))) as [b'|] eqn:E;
      [|discriminate].
    injection Hcb as -> <-.
    rewrite <- Hbr, <- E. apply correctBright_view.
    unfold limiter_view. congruence.
  - injection Hlim as _ <-. congruence.
Qed.

End ShowBrightness.

Section LimiterClaims.
Context {mData : Type} `{CU : ColorUtility mData}.
Variable T : Template.

Lemma rescaled_quot A B I bright :
  0 < A -> 0 <= bright <= 255 -> I <= B -> B <= A + I ->
  (B - I) * bright ÷ A = (B - I) * bright / A /\
  ((B - I) * bright ÷ A) mod 256 = (B - I) * bright / A /\
  clamp 0 255 ((B - I) * bright ÷ A) = (B - I) * bright / A.
Proof.
  intros HA Hb HI HB.
  destruct (rescaled_bounds A B I bright) as (Hr & _); [lia..|].
  assert (Hq : (B - I) * bright ÷ A = (B - I) * bright / A)
    by (apply Z.quot_div_nonneg; nia).
  rewrite Hq. split; [done|]. split.
  - apply Z.mod_small. lia.
  - unfold clamp. rewrite Z.min_r, Z.max_r by lia. done.
Qed.

(** Where nothing is lit, or the budget covers the idle current, the
    code returns what the stated postcondition gives: there the rescaled
    value lies in [0, requested] and the missing clamp does not show. *)
Lemma correctBright_meets_spec (o : microLED mData) (bright : Z) :
  fades_are_bytes mData -> limiter_ready T o -> is_uint8 bright ->
  active o bright = 0 \/ idle T o <= _maxCurrent o ->
  correctBright T o bright = Some (correctBright_spec T o bright).
Proof.
  intros Hf Hready Hb Hcase.
  pose proof (active_bounds T Hf o bright Hready) as Ha.
  pose proof (idle_bounds T o Hready) as Hi.
  destruct (Z.eq_dec (active o bright) 0) as [H0|H0].
  { rewrite correctBright_dark by done. unfold correctBright_spec.
    by rewrite H0. }
  destruct Hcase as [|Hidle]; [done|].
  pose proof Hready as (_ & _ & _ & _ & Hbudget).
  unfold is_int, is_uint8 in *.
  rewrite correctBright_value by (done || (unfold is_int; lia)).
  f_equal. unfold correctBright_spec, estimate.
  destruct (Z.eqb_spec (active o bright) 0) as [|_]; [done|].
  destruct (Z.ltb_spec (active o bright + idle T o) (_maxCurrent o)) as [Hlt|Hge].
  { destruct (Z.leb_spec (active o bright + idle T o) (_maxCurrent o)); [done|lia]. }
  destruct (rescaled_quot (active o bright) (_maxCurrent o) (idle T o) bright)
    as (Hq & Hmod & Hclamp); [lia..|].
  rewrite Hmod.
  destruct (Z.leb_spec (active o bright + idle T o) (_maxCurrent o)) as [Hle|Hgt];
    [|by rewrite Hclamp].
  replace (_maxCurrent o - idle T o) with (active o bright) by lia.
  rewrite Z.mul_comm. apply Z.div_mul. lia.
Qed.

(** Under a budget below the idle current the rescaled value is negative:
    the stated postcondition clamps it to 0, the code returns the low byte
    of the truncated quotient. *)
Lemma correctBright_wraps (o : microLED mData) (bright : Z) :
  fades_are_bytes mData -> limiter_ready T o -> is_uint8 bright ->
  active o bright <> 0 ->
  0 <= _maxCurrent o < idle T o -> idle T o <= 32767 ->
  correctBright_spec T o bright = 0 /\
  correctBright T o bright =
    Some (((_maxCurrent o - idle T o) * bright ÷ active o bright) mod 256).
Proof.
  intros Hf Hready Hb H0 Hbudget Hidle.
  pose proof (active_bounds T Hf o bright Hready) as Ha.
  unfold is_uint8 in Hb.
  split.
  - unfold correctBright_spec, estimate.
    destruct (Z.eqb_spec (active o bright) 0) as [|_]; [done|].
    destruct (Z.leb_spec (active o bright + idle T o) (_maxCurrent o)); [lia|].
    assert ((_maxCurrent o - idle T o) * bright ÷ active o bright <= 0).
    { replace ((_maxCurrent o - idle T o) * bright)
        with (- ((idle T o - _maxCurrent o) * bright)) by ring.
      rewrite Z.quot_opp_l by lia.
      assert (0 <= (idle T o - _maxCurrent o) * bright ÷ active o bright)
        by (apply Z.quot_pos; nia).
      lia. }
    unfold clamp. lia.
  - rewrite correctBright_value by (done || (unfold is_int; lia)).
    f_equal. unfold estimate.
    destruct (Z.eqb_spec (active o bright) 0) as [|_]; [done|].
    destruct (Z.ltb_spec (active o bright + idle T o) (_maxCurrent o)); [lia|].
    done.
Qed.

(** C3, amended.  For every buffer and requested brightness, and every
    budget that is at least the idle current: correctBright returns a
    brightness b' <= requested with
    b' * active <= (budget - idle) * requested, that is, the active
    estimate scaled linearly by b'/requested plus the idle current is
    within the budget; and when the estimate at the requested brightness
    exceeds the budget, as for an all-white buffer under a budget below
    the full-white estimate, b' and the brightness a completed show()
    uses are strictly less than the requested brightness. *)
Theorem correctBright_linear_budget (o : microLED mData) (bright : Z) :
  fades_are_bytes mData -> limiter_ready T o -> is_uint8 bright ->
  idle T o <= _maxCurrent o ->
  exists b',
    correctBright T o bright = Some b' /\ 0 <= b' <= bright /\
    b' * active o bright <= (_maxCurrent o - idle T o) * bright /\
    (_maxCurrent o < estimate T o bright -> 0 < bright ->
     b' < bright /\
     forall s u s',
       show T s = Some (u, s') -> this s = o -> _bright o = bright ->
       0 < _maxCurrent o -> _showBright (this s') < _bright (this s)).
Proof.
  intros Hf Hready Hb Hidle.
  pose proof (active_bounds T Hf o bright Hready) as Ha.
  pose proof (idle_bounds T o Hready) as Hi.
  pose proof (correctBright_meets_spec o bright Hf Hready Hb (or_intror Hidle))
    as Hcb.
  unfold is_uint8 in Hb.
  exists (correctBright_spec T o bright). split; [exact Hcb|].
  unfold correctBright_spec in *. unfold estimate in *.
  destruct (Z.eqb_spec (active o bright) 0) as [H0|H0].
  { split; [lia|]. split; [nia|]. lia. }
  destruct (Z.leb_spec (active o bright + idle T o) (_maxCurrent o)) as [Hle|Hgt].
  { split; [lia|]. split; [nia|lia]. }
  destruct (rescaled_quot (active o bright) (_maxCurrent o) (idle T o) bright)
    as (_ & _ & Hclamp); [lia..|].
  destruct (rescaled_bounds (active o bright) (_maxCurrent o) (idle T o) bright)
    as (Hr & Hmul & Hstrict); [lia..|].
  rewrite Hclamp in *.
  split; [exact Hr|]. split; [exact Hmul|].
  intros Hover Hb0.
  split; [apply Hstrict; lia|].
  intros s u s' Hshow Hs Hbr Hbud. subst o.
  apply show_showBright in Hshow.
  destruct Hready as (Hlen & Hn & _).
  assert (Hamount : amount T <> 0).
  { intros Hz. unfold active, channel_sum in H0.
    rewrite Hz in Hlen. destruct (leds (this s)); [|cbn in Hlen; lia].
    cbn in H0. by rewrite Z.shiftr_0_l in H0. }
  destruct (Z.eqb_spec (_maxCurrent (this s)) 0); [lia|].
  destruct (Z.eqb_spec (amount T) 0); [done|]. cbn [negb andb] in Hshow.
  rewrite Hbr, Hcb in Hshow. injection Hshow as <-.
  rewrite Hbr. apply Hstrict; lia.
Qed.

End LimiterClaims.

(** ** Concrete runs *)

Import Examples.

Lemma fade8_linear_byte x f : 0 <= fade8_linear x f <= 255.
Proof.
  unfold fade8_linear, to_uint8, to_unsigned. change (2 ^ 8) with 256.
  pose proof (Z.mod_pos_bound x 256 eq_refl).
  pose proof (Z.mod_pos_bound f 256 eq_refl).
  rewrite Z.shiftr_div_pow2 by lia. change (2 ^ 8) with 256.
  split; [apply Z.div_pos; nia|]. apply Z.div_le_upper_bound; nia.
Qed.

Lemma rgb24_fades : fades_are_bytes mData.
Proof. intros c f. repeat split; apply fade8_linear_byte. Qed.

Section Guard.
Context {mData : Type} `{CU : ColorUtility mData}.
Variable T : Template.

Lemma set_xy_outside (o : microLED mData) x y color :
  x < 0 \/ y < 0 \/ _width o <= x \/ _height o <= y ->
  set_xy T o x y color = Stored o.
Proof.
  intros H. unfold set_xy.
  replace ((to_int (x * y) >=? amount T) || (x <? 0) || (y <? 0)
           || (x >=? _width o) || (y >=? _height o)) with true; [done|].
  symmetry. rewrite !orb_true_iff.
  rewrite !Z.ltb_lt, !Z.geb_le. tauto.
Qed.

Lemma set_xy_inside (o : microLED mData) x y color :
  matrix_object o -> supported (_matrixConfig o) -> on_matrix o x y ->
  _width o * _height o <= amount T ->
  exists n, getPixNumber o x y = Some n /\ 0 <= n < amount T /\
    set_xy T o x y color =
      Stored (with_leds (<[Z.to_nat n := color]> (leds o)) o).
Proof.
  intros Hobj Hc Hxy Hcap.
  destruct (getPixNumber_bijective o Hobj Hc) as (Hrange & _ & _).
  destruct (Hrange x y Hxy) as (n & Hn & Hlt).
  exists n. split; [done|]. split; [lia|].
  unfold set_xy. rewrite Hn.
  destruct Hobj as (Hw & Hh & _). destruct Hxy as [Hx Hy].
  unfold is_uint8 in *.
  assert (Hprod : to_int (x * y) < amount T).
  { unfold to_int, to_signed.
    change (2 ^ (16 - 1)) with 32768. change (2 ^ 16) with 65536.
    assert (0 <= x * y < _width o * _height o) by nia.
    destruct (Z_lt_le_dec (x * y) 32768).
    - rewrite Z.mod_small by lia. lia.
    - assert (x * y < 65536) by nia.
      replace (x * y + 32768) with (x * y - 32768 + 1 * 65536) by lia.
      rewrite Z.mod_add, Z.mod_small by lia. lia. }
  replace ((to_int (x * y) >=? amount T) || (x <? 0) || (y <? 0)
           || (x >=? _width o) || (y >=? _height o)) with false.
  - replace (n <? amount T) with true by (symmetry; apply Z.ltb_lt; lia).
    reflexivity.
  - symmetry. rewrite !orb_false_iff, !Z.ltb_ge.
    repeat split; try lia;
      match goal with
      | |- (?a >=? ?b) = false =>
          rewrite Z.geb_leb; apply Z.leb_gt; lia
      end.
Qed.

End Guard.

(** C1.  The guard of the two-dimensional set tests x * y against the
    capacity, not the index: coordinates off the matrix are ignored, and
    so is every store when width * height <= amount, but on a 10 x 3
    matrix declared over a 10-pixel buffer set(0, 2, colour) passes the
    guard and stores at leds[20]. *)
Theorem set_xy_capacity_guard :
  (forall T (o : microLED mData) x y color,
     x < 0 \/ y < 0 \/ _width o <= x \/ _height o <= y ->
     set_xy T o x y color = Stored o) /\
  (forall T (o : microLED mData) x y color,
     matrix_object o -> supported (_matrixConfig o) -> on_matrix o x y ->
     _width o * _height o <= amount T ->
     exists n, getPixNumber o x y = Some n /\ 0 <= n < amount T /\
       set_xy T o x y color =
         Stored (with_leds (<[Z.to_nat n := color]> (leds o)) o)) /\
  (let o := this (matrix_10x3 10) in
   _width o = 10 /\ _height o = 3 /\ amount T10 = 10 /\
   length (leds o) = 10%nat /\
   getPixNumber o 0 2 = Some 20 /\
   set_xy T10 o 0 2 mRed = OutOfBounds 20).
Proof.
  split; [|split].
  - intros. by apply set_xy_outside.
  - intros. by apply set_xy_inside.
  - vm_compute. repeat split.
Qed.

Lemma white4_ready budget : is_int budget -> limiter_ready T4 (this (white4 budget)).
Proof.
  intros H. unfold limiter_ready.
  split; [reflexivity|]. split; [by vm_compute|].
  split; [by vm_compute|]. split; [by vm_compute|]. exact H.
Qed.

(** C2.  correctBright rescales without the clamp the postcondition
    states.  Where nothing is lit, or the budget is at least the idle
    current, the rescaled value lies in [0, requested] and the code
    returns what the postcondition gives.  Under a budget below the idle
    current the quotient is negative and the code returns its low byte
    where the postcondition gives 0: on four white pixels of a WS2811
    strip (idle current 8 mA) under a budget of 5 mA, 251 for the
    brightness 50 of a new strip, 252 for a requested brightness of 100
    and for one of 255. *)
Theorem correctBright_missing_clamp :
  (forall (pixel : Type) (CU : ColorUtility pixel) T (o : microLED pixel)
          bright,
     fades_are_bytes pixel -> limiter_ready T o -> is_uint8 bright ->
     active o bright = 0 \/ idle T o <= _maxCurrent o ->
     correctBright T o bright = Some (correctBright_spec T o bright)) /\
  (forall (pixel : Type) (CU : ColorUtility pixel) T (o : microLED pixel)
          bright,
     fades_are_bytes pixel -> limiter_ready T o -> is_uint8 bright ->
     active o bright <> 0 ->
     0 <= _maxCurrent o < idle T o -> idle T o <= 32767 ->
     correctBright_spec T o bright = 0 /\
     correctBright T o bright =
       Some (((_maxCurrent o - idle T o) * bright ÷ active o bright)
             mod 256)) /\
  (let o := this (white4 5) in
   limiter_ready T4 o /\ idle T4 o = 8 /\ _maxCurrent o = 5 /\
   _bright o = 50 /\
   active o 50 = 30 /\ active o 100 = 61 /\ active o 255 = 168 /\
   correctBright_spec T4 o 50 = 0 /\ correctBright T4 o 50 = Some 251 /\
   correctBright_spec T4 o 100 = 0 /\ correctBright T4 o 100 = Some 252 /\
   correctBright_spec T4 o 255 = 0 /\ correctBright T4 o 255 = Some 252).
Proof.
  split; [|split].
  - intros. by apply correctBright_meets_spec.
  - intros. by apply correctBright_wraps.
  - cbv zeta. split; [apply white4_ready; unfold is_int; lia|].
    repeat split; vm_compute; reflexivity.
Qed.

(** C3: the re-estimate exceeds the budget.  One pixel (255, 255, 1),
    budget 16 mA, requested 255: the limiter returns 238, and the
    estimate at 238 is 15 + 2 = 17 mA.  Four black pixels, budget 5 mA:
    the limiter returns the requested 255, and the estimate is the idle
    current, 8 mA.  Four white pixels at the brightness 50 of a new
    strip, budget 5 mA, below the full-white estimate of 38 mA: the
    limiter returns 251, and a completed show() transmits at 251. *)
Lemma correctBright_estimate_over_budget :
  (let o := this (pixel1 16) in
   0 < _maxCurrent o /\ idle T1 o <= _maxCurrent o /\
   correctBright T1 o 255 = Some 238 /\
   estimate T1 o 238 = 17 /\ ~ estimate T1 o 238 <= _maxCurrent o) /\
  (let o := this (black4 5) in
   0 < _maxCurrent o /\
   correctBright T4 o 255 = Some 255 /\
   estimate T4 o 255 = 8 /\ ~ estimate T4 o 255 <= _maxCurrent o) /\
  (let s := white4 5 in
   let o := this s in
   0 < _maxCurrent o /\ _bright o = 50 /\
   _maxCurrent o < estimate T4 o 50 /\
   correctBright T4 o 50 = Some 251 /\
   (exists s', show T4 s = Some (tt, s') /\ _showBright (this s') = 251) /\
   ~ 251 < _bright o).
Proof.
  cbv zeta. repeat split;
    first [ vm_compute; reflexivity
          | vm_compute; discriminate
          | vm_compute; intros H; apply H; reflexivity
          | eexists; split; vm_compute; reflexivity ].
Qed.

Lemma correctBright_linear_budget_witness :
  let s := white4 20 in
  limiter_ready T4 (this s) /\ idle T4 (this s) <= _maxCurrent (this s) /\
  _maxCurrent (this s) < estimate T4 (this s) (_bright (this s)) /\
  exists b',
    correctBright T4 (this s) 50 = Some b' /\ 0 <= b' <= 50 /\
    b' * active (this s) 50 <= (_maxCurrent (this s) - idle T4 (this s)) * 50 /\
    b' < 50 /\
    _showBright (this (after (show T4) s)) < _bright (this s).
Proof.
  assert (Hready : limiter_ready T4 (this (white4 20)))
    by (apply white4_ready; unfold is_int; lia).
  assert (Hb : is_uint8 50) by (unfold is_uint8; lia).
  assert (Hidle : idle T4 (this (white4 20)) <= _maxCurrent (this (white4 20)))
    by (vm_compute; discriminate).
  assert (Hover : _maxCurrent (this (white4 20))
                  < estimate T4 (this (white4 20)) 50) by reflexivity.
  assert (Hshow : show T4 (white4 20) = Some (tt, after (show T4) (white4 20)))
    by (vm_compute; reflexivity).
  split; [exact Hready|]. split; [exact Hidle|]. split; [exact Hover|].
  destruct (correctBright_linear_budget T4 (this (white4 20)) 50
              rgb24_fades Hready Hb Hidle)
    as (b' & Hcb & Hrange & Hlin & Hstrict).
  exists b'. split; [exact Hcb|]. split; [exact Hrange|]. split; [exact Hlin|].
  destruct (Hstrict Hover ltac:(lia)) as [Hlt Hs].
  split; [exact Hlt|].
  exact (Hs (white4 20) tt _ Hshow eq_refl eq_refl ltac:(reflexivity)).
Defined.

Lemma show_read_only_witness :
  let s := white4 20 in
  show T4 s = Some (tt, after (show T4) s) /\
  leds (this (after (show T4) s)) = leds (this s) /\
  white (this (after (show T4) s)) = white (this s) /\
  _bright (this (after (show T4) s)) = _bright (this s) /\
  _maxCurrent (this (after (show T4) s)) = _maxCurrent (this s).
Proof.
  assert (Hshow : show T4 (white4 20) = Some (tt, after (show T4) (white4 20)))
    by (vm_compute; reflexivity).
  split; [exact Hshow|].
  exact (show_read_only T4 (white4 20) tt _ Hshow).
Defined.

Lemma matrix_10x3_built :
  microLED_matrix T30 10 3 0 0 0 (power_on (replicate 30 mBlack)) =
  Some (tt, matrix_10x3 30).
Proof. vm_compute. reflexivity. Qed.

Lemma getPixNumber_bijection_witness :
  let o := this (matrix_10x3 30) in
  supported (_matrixConfig o) /\
  _width o = 10 /\ _height o = 3 /\
  (forall x y, on_matrix o x y ->
     exists n, getPixNumber o x y = Some n /\ 0 <= n < _width o * _height o) /\
  (forall x y x' y', on_matrix o x y -> on_matrix o x' y' ->
     getPixNumber o x y = getPixNumber o x' y' -> x = x' /\ y = y') /\
  (forall n, 0 <= n < _width o * _height o ->
     exists x y, on_matrix o x y /\ getPixNumber o x y = Some n).
Proof.
  assert (Hc : supported (_matrixConfig (this (matrix_10x3 30))))
    by (left; reflexivity).
  split; [exact Hc|].
  exact (getPixNumber_bijection T30 10 3 0 0 0 _ tt _ matrix_10x3_built Hc).
Defined.




(** * The rest of the two libraries *)

Import Buffer.

(** ** The pixel buffer *)

Section StoreLoops.
Context {A B : Type}.
Implicit Types (l : list A) (idx : list B).

Lemma insert_loop_length (g : B -> nat) (f : B -> A) idx l :
  length (foldl (fun l i => <[g i := f i]> l) l idx) = length l.
Proof.
  revert l. induction idx as [|i idx IH]; intros l; simpl; [done|].
  by rewrite IH, length_insert.
Qed.

Lemma insert_loop_untouched (g : B -> nat) (f : B -> A) idx l j :
  (forall i, i ∈ idx -> g i <> j) ->
  foldl (fun l i => <[g i := f i]> l) l idx !! j = l !! j.
Proof.
  revert l. induction idx as [|i idx IH]; intros l H; simpl; [done|].
  rewrite IH by (intros i' Hi'; apply H; by right).
  apply list_lookup_insert_ne, H. by left.
Qed.

Lemma insert_loop_last (g : B -> nat) (f : B -> A) pre i post l :
  (forall i', i' ∈ post -> g i' <> g i) -> (g i < length l)%nat ->
  foldl (fun l i => <[g i := f i]> l) l (pre ++ i :: post) !! g i
  = Some (f i).
Proof.
  intros Hpost Hlen. rewrite foldl_app. simpl.
  rewrite insert_loop_untouched by done.
  apply list_lookup_insert_eq. by rewrite insert_loop_length.
Qed.

(** Every store of the same value: the last one need not be singled out. *)
Lemma insert_loop_const (g : B -> nat) (c : A) idx l i :
  i ∈ idx -> (g i < length l)%nat ->
  foldl (fun l i => <[g i := c]> l) l idx !! g i = Some c.
Proof.
  revert l. induction idx as [|i' idx IH] using rev_ind; intros l Hi Hlen.
  { by apply elem_of_nil in Hi. }
  rewrite foldl_snoc.
  destruct (decide (g i' = g i)) as [Heq|Hne].
  - rewrite Heq. apply list_lookup_insert_eq. by rewrite insert_loop_length.
  - rewrite list_lookup_insert_ne by done.
    apply IH; [|done].
    apply elem_of_app in Hi as [Hi|Hi]; [done|].
    apply list_elem_of_singleton in Hi. congruence.
Qed.


(** Stores that agree on the value put at [j]. *)
Lemma insert_loop_same (g : B -> nat) (f : B -> A) idx l j v :
  (forall i, i ∈ idx -> g i = j -> f i = v) ->
  (exists i, i ∈ idx /\ g i = j) -> (j < length l)%nat ->
  foldl (fun l i => <[g i := f i]> l) l idx !! j = Some v.
Proof.
  revert l. induction idx as [|i' idx IH] using rev_ind;
    intros l Hval (i & Hi & Hg) Hlen.
  { by apply elem_of_nil in Hi. }
  rewrite foldl_snoc.
  destruct (decide (g i' = j)) as [Heq|Hne].
  - rewrite Heq, <- (Hval i'); [|apply elem_of_app; right; by left|done].
    apply list_lookup_insert_eq. by rewrite insert_loop_length.
  - rewrite list_lookup_insert_ne by done.
    apply IH; [|exists i; split|]; try done.
    + intros i0 Hi0. apply Hval, elem_of_app. by left.
    + apply elem_of_app in Hi as [Hi|Hi]; [done|].
      apply list_elem_of_singleton in Hi. congruence.
Qed.

End StoreLoops.

Section BufferFacts.
Context {mData : Type}.
Variable T : Template.
Implicit Types (o : microLED mData) (c : mData).

Lemma fill_leds o c :
  Z.of_nat (length (leds o)) = amount T ->
  leds (fill T o c) = replicate (length (leds o)) c.
Proof.
  intros Hlen. unfold fill. simpl.
  apply list_eq. intros j.
  destruct (decide (j < length (leds o))%nat) as [Hj|Hj].
  - rewrite lookup_replicate_2 by done.
    replace j with (Z.to_nat (Z.of_nat j)) at 1 by lia.
    apply (insert_loop_const (fun i => Z.to_nat i) c).
    + apply elem_of_seqZ. lia.
    + lia.
  - rewrite (proj1 (lookup_replicate_None _ _ _)) by lia.
    apply lookup_ge_None. rewrite insert_loop_length. lia.
Qed.


Lemma with_leds_twice (l l' : list mData) o :
  with_leds l' (with_leds l o) = with_leds l' o.
Proof. reflexivity. Qed.

Lemma set_n_inv o n c o' :
  set_n T o n c = Some o' ->
  0 <= n < amount T /\ o' = with_leds (<[Z.to_nat n := c]> (leds o)) o.
Proof.
  unfold set_n. intros H.
  destruct (Z.leb_spec 0 n), (Z.ltb_spec n (amount T)); simpl in H;
    try discriminate.
  injection H as <-. split; [lia|done].
Qed.

Lemma store_loop_run (f : Z -> mData) idx o :
  0 < amount T -> (forall i, i ∈ idx -> 0 <= i) ->
  foldl (fun acc i => o' ← acc; n ← wrap_index T i; set_n T o' n (f i))
        (Some o) idx
  = Some (with_leds
            (foldl (fun l i => <[Z.to_nat (i mod amount T) := f i]> l)
                   (leds o) idx) o).
Proof.
  intros Hpos. revert o. induction idx as [|i idx IH]; intros o Hidx.
  { by destruct o. }
  simpl. unfold wrap_index at 2.
  replace (amount T =? 0) with false by (symmetry; apply Z.eqb_neq; lia).
  simpl. assert (Hi : 0 <= i) by (apply Hidx; by left).
  rewrite Z.rem_mod_nonneg by lia.
  pose proof (Z.mod_pos_bound i (amount T) Hpos) as Hb.
  unfold set_n at 2.
  replace (0 <=? i mod amount T) with true by (symmetry; apply Z.leb_le; lia).
  replace (i mod amount T <? amount T) with true
    by (symmetry; apply Z.ltb_lt; lia).
  simpl. rewrite IH by (intros i' Hi'; apply Hidx; by right).
  reflexivity.
Qed.

Lemma mod_shift_exists A from to n :
  0 < A -> 0 <= n < A -> A <= to - from + 1 ->
  exists i, from <= i <= to /\ i mod A = n.
Proof.
  intros HA Hn Hspan. exists (from + (n - from) mod A).
  pose proof (Z.mod_pos_bound (n - from) A HA).
  split; [lia|].
  rewrite Zplus_mod_idemp_r. replace (from + (n - from)) with n by lia.
  apply Z.mod_small. lia.
Qed.

Lemma fill_range_run o from to c :
  0 <= from -> to < 32767 -> 0 < amount T ->
  fill_range T o from to c =
    Some (with_leds
            (foldl (fun l i => <[Z.to_nat (i mod amount T) := c]> l)
                   (leds o) (seqZ from (to - from + 1))) o).
Proof.
  intros Hfrom Hto Hpos. unfold fill_range.
  replace (to =? 32767) with false by (symmetry; apply Z.eqb_neq; lia).
  rewrite andb_false_r.
  apply (store_loop_run (fun _ => c)); [done|].
  intros i Hi. apply elem_of_seqZ in Hi. lia.
Qed.

End BufferFacts.

Section BufferTheorems.
Context {mData : Type}.
Variable T : Template.
Implicit Types (o : microLED mData) (c : mData).

Lemma get_n_with_leds o (l : list mData) n :
  0 <= n -> get_n (with_leds l o) n = l !! Z.to_nat n.
Proof.
  intros Hn. unfold get_n.
  replace (n <? 0) with false by (symmetry; apply Z.ltb_ge; lia). done.
Qed.

Lemma get_n_leds o n : 0 <= n -> get_n o n = leds o !! Z.to_nat n.
Proof.
  intros Hn. unfold get_n.
  replace (n <? 0) with false by (symmetry; apply Z.ltb_ge; lia). done.
Qed.

Lemma seqZ_split m n k :
  0 <= k < n ->
  seqZ m n = seqZ m k ++ (m + k) :: seqZ (m + k + 1) (n - k - 1).
Proof.
  intros Hk. replace n with (k + (n - k)) at 1 by lia.
  rewrite seqZ_app by lia. f_equal.
  rewrite seqZ_cons by lia. unfold Z.succ, Z.pred.
  replace (n - k - 1) with (n - k + -1) by lia. done.
Qed.

Lemma mod_apart A i i' :
  0 < A -> i < i' < i + A -> i' mod A <> i mod A.
Proof.
  intros HA Hi Heq.
  assert (H : (i' - i) mod A = 0).
  { rewrite Zminus_mod, Heq, Z.sub_diag. apply Z.mod_0_l. lia. }
  rewrite Z.mod_small in H by lia. lia.
Qed.

(** X1.  Inside the array a store by [set(n, color)] is read back by
    [get(n)], every other pixel reads as before, and nothing but [leds]
    changes. *)
Theorem set_n_get_n o n c :
  Z.of_nat (length (leds o)) = amount T -> 0 <= n < amount T ->
  exists o', set_n T o n c = Some o' /\
    get_n o' n = Some c /\
    (forall m, m <> n -> get_n o' m = get_n o m) /\
    o' = with_leds (leds o') o.
Proof.
  intros Hlen Hn. unfold set_n.
  replace (0 <=? n) with true by (symmetry; apply Z.leb_le; lia).
  replace (n <? amount T) with true by (symmetry; apply Z.ltb_lt; lia).
  eexists. split; [reflexivity|]. split; [|split; [|done]].
  - rewrite get_n_with_leds by lia. apply list_lookup_insert_eq. lia.
  - intros m Hm. unfold get_n. destruct (m <? 0) eqn:Hneg; [done|].
    apply Z.ltb_ge in Hneg. simpl. apply list_lookup_insert_ne. lia.
Qed.

(** X2.  [fill(color)] on a buffer of [amount] pixels leaves every pixel
    at [color] and changes nothing else. *)
Theorem fill_every_pixel o c :
  Z.of_nat (length (leds o)) = amount T ->
  fill T o c = with_leds (replicate (Z.to_nat (amount T)) c) o /\
  forall n, 0 <= n < amount T -> get_n (fill T o c) n = Some c.
Proof.
  intros Hlen.
  assert (Hl : leds (fill T o c) = replicate (Z.to_nat (amount T)) c).
  { rewrite fill_leds by done. f_equal. lia. }
  split.
  - unfold fill in *. simpl in Hl. by rewrite Hl.
  - intros n Hn. rewrite get_n_leds, Hl by lia.
    apply lookup_replicate_2. lia.
Qed.

(** X3.  [fill(from, to, color)] with 0 <= from and to < 32767 completes;
    it colours exactly the pixels [i mod amount] for from <= i <= to, so
    the range wraps around the end of the strip, a range of [amount] or
    more indices colours the whole strip, and an empty range colours
    nothing. *)
Theorem fill_range_wraps o from to c :
  0 <= from -> to < 32767 ->
  0 < amount T -> Z.of_nat (length (leds o)) = amount T ->
  exists o', fill_range T o from to c = Some o' /\
    o' = with_leds (leds o') o /\
    (forall i, from <= i <= to -> get_n o' (i mod amount T) = Some c) /\
    (forall n, 0 <= n ->
       (forall i, from <= i <= to -> i mod amount T <> n) ->
       get_n o' n = get_n o n) /\
    (amount T <= to - from + 1 ->
     leds o' = replicate (Z.to_nat (amount T)) c).
Proof.
  intros Hfrom Hto Hpos Hlen.
  eexists. split; [by apply fill_range_run|].
  split; [done|].
  assert (Hcol : forall i, from <= i <= to ->
            foldl (fun l i => <[Z.to_nat (i mod amount T) := c]> l)
                  (leds o) (seqZ from (to - from + 1))
            !! Z.to_nat (i mod amount T) = Some c).
  { intros i Hi.
    apply (insert_loop_const (fun i => Z.to_nat (i mod amount T)) c).
    - apply elem_of_seqZ. lia.
    - pose proof (Z.mod_pos_bound i (amount T) Hpos). lia. }
  split; [|split].
  - intros i Hi. pose proof (Z.mod_pos_bound i (amount T) Hpos).
    rewrite get_n_with_leds by lia. by apply Hcol.
  - intros n Hn Hout. rewrite get_n_with_leds, get_n_leds by lia.
    apply insert_loop_untouched. intros i Hi Heq.
    apply elem_of_seqZ in Hi. apply (Hout i); [lia|].
    pose proof (Z.mod_pos_bound i (amount T) Hpos). lia.
  - intros Hspan. simpl. apply list_eq. intros j.
    destruct (decide (j < Z.to_nat (amount T))%nat) as [Hj|Hj].
    + rewrite lookup_replicate_2 by done.
      destruct (mod_shift_exists (amount T) from to (Z.of_nat j))
        as (i & Hi & Hmod); [lia..|].
      replace j with (Z.to_nat (i mod amount T)) by lia.
      by apply Hcol.
    + rewrite (proj1 (lookup_replicate_None _ _ _)) by lia.
      apply lookup_ge_None. rewrite insert_loop_length. lia.
Qed.

Section Blend.
Variable getBlend : Z -> Z -> mData -> mData -> mData.

(** X4.  [fillGradient(from, to, c1, c2)] over at most [amount] indices,
    0 <= from <= to: pixel [(from + k) mod amount] receives blend step [k]
    of [to - from] for every 0 <= k < to - from, every other pixel reads
    as before, and [to] itself is not part of the range. *)
Theorem fillGradient_steps o from to c1 c2 :
  0 <= from <= to -> to <= 32767 -> to - from <= amount T ->
  0 < amount T -> Z.of_nat (length (leds o)) = amount T ->
  exists o', fillGradient T getBlend o from to c1 c2 = Some o' /\
    o' = with_leds (leds o') o /\
    (forall k, 0 <= k < to - from ->
       get_n o' ((from + k) mod amount T)
       = Some (getBlend k (to - from) c1 c2)) /\
    (forall n, 0 <= n ->
       (forall k, 0 <= k < to - from -> (from + k) mod amount T <> n) ->
       get_n o' n = get_n o n) /\
    (to - from < amount T ->
     get_n o' (to mod amount T) = get_n o (to mod amount T)).
Proof.
  intros Hfrom Hto Hspan Hpos Hlen.
  set (f := fun i => getBlend (to_int (i - from)) (to_int (to - from)) c1 c2).
  set (g := fun i => Z.to_nat (i mod amount T)).
  assert (Hrun : fillGradient T getBlend o from to c1 c2 =
            Some (with_leds (foldl (fun l i => <[g i := f i]> l) (leds o)
                                   (seqZ from (to - from))) o)).
  { unfold fillGradient. apply (store_loop_run T f); [done|].
    intros i Hi. apply elem_of_seqZ in Hi. lia. }
  assert (Hout : forall n, 0 <= n ->
            (forall k, 0 <= k < to - from -> (from + k) mod amount T <> n) ->
            foldl (fun l i => <[g i := f i]> l) (leds o)
                  (seqZ from (to - from)) !! Z.to_nat n
            = leds o !! Z.to_nat n).
  { intros n Hn Hno. apply insert_loop_untouched. intros i Hi Heq.
    apply elem_of_seqZ in Hi. apply (Hno (i - from)); [lia|].
    replace (from + (i - from)) with i by lia. unfold g in Heq.
    pose proof (Z.mod_pos_bound i (amount T) Hpos). lia. }
  eexists. split; [exact Hrun|]. split; [done|]. split; [|split].
  - intros k Hk.
    pose proof (Z.mod_pos_bound (from + k) (amount T) Hpos).
    rewrite get_n_with_leds by lia.
    rewrite (seqZ_split from (to - from) k) by lia.
    change (Z.to_nat ((from + k) mod amount T)) with (g (from + k)).
    rewrite insert_loop_last.
    + unfold f. f_equal.
      replace (from + k - from) with k by lia.
      rewrite !to_int_small by (unfold is_int; lia). done.
    + intros i' Hi' Heq. apply elem_of_seqZ in Hi'. unfold g in Heq.
      pose proof (Z.mod_pos_bound i' (amount T) Hpos).
      apply (mod_apart (amount T) (from + k) i'); [done|lia|lia].
    + unfold g. lia.
  - intros n Hn Hno. rewrite get_n_with_leds, get_n_leds by lia.
    by apply Hout.
  - intros Hlt. pose proof (Z.mod_pos_bound to (amount T) Hpos).
    rewrite get_n_with_leds, get_n_leds by lia. apply Hout; [lia|].
    intros k Hk.
    apply not_eq_sym, (mod_apart (amount T) (from + k) to); [done|lia].
Qed.

End Blend.

End BufferTheorems.

Section MatrixBuffer.
Context {mData : Type} `{CU : ColorUtility mData}.
Variable T : Template.
Implicit Types (o : microLED mData) (c : mData).

Lemma matrix_ready_with_leds o (l : list mData) :
  matrix_ready T o -> length l = length (leds o) ->
  matrix_ready T (with_leds l o).
Proof.
  intros (Hobj & Hc & Hcap & Hlen) Hl.
  split; [exact Hobj|]. split; [exact Hc|]. split; [exact Hcap|].
  simpl. lia.
Qed.

Lemma get_xy_on_matrix o x y :
  matrix_ready T o -> on_matrix o x y ->
  exists n, getPixNumber o x y = Some n /\ 0 <= n < amount T /\
            get_xy o x y = leds o !! Z.to_nat n.
Proof.
  intros (Hobj & Hc & Hcap & Hlen) Hxy.
  destruct (getPixNumber_bijective o Hobj Hc) as (Hrange & _ & _).
  destruct (Hrange x y Hxy) as (n & Hn & Hlt).
  exists n. split; [done|]. split; [lia|].
  unfold get_xy. rewrite Hn. simpl. unfold get_n.
  replace (n <? 0) with false by (symmetry; apply Z.ltb_ge; lia). done.
Qed.

Lemma set_xy_on_matrix o x y c :
  matrix_ready T o -> on_matrix o x y ->
  exists o', set_xy T o x y c = Stored o' /\
    o' = with_leds (leds o') o /\
    length (leds o') = length (leds o) /\
    get_xy o' x y = Some c /\
    (forall x' y', on_matrix o x' y' -> (x', y') <> (x, y) ->
       get_xy o' x' y' = get_xy o x' y').
Proof.
  intros Hready Hxy. pose proof Hready as (Hobj & Hc & Hcap & Hlen).
  destruct (set_xy_inside T o x y c Hobj Hc Hxy Hcap) as (n & Hn & Hlt & Hset).
  eexists. split; [exact Hset|]. split; [done|].
  assert (Hl : length (<[Z.to_nat n := c]> (leds o)) = length (leds o))
    by apply length_insert.
  split; [exact Hl|].
  pose proof (matrix_ready_with_leds o _ Hready Hl) as Hready'.
  split.
  - destruct (get_xy_on_matrix _ x y Hready' Hxy) as (n' & Hn' & _ & ->).
    change (getPixNumber o x y = Some n') in Hn'.
    assert (n' = n) as -> by congruence.
    simpl. apply list_lookup_insert_eq. lia.
  - intros x' y' Hxy' Hne.
    destruct (get_xy_on_matrix _ x' y' Hready' Hxy') as (n' & Hn' & Hb & ->).
    destruct (get_xy_on_matrix _ x' y' Hready Hxy') as (n'' & Hn'' & _ & ->).
    change (getPixNumber o x' y' = Some n') in Hn'.
    assert (n'' = n') as -> by congruence.
    simpl. apply list_lookup_insert_ne. intros Heq.
    destruct (getPixNumber_bijective o Hobj Hc) as (_ & Hinj & _).
    destruct (Hinj x y x' y' Hxy Hxy') as [-> ->]; [|done].
    rewrite Hn, Hn'. f_equal.
    lia.
Qed.

End MatrixBuffer.

Section BitmapFacts.
Context {mData : Type} `{CU : ColorUtility mData}.
Variable T : Template.
Variable of_raw : Z -> mData.
Implicit Types (o : microLED mData) (c : mData).

(** One iteration of the inner loop. *)
Local Abbreviation draw_step X Y frame width height :=
  (fun (acc : option (microLED mData)) (xy : Z * Z) =>
     o' ← acc;
     v ← pgm_read frame
           (to_int (xy.1 + to_int (to_int (to_int (height - 1) - xy.2)
                                   * width)));
     completed (set_xy T o' (to_int (xy.1 + X)) (to_int (xy.2 + Y))
                       (of_raw v))).

Lemma drawBitmap_pairs o X Y frame width height :
  drawBitmap T of_raw o X Y frame width height =
  foldl (draw_step X Y frame width height) (Some o)
        (x ← seqZ 0 width; y ← seqZ 0 height; [(x, y)]).
Proof.
  unfold drawBitmap. generalize (Some o) as acc.
  induction (seqZ 0 width) as [|x xs IH]; intros acc; [done|].
  simpl. rewrite foldl_app, <- IH. f_equal.
  generalize acc as a. clear.
  induction (seqZ 0 height) as [|y ys IH]; intros a; [done|].
  simpl. apply IH.
Qed.

Lemma elem_of_pairs width height x y :
  (x, y) ∈ (x ← seqZ 0 width; y ← seqZ 0 height; [(x, y)])
  <-> 0 <= x < width /\ 0 <= y < height.
Proof.
  rewrite list_elem_of_bind. split.
  - intros (x' & Hin & Hx'). apply list_elem_of_bind in Hin.
    destruct Hin as (y' & Hin & Hy').
    apply list_elem_of_singleton in Hin. injection Hin as -> ->.
    apply elem_of_seqZ in Hx', Hy'. lia.
  - intros [Hx Hy]. exists x. split; [|apply elem_of_seqZ; lia].
    apply list_elem_of_bind. exists y.
    split; [by apply list_elem_of_singleton | apply elem_of_seqZ; lia].
Qed.

(** What the buffer holds once the pairs of [ps] have been drawn. *)
Local Abbreviation drawn o X Y frame width height ps o' :=
  (o' = with_leds (leds o') o /\ length (leds o') = length (leds o) /\
   forall px py, on_matrix o px py ->
     ((px - X, py - Y) ∈ ps ->
      get_xy o' px py
      = of_raw <$> frame_at frame width height (px - X) (py - Y)) /\
     ((px - X, py - Y) ∉ ps -> get_xy o' px py = get_xy o px py)).

Lemma draw_pairs o X Y frame width height ps :
  matrix_ready T o ->
  0 <= width -> 0 <= height -> width * height <= 32767 ->
  Z.of_nat (length frame) = width * height ->
  is_int X -> is_int Y -> X + width <= 32768 -> Y + height <= 32768 ->
  (forall x y, (x, y) ∈ ps -> 0 <= x < width /\ 0 <= y < height) ->
  exists o', foldl (draw_step X Y frame width height) (Some o) ps = Some o' /\
             drawn o X Y frame width height ps o'.
Proof.
  intros Hready Hw Hh Hwh Hframe HX HY HXw HYh.
  unfold is_int in *.
  induction ps as [|[x y] ps IH] using rev_ind; intros Hps.
  { exists o. split; [done|]. split; [by destruct o|]. split; [done|].
    intros px py _. split; [|done].
    intros Hin. by apply elem_of_nil in Hin. }
  destruct IH as (o1 & Hrun & Ho1 & Hlen1 & Hpix).
  { intros x' y' Hin. apply Hps, elem_of_app. by left. }
  destruct (Hps x y) as [Hx Hy].
  { apply elem_of_app. right. by apply list_elem_of_singleton. }
  rewrite foldl_snoc, Hrun. simpl.
  assert (Hidx : 0 <= x + (height - 1 - y) * width < width * height) by nia.
  assert (Hh' : height <= 32767) by nia.
  assert (Hw' : width <= 32767) by nia.
  rewrite (to_int_small (height - 1)) by (unfold is_int; lia).
  rewrite (to_int_small (height - 1 - y)) by (unfold is_int; lia).
  rewrite (to_int_small ((height - 1 - y) * width)) by (unfold is_int; nia).
  rewrite (to_int_small (x + (height - 1 - y) * width))
    by (unfold is_int; lia).
  rewrite (to_int_small (x + X)), (to_int_small (y + Y))
    by (unfold is_int; lia).
  unfold pgm_read.
  replace (x + (height - 1 - y) * width <? 0) with false
    by (symmetry; apply Z.ltb_ge; lia).
  destruct (lookup_lt_is_Some_2 frame (Z.to_nat (x + (height - 1 - y) * width)))
    as [v Hv]; [lia|].
  rewrite Hv. simpl.
  assert (Hready1 : matrix_ready T o1).
  { rewrite Ho1. by apply matrix_ready_with_leds. }
  assert (Hsame : forall px py, on_matrix o1 px py <-> on_matrix o px py).
  { intros px py. by rewrite Ho1. }
  assert (Hmem : forall px py,
            (px - X, py - Y) ∈ ps ++ [(x, y)] <->
            (px - X, py - Y) ∈ ps \/ (px = x + X /\ py = y + Y)).
  { intros px py. rewrite elem_of_app, list_elem_of_singleton.
    split; (intros [?|H]; [by left|right]).
    - injection H as ? ?. lia.
    - destruct H as [-> ->]. f_equal; lia. }
  destruct (decide (0 <= x + X < _width o /\ 0 <= y + Y < _height o))
    as [Hon|Hoff].
  - destruct (set_xy_on_matrix T o1 (x + X) (y + Y) (of_raw v) Hready1)
      as (o2 & Hset & Ho2 & Hlen2 & Hget & Hother).
    { by apply Hsame. }
    rewrite Hset. simpl. exists o2. split; [done|].
    split; [rewrite Ho2, Ho1; done|]. split; [congruence|].
    intros px py Hp. rewrite Hmem.
    destruct (decide (px = x + X /\ py = y + Y)) as [[-> ->]|Hne].
    + split; [|tauto]. intros _. rewrite Hget. unfold frame_at.
      replace (x + X - X) with x by lia. replace (y + Y - Y) with y by lia.
      by rewrite Hv.
    + rewrite Hother; [|by apply Hsame|intros [=]; tauto].
      destruct (Hpix px py Hp) as [Hin Hout]. split; [|tauto].
      intros [?|?]; [auto|tauto].
  - rewrite set_xy_outside by (rewrite Ho1; simpl; lia).
    simpl. exists o1. split; [done|]. split; [done|]. split; [done|].
    intros px py Hp. rewrite Hmem.
    destruct (Hpix px py Hp) as [Hin Hout].
    assert (~ (px = x + X /\ py = y + Y)).
    { intros [-> ->]. apply Hoff. exact Hp. }
    split; [intros [?|?]; [auto|tauto] | tauto].
Qed.

End BitmapFacts.

Section MatrixTheorems.
Context {mData : Type} `{CU : ColorUtility mData}.
Variable T : Template.
Implicit Types (o : microLED mData) (c : mData).

(** X5.  On a matrix that fits the buffer, [set(x, y, color)] at a
    coordinate of the matrix is read back by [get(x, y)], every other
    coordinate of the matrix reads as before, and nothing but [leds]
    changes. *)
Theorem set_xy_get_xy o x y c :
  matrix_ready T o -> on_matrix o x y ->
  exists o', set_xy T o x y c = Stored o' /\
    o' = with_leds (leds o') o /\
    get_xy o' x y = Some c /\
    (forall x' y', on_matrix o x' y' -> (x', y') <> (x, y) ->
       get_xy o' x' y' = get_xy o x' y').
Proof.
  intros Hready Hxy.
  destruct (set_xy_on_matrix T o x y c Hready Hxy)
    as (o' & Hset & Ho' & _ & Hget & Hother).
  exists o'. by repeat split.
Qed.

Variable of_raw : Z -> mData.

(** X6.  [drawBitmap8/16/32(X, Y, frame, width, height)] on a matrix that
    fits the buffer, with a frame of [width * height] elements: the call
    completes; the bitmap is clipped to the matrix; the pixel at
    (X + x, Y + y) shows frame element [x + (height - 1 - y) * width], so
    the first row of the frame is the top row; every other pixel of the
    matrix reads as before. *)
Theorem drawBitmap_clips_and_flips o X Y frame width height :
  matrix_ready T o ->
  0 <= width -> 0 <= height -> width * height <= 32767 ->
  Z.of_nat (length frame) = width * height ->
  is_int X -> is_int Y -> X + width <= 32768 -> Y + height <= 32768 ->
  exists o', drawBitmap T of_raw o X Y frame width height = Some o' /\
    o' = with_leds (leds o') o /\
    forall px py, on_matrix o px py ->
      (X <= px < X + width -> Y <= py < Y + height ->
       get_xy o' px py
       = of_raw <$> frame_at frame width height (px - X) (py - Y)) /\
      (~ (X <= px < X + width /\ Y <= py < Y + height) ->
       get_xy o' px py = get_xy o px py).
Proof.
  intros Hready Hw Hh Hwh Hframe HX HY HXw HYh.
  rewrite drawBitmap_pairs.
  destruct (draw_pairs T of_raw o X Y frame width height
              (x ← seqZ 0 width; y ← seqZ 0 height; [(x, y)]))
    as (o' & Hrun & Ho' & _ & Hpix); try done.
  { intros x y. apply elem_of_pairs. }
  exists o'. split; [done|]. split; [done|].
  intros px py Hp. destruct (Hpix px py Hp) as [Hin Hout].
  split.
  - intros Hx Hy. apply Hin, elem_of_pairs. lia.
  - intros Hno. apply Hout. rewrite elem_of_pairs. lia.
Qed.

End MatrixTheorems.

(** ** The transmitted frame *)

Import Wire.

Section Pins.

Lemma pin_tables p :
  pin_valid p ->
  digitalPinToBitMask p = Some (2 ^ pin_bit p) /\
  exists port, digitalPinToPort p = Some port /\
    portOutputRegister port = Some (Some (pin_out p)) /\
    portModeRegister port = Some (Some (pin_ddr p)).
Proof.
  unfold pin_valid. intros Hp.
  assert (Hcases : exists n : nat, p = Z.of_nat n /\ (n < 20)%nat)
    by (exists (Z.to_nat p); lia).
  destruct Hcases as (n & -> & Hn).
  do 20 (destruct n as [|n]; [split; [reflexivity|eexists; by vm_compute]|]).
  lia.
Qed.

Lemma pin_tables_outside p :
  ~ pin_valid p -> digitalPinToBitMask p = None.
Proof.
  unfold pin_valid, digitalPinToBitMask, pgm_read. intros Hp.
  destruct (Z.ltb_spec p 0); [done|].
  apply lookup_ge_None. simpl. lia.
Qed.

Lemma ioreg_eqb_eq a b : ioreg_eqb a b = true <-> a = b.
Proof. destruct a, b; simpl; split; congruence. Qed.

Lemma lor_bit_byte d b k :
  0 <= b -> 0 <= k < 8 ->
  Z.testbit (to_uint8 (Z.lor d (2 ^ b))) k = Z.testbit d k || (b =? k).
Proof.
  intros Hb Hk. unfold to_uint8, to_unsigned.
  rewrite Z.mod_pow2_bits_low by lia.
  rewrite Z.lor_spec, Z.pow2_bits_eqb by lia. done.
Qed.

Lemma land_lnot_bit_byte d b k :
  0 <= b -> 0 <= k < 8 ->
  Z.testbit (to_uint8 (Z.land d (Z.lnot (2 ^ b)))) k
  = Z.testbit d k && negb (b =? k).
Proof.
  intros Hb Hk. unfold to_uint8, to_unsigned.
  rewrite Z.mod_pow2_bits_low by lia.
  rewrite Z.land_spec, Z.lnot_spec, Z.pow2_bits_eqb by lia. done.
Qed.

Lemma pin_bit_nonneg p : pin_valid p -> 0 <= pin_bit p < 8.
Proof.
  unfold pin_valid, pin_bit. intros Hp.
  destruct (Z.ltb_spec p 8), (Z.ltb_spec p 14); lia.
Qed.

End Pins.

Section Bits.

Lemma byte_of_bits_of_byte v :
  is_uint8 v -> byte_of_bits (bits_of_byte v) = v.
Proof.
  unfold is_uint8. intros Hv.
  assert (Hcases : exists n : nat, v = Z.of_nat n /\ (n < 256)%nat)
    by (exists (Z.to_nat v); lia).
  destruct Hcases as (n & -> & Hn).
  do 256 (destruct n as [|n]; [vm_compute; reflexivity|]). lia.
Qed.

Lemma shifted_bit data j :
  0 <= j <= 7 ->
  Z.testbit (to_uint8 (Z.shiftl data j)) 7 = Z.testbit data (7 - j).
Proof.
  intros Hj. unfold to_uint8, to_unsigned.
  rewrite Z.mod_pow2_bits_low by lia.
  rewrite Z.shiftl_spec by lia. done.
Qed.

Lemma shift_again data j :
  0 <= j ->
  to_uint8 (Z.shiftl (to_uint8 (Z.shiftl data j)) 1)
  = to_uint8 (Z.shiftl data (j + 1)).
Proof.
  intros Hj. unfold to_uint8, to_unsigned.
  rewrite <- (Z.shiftl_shiftl data j 1) by lia.
  rewrite !Z.shiftl_mul_pow2 by lia.
  change (2 ^ 1) with 2. change (2 ^ 8) with 256.
  rewrite Z.mul_mod_idemp_l by lia. done.
Qed.

End Bits.

(** *** The lines and the registers *)

Section Lines.
Variable T : Template.
Implicit Types (st : line) (m : AVR).

Lemma receive_app st evs1 evs2 :
  receive T st (evs1 ++ evs2) =
  let '(bits1, st1) := receive T st evs1 in
  let '(bits2, st2) := receive T st1 evs2 in
  (bits1 ++ bits2, st2).
Proof.
  revert st. induction evs1 as [|e evs1 IH]; intros st.
  - cbn [app receive]. by destruct (receive T st evs2).
  - cbn [app receive]. rewrite IH.
    destruct (receive T (line_step T st e) evs1) as [bits1 st1].
    destruct (receive T st1 evs2) as [bits2 st2].
    by rewrite app_assoc.
Qed.

Lemma receive_cons st e evs :
  receive T st (e :: evs) =
  let '(bits, st') := receive T (line_step T st e) evs in
  (line_bits T st e ++ bits, st').
Proof. reflexivity. Qed.

Lemma ioreg_eqb_refl r : ioreg_eqb r r = true.
Proof. by destruct r. Qed.

Lemma pin_level_store p r v m :
  pin_level (store_io r v m) p = level_after p r v (pin_level m p).
Proof.
  unfold pin_level, level_after, store_io. cbn [emit with_io io].
  by destruct (ioreg_eqb r (pin_out p)).
Qed.

Lemma tracks_line_of m : tracks T (line_of T m) m.
Proof. by split. Qed.

Lemma tracks_store st m r v :
  tracks T st m -> tracks T (line_step T st (Store r v)) (store_io r v m).
Proof.
  intros [Hd Hc]. split; cbn [line_step dat clk];
    rewrite pin_level_store; congruence.
Qed.

Lemma tracks_delay st m :
  tracks T st m -> tracks T (line_step T st Delay) (emit Delay m).
Proof. intros [Hd Hc]. by split. Qed.

Lemma tracks_at_rest st m : tracks T st m -> armed st = false -> st = line_of T m.
Proof.
  destruct st as [d c a]. intros [Hd Hc] Ha. cbn in *. subst.
  reflexivity.
Qed.

Lemma pin_same_bit p q :
  pin_valid p -> pin_valid q ->
  pin_out p = pin_out q -> pin_bit p = pin_bit q -> p = q.
Proof.
  unfold pin_valid, pin_out, pin_bit. intros Hp Hq.
  destruct (Z.ltb_spec p 8), (Z.ltb_spec p 14),
    (Z.ltb_spec q 8), (Z.ltb_spec q 14); intros Ho Hb;
    first [discriminate Ho | lia].
Qed.

(** [*port |= mask] raises the pin of the mask and no other pin. *)
Lemma level_set m p q :
  pin_valid p -> pin_valid q ->
  pin_level (store_io (pin_out p)
               (to_uint8 (Z.lor (io m (pin_out p)) (2 ^ pin_bit p))) m) q
  = (q =? p) || pin_level m q.
Proof.
  intros Hp Hq. rewrite pin_level_store. unfold level_after, pin_level.
  pose proof (pin_bit_nonneg p Hp). pose proof (pin_bit_nonneg q Hq).
  destruct (ioreg_eqb (pin_out p) (pin_out q)) eqn:Hr.
  - apply ioreg_eqb_eq in Hr. rewrite lor_bit_byte by lia. rewrite <- Hr.
    destruct (Z.eqb_spec q p) as [->|Hne].
    + by rewrite Z.eqb_refl, orb_true_r.
    + destruct (Z.eqb_spec (pin_bit p) (pin_bit q)) as [Hb|_];
        [|by rewrite orb_false_r].
      exfalso. apply Hne. symmetry. by apply pin_same_bit.
  - destruct (Z.eqb_spec q p) as [->|_]; [|done].
    by rewrite ioreg_eqb_refl in Hr.
Qed.

(** [*port &= ~mask] lowers the pin of the mask and no other pin. *)
Lemma level_clear m p q :
  pin_valid p -> pin_valid q ->
  pin_level (store_io (pin_out p)
               (to_uint8 (Z.land (io m (pin_out p)) (Z.lnot (2 ^ pin_bit p))))
               m) q
  = negb (q =? p) && pin_level m q.
Proof.
  intros Hp Hq. rewrite pin_level_store. unfold level_after, pin_level.
  pose proof (pin_bit_nonneg p Hp). pose proof (pin_bit_nonneg q Hq).
  destruct (ioreg_eqb (pin_out p) (pin_out q)) eqn:Hr.
  - apply ioreg_eqb_eq in Hr. rewrite land_lnot_bit_byte by lia.
    rewrite <- Hr.
    destruct (Z.eqb_spec q p) as [->|Hne].
    + by rewrite Z.eqb_refl, andb_false_r.
    + destruct (Z.eqb_spec (pin_bit p) (pin_bit q)) as [Hb|_];
        [|by rewrite andb_true_r].
      exfalso. apply Hne. symmetry. by apply pin_same_bit.
  - destruct (Z.eqb_spec q p) as [->|_]; [|done].
    by rewrite ioreg_eqb_refl in Hr.
Qed.

Lemma received_trans m1 m2 m3 bits1 bits2 :
  received T m1 m2 bits1 -> received T m2 m3 bits2 ->
  received T m1 m3 (bits1 ++ bits2).
Proof.
  intros (e1 & Ht1 & Hr1) (e2 & Ht2 & Hr2). exists (e1 ++ e2). split.
  - by rewrite Ht2, Ht1, app_assoc.
  - by rewrite receive_app, Hr1, Hr2.
Qed.

End Lines.

(** *** Rules for what a computation puts on the lines *)

Section Steps.
Context {mData : Type}.
Variable T : Template.
Local Abbreviation state := (@state mData).
Local Abbreviation M := (@MicroLED.M mData).
Variable I : microLED mData -> Prop.
Hypothesis I_stable : forall v o, I o -> I (with_sregSave v o).
Implicit Types (P Q R : line -> Prop).

Lemma with_sregSave_id (o : microLED mData) : with_sregSave (sregSave o) o = o.
Proof. by destruct o. Qed.

Lemma steps_ret P : steps T I P [] P (mret tt : M unit).
Proof.
  intros s st _ Htr HP. exists s, [], st.
  split; [done|]. split; [by rewrite app_nil_r|].
  split; [done|]. split; [done|]. split; [done|].
  exists (sregSave (this s)). by rewrite with_sregSave_id.
Qed.

Lemma steps_seq P Q R bits1 bits2 (c1 c2 : M unit) :
  steps T I P bits1 Q c1 -> steps T I Q bits2 R c2 ->
  steps T I P (bits1 ++ bits2) R (c1 ;; c2).
Proof.
  intros H1 H2 s st Hs Htr HP.
  destruct (H1 s st Hs Htr HP)
    as (s1 & e1 & st1 & Hr1 & Ht1 & Hc1 & Htr1 & HQ & v1 & Ho1).
  destruct (H2 s1 st1)
    as (s2 & e2 & st2 & Hr2 & Ht2 & Hc2 & Htr2 & HR & v2 & Ho2);
    [rewrite Ho1; by apply I_stable|done|done|].
  exists s2, (e1 ++ e2), st2. split.
  { cbv [mbind M_bind]. by rewrite Hr1. }
  split; [by rewrite Ht2, Ht1, app_assoc|].
  split; [by rewrite receive_app, Hc1, Hc2|].
  split; [done|]. split; [done|].
  exists v2. by rewrite Ho2, Ho1.
Qed.

Lemma steps_gets_at {A} (f : state -> A) (k : A -> M unit) P bits Q :
  (forall s, I (this s) -> steps T I P bits Q (k (f s))) ->
  steps T I P bits Q (gets f ≫= k).
Proof. intros H s st Hs. exact (H s Hs s st Hs). Qed.

Lemma steps_gets {A} (f : state -> A) (k : A -> M unit) P bits Q :
  (forall a, steps T I P bits Q (k a)) -> steps T I P bits Q (gets f ≫= k).
Proof. intros H. apply steps_gets_at. intros s _. apply H. Qed.

Lemma steps_isr_is i (k : bool -> M unit) P bits Q :
  (forall a, steps T I P bits Q (k a)) -> steps T I P bits Q (isr_is i ≫= k).
Proof. apply steps_gets. Qed.

Lemma steps_when (b : bool) P bits (c : M unit) :
  steps T I P bits P c -> steps T I P (if b then bits else []) P (when b c).
Proof. intros H. destruct b; [exact H | apply steps_ret]. Qed.

Lemma steps_silent_when (b : bool) P (c : M unit) :
  steps T I P [] P c -> steps T I P [] P (when b c).
Proof. intros H. destruct b; [exact H | apply steps_ret]. Qed.

(** An event that is neither a store, nor a delay, nor an SPI transfer
    moves no line and brings no bit. *)
Lemma steps_silent e P :
  match e with Store _ _ | Delay | SpiTransfer _ => False | _ => True end ->
  steps T I P [] P (update_mcu (emit e)).
Proof.
  intros He s st _ Htr HP. eexists _, [e], st.
  split; [reflexivity|]. split; [reflexivity|].
  split.
  { cbn [receive]. unfold line_bits.
    destruct e; try done; destruct (chip T); reflexivity. }
  split; [by destruct e|]. split; [done|].
  exists (sregSave (this s)). simpl. by rewrite with_sregSave_id.
Qed.

Lemma steps_save_and_cli P : steps T I P [] P save_and_cli.
Proof.
  intros s st _ Htr HP. eexists _, [], st.
  split; [reflexivity|]. split; [by rewrite app_nil_r|].
  split; [done|]. split; [done|]. split; [done|]. by eexists.
Qed.

Lemma steps_restore_sreg P : steps T I P [] P restore_sreg.
Proof.
  intros s st _ Htr HP. eexists _, [], st.
  split; [reflexivity|]. split; [by rewrite app_nil_r|].
  split; [done|]. split; [done|]. split; [done|].
  exists (sregSave (this s)). simpl. by rewrite with_sregSave_id.
Qed.

Lemma steps_for_each {A} (body : A -> M unit) (bits : A -> list bool) l P :
  (forall a, a ∈ l -> steps T I P (bits a) P (body a)) ->
  steps T I P (l ≫= bits) P (for_each l body).
Proof.
  induction l as [|a l IH]; intros H; [apply steps_ret|].
  simpl. apply steps_seq with (Q := P).
  - apply H. by left.
  - apply IH. intros a' Ha'. apply H. by right.
Qed.

Lemma steps_repeat_n n (body : M unit) bits P :
  steps T I P bits P body ->
  steps T I P (mjoin (replicate n bits)) P (repeat_n n body).
Proof.
  intros H. induction n as [|n IH]; [apply steps_ret|].
  simpl. by apply steps_seq with (Q := P).
Qed.

Lemma steps_bits_eq bits bits' P Q (c : M unit) :
  bits = bits' -> steps T I P bits Q c -> steps T I P bits' Q c.
Proof. by intros ->. Qed.

Lemma steps_deref {A} (a : A) (k : A -> M unit) P bits Q :
  steps T I P bits Q (k a) -> steps T I P bits Q (deref (Some a) ≫= k).
Proof. intros H s st Hs. exact (H s st Hs). Qed.

Lemma steps_ext P bits Q (c c' : M unit) :
  (forall s, c s = c' s) -> steps T I P bits Q c' -> steps T I P bits Q c.
Proof. intros Heq H s st Hs Htr HP. rewrite Heq. exact (H s st Hs Htr HP). Qed.

(** From rest to rest: what the strip has taken in when the computation
    completes. *)
Lemma puts_run bits (c : M unit) s :
  puts T I bits c -> I (this s) -> line_idle T (mcu s) ->
  exists s', c s = Some (tt, s') /\
    received T (mcu s) (mcu s') bits /\ line_idle T (mcu s') /\
    exists v, this s' = with_sregSave v (this s).
Proof.
  intros H Hs Hidle.
  destruct (H s (line_of T (mcu s)) Hs (tracks_line_of T _) Hidle)
    as (s' & evs & st' & Hrun & Htrace & Hrecv & Htr & Hrest & Hv).
  pose proof (tracks_at_rest T st' (mcu s') Htr (proj1 Hrest)) as ->.
  exists s'. split; [done|]. split; [by exists evs|]. by split.
Qed.

End Steps.

Section Transmit.
Context {mData : Type} `{CU : ColorUtility mData}.
Variable T : Template.
Local Abbreviation state := (@state mData).
Local Abbreviation M := (@MicroLED.M mData).
Variable I : microLED mData -> Prop.
Hypothesis I_stable : forall v o, I o -> I (with_sregSave v o).
Hypothesis I_wired : forall o, I o -> wired T o.
Hypothesis I_latched : forall o, I o -> latched T o.

Local Abbreviation puts := (puts T I).
Local Abbreviation rest := (at_rest T).

Lemma pulse_bits_byte data : pulse_bits 8 data = bits_of_byte data.
Proof.
  unfold bits_of_byte. cbn [pulse_bits fmap list_fmap].
  rewrite !shift_again by lia.
  rewrite !shifted_bit by lia. done.
Qed.

(** One round of the assembly blocks. *)
Lemma ws_round (s : state) n data r :
  _dat_port (this s) = Some r ->
  ws_pulses (S n) data s =
  ws_pulses n (to_uint8 (Z.shiftl data 1))
    {| this := this s;
       mcu := store_io r (_mask_l (this s))
                (emit Delay
                   ((if Z.testbit data 7 then id
                     else store_io r (_mask_l (this s)))
                      (store_io r (_mask_h (this s)) (mcu s)))) |}.
Proof.
  intros Hr. cbn [ws_pulses].
  cbv [mbind M_bind gets write_io deref mret M_ret update_mcu when].
  rewrite Hr. cbn [this mcu]. by destruct (Z.testbit data 7).
Qed.

Lemma at_rest_self_clocked st :
  self_clocked T = true -> rest st -> armed st = false /\ dat st = false.
Proof.
  unfold self_clocked, chip_is_APA102, at_rest.
  intros Hself [Ha Hd]. split; [done|]. by destruct (chip T).
Qed.

Lemma self_clocked_rest st :
  self_clocked T = true -> armed st = false -> dat st = false -> rest st.
Proof.
  unfold self_clocked, chip_is_APA102, at_rest.
  intros Hself Ha Hd. split; [done|]. by destruct (chip T).
Qed.

Lemma self_clocked_delay st :
  self_clocked T = true ->
  line_bits T st Delay = if armed st then [dat st] else [].
Proof.
  unfold self_clocked, chip_is_APA102, line_bits.
  by destruct (chip T).
Qed.

Lemma self_clocked_store st r v :
  self_clocked T = true -> line_bits T st (Store r v) = [].
Proof.
  unfold self_clocked, chip_is_APA102, line_bits.
  by destruct (chip T).
Qed.

(** The pulse code on a self-clocked line: each round raises the line,
    drops it at once for a 0 and after the delay for a 1. *)
Lemma puts_ws_pulses n data :
  self_clocked T = true ->
  puts (pulse_bits n data) (ws_pulses n data : M unit).
Proof.
  intros Hself. revert data. induction n as [|n IH]; intros data.
  { apply steps_ret. }
  intros s st Hs Htr Hrest.
  destruct (at_rest_self_clocked st Hself Hrest) as [Harm Hdat].
  destruct (I_wired _ Hs) as (_ & Hpin & _).
  destruct Hpin as (Hvalid & Hport & _).
  { unfold self_clocked, chip_is_APA102 in Hself.
    intros Hchip. by rewrite Hchip in Hself. }
  destruct (I_latched _ Hs Hself) as [Hh Hl].
  rewrite (ws_round s n data _ Hport).
  set (r := pin_out (pin T)) in *.
  set (h := _mask_h (this s)) in *. set (l := _mask_l (this s)) in *.
  remember (Z.testbit data 7) as bit eqn:Hbit.
  (* the lines after each store of the round *)
  set (st1 := line_step T st (Store r h)).
  set (st2 := if bit then st1 else line_step T st1 (Store r l)).
  set (st3 := line_step T st2 Delay).
  set (st4 := line_step T st3 (Store r l)).
  assert (Hr : ioreg_eqb r (pin_out (pin T)) = true)
    by apply ioreg_eqb_refl.
  assert (H1 : dat st1 = true /\ armed st1 = true).
  { unfold st1. cbn [line_step dat armed]. unfold level_after.
    rewrite Hr, Hh, Hself, Harm, Hdat. done. }
  assert (H2 : dat st2 = bit /\ armed st2 = true).
  { unfold st2. destruct bit; [exact H1|].
    cbn [line_step dat armed]. unfold level_after.
    rewrite Hr, Hl, Hself. destruct H1 as [_ ->]. done. }
  assert (H4 : dat st4 = false /\ armed st4 = false).
  { unfold st4, st3. cbn [line_step dat armed]. unfold level_after.
    rewrite Hr, Hl, Hself. by rewrite andb_false_r. }
  set (m1 := store_io r h (mcu s)).
  set (m2 := (if bit then id else store_io r l) m1).
  set (m4 := store_io r l (emit Delay m2)).
  assert (Htr1 : tracks T st1 m1) by (by apply tracks_store).
  assert (Htr2 : tracks T st2 m2).
  { unfold st2, m2. destruct bit; [exact Htr1|]. by apply tracks_store. }
  assert (Htr4 : tracks T st4 m4).
  { by apply tracks_store, tracks_delay. }
  destruct (IH (to_uint8 (Z.shiftl data 1))
              {| this := this s; mcu := m4 |} st4 Hs Htr4)
    as (s' & evs & st' & Hrun & Htrace & Hrecv & Htr' & Hrest' & Hv).
  { apply self_clocked_rest; [done|apply H4..]. }
  exists s',
    ([Store r h] ++ (if bit then [] else [Store r l]) ++ [Delay; Store r l]
     ++ evs), st'.
  split; [exact Hrun|].
  split.
  { rewrite Htrace. cbn [mcu]. unfold m4, m2, m1, store_io, emit.
    cbn [trace with_io]. destruct bit; cbn [id trace];
      by rewrite <- ?app_assoc. }
  split.
  { cbn [pulse_bits]. rewrite <- Hbit.
    assert (Htail : receive T st2 (Delay :: Store r l :: evs)
                    = (bit :: pulse_bits n (to_uint8 (Z.shiftl data 1)), st')).
    { cbn [receive]. fold st3 st4. rewrite Hrecv.
      rewrite self_clocked_delay, self_clocked_store by done.
      destruct H2 as [-> ->]. done. }
    cbn [app receive]. fold st1. rewrite self_clocked_store by done.
    unfold st2 in Htail. destruct bit; cbn [app].
    - by rewrite Htail.
    - rewrite (receive_cons T st1 (Store r l)), Htail.
      by rewrite self_clocked_store. }
  split; [exact Htr'|]. split; [exact Hrest'|exact Hv].
Qed.

(** One round of the loop of [LED_APA102]. *)
Lemma apa102_round (s : state) n data rd rc :
  _dat_port (this s) = Some rd -> _clk_port (this s) = Some rc ->
  let dm := _dat_mask (this s) in
  let cm := _clk_mask (this s) in
  let m1 :=
    store_io rd
      (to_uint8 (if Z.testbit data 7 then Z.lor (io (mcu s) rd) dm
                 else Z.land (io (mcu s) rd) (Z.lnot dm))) (mcu s) in
  let m2 := store_io rc (to_uint8 (Z.lor (io m1 rc) cm)) m1 in
  let m3 := store_io rc (to_uint8 (Z.land (io m2 rc) (Z.lnot cm))) m2 in
  apa102_bits (S n) data s =
  apa102_bits n (to_uint8 (Z.shiftl data 1)) {| this := this s; mcu := m3 |}.
Proof.
  intros Hd Hc. cbv zeta. cbn [apa102_bits].
  cbv [mbind M_bind gets read_io write_io deref mret M_ret update_mcu].
  rewrite Hd, Hc. cbn [this mcu]. by destruct (Z.testbit data 7).
Qed.

Lemma apa102_rest st :
  chip T = LED_APA102 -> rest st <-> armed st = false /\ clk st = false.
Proof. unfold at_rest. by intros ->. Qed.

Lemma apa102_store st r v :
  chip T = LED_APA102 ->
  line_bits T st (Store r v) =
    if negb (clk st) && clk (line_step T st (Store r v))
    then [dat (line_step T st (Store r v))] else [].
Proof. unfold line_bits. by intros ->. Qed.

Lemma apa102_armed st e :
  chip T = LED_APA102 -> armed st = false -> armed (line_step T st e) = false.
Proof.
  intros Hchip Ha. destruct e; try done.
  cbn [line_step armed]. unfold self_clocked, chip_is_APA102.
  by rewrite Hchip.
Qed.

(** The loop of [LED_APA102]: each round sets the data line, then raises
    and drops the clock line. *)
Lemma puts_apa102_bits n data :
  chip T = LED_APA102 ->
  puts (pulse_bits n data) (apa102_bits n data : M unit).
Proof.
  intros Hchip. revert data. induction n as [|n IH]; intros data.
  { apply steps_ret. }
  intros s st Hs Htr Hrest.
  apply (apa102_rest st Hchip) in Hrest as [Harm Hclk].
  destruct (I_wired _ Hs) as (_ & Hdat & Hck).
  destruct Hdat as (Hvd & Hdp & Hdm); [by rewrite Hchip|].
  destruct (Hck Hchip) as (Hvc & Hne & Hcp & Hcm).
  rewrite (apa102_round s n data _ _ Hdp Hcp). cbv zeta.
  rewrite Hdm, Hcm.
  remember (Z.testbit data 7) as bit eqn:Hbit.
  set (rd := pin_out (pin T)). set (rc := pin_out (pinCLK T)).
  set (v1 := to_uint8 (if bit
                       then Z.lor (io (mcu s) rd) (2 ^ pin_bit (pin T))
                       else Z.land (io (mcu s) rd)
                              (Z.lnot (2 ^ pin_bit (pin T))))).
  set (m1 := store_io rd v1 (mcu s)).
  set (v2 := to_uint8 (Z.lor (io m1 rc) (2 ^ pin_bit (pinCLK T)))).
  set (m2 := store_io rc v2 m1).
  set (v3 := to_uint8 (Z.land (io m2 rc) (Z.lnot (2 ^ pin_bit (pinCLK T))))).
  set (m3 := store_io rc v3 m2).
  set (st1 := line_step T st (Store rd v1)).
  set (st2 := line_step T st1 (Store rc v2)).
  set (st3 := line_step T st2 (Store rc v3)).
  assert (Htr1 : tracks T st1 m1) by (by apply tracks_store).
  assert (Htr2 : tracks T st2 m2) by (by apply tracks_store).
  assert (Htr3 : tracks T st3 m3) by (by apply tracks_store).
  destruct Htr as [Hd0 Hc0].
  assert (Hneq : (pinCLK T =? pin T) = false) by (apply Z.eqb_neq; congruence).
  assert (Hneq' : (pin T =? pinCLK T) = false) by (apply Z.eqb_neq; congruence).
  (* the levels after each store *)
  assert (H1 : dat st1 = bit /\ clk st1 = false).
  { destruct Htr1 as [-> ->]. unfold m1, v1, rd. destruct bit.
    - rewrite !level_set by done.
      rewrite Z.eqb_refl, Hneq, <- Hc0, Hclk. done.
    - rewrite !level_clear by done.
      rewrite Z.eqb_refl, Hneq, <- Hc0, Hclk. done. }
  assert (H2 : dat st2 = bit /\ clk st2 = true).
  { destruct H1 as [H1d H1c]. destruct Htr1 as [Hd1 Hc1].
    destruct Htr2 as [-> ->]. unfold m2, v2, rc.
    rewrite !level_set by done.
    rewrite Z.eqb_refl, Hneq', <- Hd1, H1d. done. }
  assert (H3 : clk st3 = false).
  { destruct Htr3 as [_ ->]. unfold m3, v3, rc.
    rewrite level_clear by done. by rewrite Z.eqb_refl. }
  assert (Ha3 : armed st3 = false)
    by (unfold st3, st2, st1; by repeat apply apa102_armed).
  destruct (IH (to_uint8 (Z.shiftl data 1))
              {| this := this s; mcu := m3 |} st3 Hs Htr3)
    as (s' & evs & st' & Hrun & Htrace & Hrecv & Htr' & Hrest' & Hv).
  { by apply apa102_rest. }
  exists s', ([Store rd v1; Store rc v2; Store rc v3] ++ evs), st'.
  split; [exact Hrun|].
  split.
  { rewrite Htrace. cbn [mcu]. unfold m3, m2, m1, store_io, emit.
    cbn [trace with_io]. by rewrite <- !app_assoc. }
  split.
  { cbn [pulse_bits app receive]. rewrite <- Hbit. fold st1 st2 st3.
    rewrite Hrecv.
    rewrite !apa102_store by done. fold st1 st2 st3.
    destruct H1 as [H1d H1c]. destruct H2 as [H2d H2c].
    rewrite Hclk, H1c, H2c, H2d, H3. done. }
  split; [exact Htr'|]. split; [exact Hrest'|exact Hv].
Qed.

Lemma on_wire_nil : on_wire T [] = [].
Proof. unfold on_wire. by destruct (transmits T). Qed.

Lemma on_wire_app bytes bytes' :
  on_wire T (bytes ++ bytes') = on_wire T bytes ++ on_wire T bytes'.
Proof.
  unfold on_wire. destruct (transmits T); [apply bind_app | done].
Qed.

Lemma on_wire_cons v bytes :
  on_wire T (v :: bytes) = on_wire T [v] ++ on_wire T bytes.
Proof. apply (on_wire_app [v]). Qed.

Lemma bits_of_one data : [data] ≫= bits_of_byte = bits_of_byte data.
Proof. apply app_nil_r. Qed.

(** The byte handed to the SPI unit. *)
Lemma puts_spi_transfer data :
  chip T = LED_APA102_SPI ->
  puts (bits_of_byte data) (update_mcu (emit (SpiTransfer data)) : M unit).
Proof.
  intros Hchip s st _ Htr HP. eexists _, [SpiTransfer data], st.
  split; [reflexivity|]. split; [reflexivity|].
  split.
  { cbn [receive line_step]. unfold line_bits. rewrite Hchip.
    by rewrite app_nil_r. }
  split; [done|]. split; [done|].
  exists (sregSave (this s)). simpl. by rewrite with_sregSave_id.
Qed.

Lemma puts_sendRaw data : puts (on_wire T [data]) (sendRaw T data).
Proof.
  unfold sendRaw.
  apply steps_isr_is; intros low.
  apply (steps_seq T I I_stable rest rest rest [] _).
  { apply steps_silent_when, steps_save_and_cli. }
  apply (steps_bits_eq T I (on_wire T [data] ++ [])); [apply app_nil_r|].
  apply steps_seq with (Q := rest); [done| |].
  - unfold on_wire, transmits. rewrite bits_of_one.
    destruct (chip T) eqn:Hchip;
      try (rewrite <- pulse_bits_byte; apply puts_ws_pulses;
           unfold self_clocked, chip_is_APA102; by rewrite Hchip).
    + rewrite <- pulse_bits_byte. by apply puts_apa102_bits.
    + destruct (MLED_USE_SPI T); [|apply steps_ret].
      by apply puts_spi_transfer.
  - apply steps_isr_is; intros low'.
    apply steps_silent_when, steps_restore_sreg.
Qed.

Lemma send_data_stored {A} bright color (k : list (option Z) -> M A) s :
  order_ok T ->
  (data ← store_data [None; None; None]
             (Z.land (Z.shiftr (order T) 4) 3) (fade8R color bright);
   data ← store_data data (Z.land (Z.shiftr (order T) 2) 3)
             (fade8G color bright);
   data ← store_data data (Z.land (order T) 3) (fade8B color bright);
   k data) s
  = k [Some (channel_byte T bright color 0);
       Some (channel_byte T bright color 1);
       Some (channel_byte T bright color 2)] s.
Proof.
  intros ((HR & HG & HB) & Hrg & Hrb & Hgb).
  unfold channel_byte.
  change (Z.land (Z.shiftr (order T) 4) 3) with (posR T).
  change (Z.land (Z.shiftr (order T) 2) 3) with (posG T).
  change (Z.land (order T) 3) with (posB T).
  assert (posR T = 0 \/ posR T = 1 \/ posR T = 2) as [Hr|[Hr|Hr]] by lia;
  assert (posG T = 0 \/ posG T = 1 \/ posG T = 2) as [Hg|[Hg|Hg]] by lia;
  assert (posB T = 0 \/ posB T = 1 \/ posB T = 2) as [Hb|[Hb|Hb]] by lia;
  try lia; rewrite Hr, Hg, Hb; reflexivity.
Qed.

Lemma puts_send bright color w :
  order_ok T -> (forall o, I o -> _showBright o = bright) ->
  puts (on_wire T (pixel_bytes T bright color w)) (send T color w).
Proof.
  intros Horder Hbright. unfold send.
  remember (on_wire T (pixel_bytes T bright color w)) as bits eqn:Hbits.
  apply steps_gets_at. intros s0 Hs0. rewrite (Hbright _ Hs0).
  eapply steps_ext; [intros s; apply (send_data_stored bright color _ s Horder)|].
  apply steps_isr_is; intros aver.
  apply (steps_seq T I I_stable rest rest rest [] _).
  { apply steps_silent_when, steps_save_and_cli. }
  subst bits. unfold pixel_bytes. rewrite !on_wire_app.
  apply steps_seq with (Q := rest); [done| |].
  { destruct (chip_is_APA102 T); [apply puts_sendRaw|].
    rewrite on_wire_nil. apply steps_ret. }
  apply steps_seq with (Q := rest); [done| |].
  { cbn [for_each].
    rewrite (on_wire_cons (channel_byte T bright color 0)).
    rewrite (on_wire_cons (channel_byte T bright color 1)).
    apply steps_seq with (Q := rest);
      [done|apply steps_deref, puts_sendRaw|].
    apply steps_seq with (Q := rest);
      [done|apply steps_deref, puts_sendRaw|].
    apply (steps_bits_eq T I (on_wire T [channel_byte T bright color 2] ++ []));
      [apply app_nil_r|].
    apply steps_seq with (Q := rest);
      [done|apply steps_deref, puts_sendRaw|apply steps_ret]. }
  apply (steps_bits_eq T I
           ((if CHIP4COLOR T then on_wire T [to_uint8 (fade8 w bright)]
             else []) ++ [])).
  { rewrite app_nil_r. destruct (CHIP4COLOR T); [done|apply eq_sym, on_wire_nil]. }
  apply steps_seq with (Q := rest); [done| |].
  { destruct (CHIP4COLOR T); [apply puts_sendRaw | apply steps_ret]. }
  apply steps_isr_is; intros aver'.
  apply (steps_seq T I I_stable rest rest rest [] _).
  { apply steps_silent_when, steps_restore_sreg. }
  apply steps_isr_is; intros high.
  apply steps_silent_when. by apply steps_silent.
Qed.

Lemma puts_guard_frame :
  puts (on_wire T (if chip_is_APA102 T then [0; 0; 0; 0] else []))
       (when (chip_is_APA102 T) (repeat_n 4 (sendRaw T 0)) : M unit).
Proof.
  destruct (chip_is_APA102 T); [|rewrite on_wire_nil; apply steps_ret].
  apply (steps_bits_eq T I (mjoin (replicate 4 (on_wire T [0])))).
  { unfold on_wire. by destruct (transmits T). }
  apply steps_repeat_n; [done|]. apply puts_sendRaw.
Qed.

Lemma puts_end_ :
  puts (on_wire T (if chip_is_APA102 T then [0; 0; 0; 0] else []))
       (end_ T).
Proof.
  unfold end_.
  remember (on_wire T (if chip_is_APA102 T then [0; 0; 0; 0] else []))
    as bits eqn:Hbits.
  apply steps_isr_is; intros high.
  apply (steps_seq T I I_stable rest rest rest [] _).
  { apply steps_silent_when, steps_restore_sreg. }
  apply (steps_bits_eq T I (bits ++ [])); [apply app_nil_r|].
  apply steps_seq with (Q := rest); [done|subst bits; apply puts_guard_frame|].
  apply steps_silent_when. by apply steps_silent.
Qed.

(** What [begin] leaves to do once the masks and the brightness are
    latched. *)
Lemma puts_begin_rest :
  puts (on_wire T (if chip_is_APA102 T then [0; 0; 0; 0] else []))
       (high ← isr_is CLI_HIGH;
        when high save_and_cli ;;
        when (MLED_USE_SPI T) (update_mcu (emit SpiBeginTransaction)) ;;
        when (chip_is_APA102 T) (repeat_n 4 (sendRaw T 0)) : M unit).
Proof.
  remember (on_wire T (if chip_is_APA102 T then [0; 0; 0; 0] else []))
    as bits eqn:Hbits.
  apply steps_isr_is; intros high.
  apply (steps_seq T I I_stable rest rest rest [] _).
  { apply steps_silent_when, steps_save_and_cli. }
  apply (steps_seq T I I_stable rest rest rest [] _).
  { apply steps_silent_when. by apply steps_silent. }
  subst bits. apply puts_guard_frame.
Qed.

End Transmit.

Section ShowFrame.
Context {mData : Type} `{CU : ColorUtility mData}.
Variable T : Template.
Local Abbreviation state := (@state mData).
Local Abbreviation M := (@MicroLED.M mData).
Implicit Types (s : state) (o : microLED mData).

Lemma with_masks_id o : with_masks (_mask_h o) (_mask_l o) o = o.
Proof. by destruct o. Qed.

(** [wired] reads the port pointers and the pin masks only. *)
Lemma wired_ext o o' :
  (_dat_port o', _dat_mask o', _clk_port o', _clk_mask o')
  = (_dat_port o, _dat_mask o, _clk_port o, _clk_mask o) ->
  wired T o -> wired T o'.
Proof.
  intros [= Hdp Hdm Hcp Hcm]. unfold wired, ports_ready.
  by rewrite Hdp, Hdm, Hcp, Hcm.
Qed.

Lemma streaming_object_stable v o :
  streaming_object T o -> streaming_object T (with_sregSave v o).
Proof. intros H. exact H. Qed.

(** The two bytes [begin()] latches: the port with the data pin high, and
    with the data pin low. *)
Lemma begin_latches o d :
  wired T o ->
  latched T (with_masks (to_uint8 (Z.lor (_dat_mask o) d))
                        (to_uint8 (Z.land (Z.lnot (_dat_mask o)) d)) o).
Proof.
  intros (_ & Hdat & _) Hself. cbn [_mask_h _mask_l with_masks].
  destruct Hdat as (Hvalid & _ & ->).
  { unfold self_clocked, chip_is_APA102 in Hself. intros Hchip.
    by rewrite Hchip in Hself. }
  pose proof (pin_bit_nonneg _ Hvalid) as Hb.
  rewrite Z.lor_comm, Z.land_comm.
  rewrite lor_bit_byte, land_lnot_bit_byte by lia.
  rewrite Z.eqb_refl. by rewrite orb_true_r, andb_false_r.
Qed.

Lemma begin_run s :
  wired T (this s) -> line_idle T (mcu s) ->
  exists s1, begin T s = Some (tt, s1) /\
    received T (mcu s) (mcu s1)
      (on_wire T (if chip_is_APA102 T then [0; 0; 0; 0] else [])) /\
    line_idle T (mcu s1) /\ streaming_object T (this s1) /\
    exists h l v,
      this s1 = with_sregSave v
                  (with_showBright (_bright (this s))
                     (with_masks h l (this s))).
Proof.
  intros Hwired Hidle.
  assert (Hrest : forall h l,
    latched T (with_masks h l (this s)) ->
    exists s1,
    (high ← isr_is CLI_HIGH;
     when high save_and_cli ;;
     when (MLED_USE_SPI T) (update_mcu (emit SpiBeginTransaction)) ;;
     when (chip_is_APA102 T) (repeat_n 4 (sendRaw T 0)))
      {| this := with_showBright (_bright (this s)) (with_masks h l (this s));
         mcu := mcu s |} = Some (tt, s1) /\
    received T (mcu s) (mcu s1)
      (on_wire T (if chip_is_APA102 T then [0; 0; 0; 0] else [])) /\
    line_idle T (mcu s1) /\
    exists v,
      this s1 = with_sregSave v
                  (with_showBright (_bright (this s))
                     (with_masks h l (this s)))).
  { intros h l Hlatched.
    apply (puts_run T (streaming_object T) _ _
             {| this := with_showBright (_bright (this s))
                          (with_masks h l (this s));
                mcu := mcu s |}
             (puts_begin_rest T (streaming_object T) streaming_object_stable
                (fun o H => proj1 H) (fun o H => proj2 H))).
    - split; [|exact Hlatched].
      apply (wired_ext (this s)); [reflexivity|exact Hwired].
    - exact Hidle. }
  assert (Hobject : forall h l v,
    latched T (with_masks h l (this s)) ->
    streaming_object T
      (with_sregSave v (with_showBright (_bright (this s))
                          (with_masks h l (this s))))).
  { intros h l v Hlatched. split; [|exact Hlatched].
    apply (wired_ext (this s)); [reflexivity|exact Hwired]. }
  unfold begin. destruct (pin T =? MLED_NO_CLOCK) eqn:Hpin.
  - assert (Hlatched : latched T (with_masks (_mask_h (this s))
                                             (_mask_l (this s)) (this s))).
    { intros Hself. destruct Hwired as (_ & Hdat & _).
      destruct Hdat as (Hvalid & _).
      { unfold self_clocked, chip_is_APA102 in Hself. intros Hchip.
        by rewrite Hchip in Hself. }
      apply Z.eqb_eq in Hpin. unfold pin_valid, MLED_NO_CLOCK in *. lia. }
    destruct (Hrest _ _ Hlatched) as (s1 & Hrun & Hrecv & Hidle1 & v & Ho).
    exists s1. rewrite with_masks_id in Hrun.
    split; [exact Hrun|]. split; [exact Hrecv|]. split; [exact Hidle1|].
    split; [rewrite Ho; by apply Hobject|by eauto].
  - pose proof Hwired as ((Hdat & _) & _).
    destruct Hdat as [r Hr].
    { left. by apply Z.eqb_neq. }
    pose proof (begin_latches (this s) (io (mcu s) r) Hwired) as Hlatched.
    destruct (Hrest _ _ Hlatched) as (s1 & Hrun & Hrecv & Hidle1 & v & Ho).
    exists s1. split.
    { rewrite <- Hrun.
      cbv [mbind M_bind when negb gets read_io deref mret M_ret update_this].
      simpl. rewrite Hr. reflexivity. }
    split; [exact Hrecv|]. split; [exact Hidle1|].
    split; [rewrite Ho; by apply Hobject|by eauto].
Qed.


Section Loop.
Variables (b : Z) (L : list mData) (W : list Z).
Hypothesis Horder : order_ok T.

(** The object during the loop of [show]. *)
Local Abbreviation looping :=
  (fun o => streaming_object T o /\ _showBright o = b /\ leds o = L /\
            white o = W).

Lemma looping_stable v o : looping o -> looping (with_sregSave v o).
Proof. intros H. exact H. Qed.

Lemma looping_wired o : looping o -> wired T o.
Proof. by intros [[H _] _]. Qed.

Lemma looping_latched o : looping o -> latched T o.
Proof. by intros [[_ H] _]. Qed.

Lemma looping_bright o : looping o -> _showBright o = b.
Proof. by intros (_ & H & _). Qed.

Lemma drop_cons_inv {A} (l : list A) k x l' :
  drop k l = x :: l' -> l !! k = Some x /\ drop (S k) l = l'.
Proof.
  intros H.
  assert (Hx : l !! k = Some x).
  { rewrite <- (Nat.add_0_r k), <- lookup_drop, H. done. }
  split; [done|]. rewrite (drop_S l x k Hx) in H. by injection H.
Qed.

Lemma show_loop_plain l : forall k,
  l = drop k L ->
  puts T looping
    (on_wire T (mjoin (zip_with (pixel_bytes T b) l (replicate (length l) 0))))
    (for_each (seqZ (Z.of_nat k) (Z.of_nat (length l)))
       (fun i =>
          o ← gets this;
          c ← deref (leds o !! Z.to_nat i);
          send T c 0) : M unit).
Proof.
  induction l as [|c l IH]; intros k Hl.
  { rewrite on_wire_nil. apply steps_ret. }
  symmetry in Hl. apply drop_cons_inv in Hl as [Hc Hl].
  rewrite seqZ_cons by (simpl; lia).
  cbn [for_each length replicate zip_with mjoin list_join].
  rewrite on_wire_app.
  apply steps_seq with (Q := at_rest T); [apply looping_stable| |].
  - apply steps_gets_at. intros s (_ & _ & HL & _). rewrite HL.
    rewrite Nat2Z.id, Hc. apply steps_deref.
    apply puts_send;
      [apply looping_stable|apply looping_wired|apply looping_latched
      |done|apply looping_bright].
  - replace (Z.succ (Z.of_nat k)) with (Z.of_nat (S k)) by lia.
    replace (Z.pred (Z.of_nat (S (length l)))) with (Z.of_nat (length l))
      by lia.
    apply IH. by symmetry.
Qed.

Lemma show_loop_white l : forall w k,
  l = drop k L -> w = drop k W -> length w = length l ->
  puts T looping
    (on_wire T (mjoin (zip_with (pixel_bytes T b) l w)))
    (for_each (seqZ (Z.of_nat k) (Z.of_nat (length l)))
       (fun i =>
          o ← gets this;
          c ← deref (leds o !! Z.to_nat i);
          w ← deref (white o !! Z.to_nat i);
          send T c w) : M unit).
Proof.
  induction l as [|c l IH]; intros w k Hl Hw Hlen.
  { rewrite on_wire_nil. apply steps_ret. }
  destruct w as [|w0 w]; [done|].
  symmetry in Hl. apply drop_cons_inv in Hl as [Hc Hl].
  symmetry in Hw. apply drop_cons_inv in Hw as [Hw0 Hw].
  rewrite seqZ_cons by (simpl; lia).
  cbn [for_each length zip_with mjoin list_join].
  rewrite on_wire_app.
  apply steps_seq with (Q := at_rest T); [apply looping_stable| |].
  - apply steps_gets_at. intros s (_ & _ & HL & HW). rewrite HL, HW.
    rewrite Nat2Z.id, Hc, Hw0. apply steps_deref, steps_deref.
    apply puts_send;
      [apply looping_stable|apply looping_wired|apply looping_latched
      |done|apply looping_bright].
  - replace (Z.succ (Z.of_nat k)) with (Z.of_nat (S k)) by lia.
    replace (Z.pred (Z.of_nat (S (length l)))) with (Z.of_nat (length l))
      by lia.
    apply IH; [by symmetry|by symmetry|]. simpl in Hlen. lia.
Qed.

End Loop.

End ShowFrame.

Section OutputTheorems.
Context {mData : Type} `{CU : ColorUtility mData}.
Variable T : Template.
Local Abbreviation state := (@state mData).
Implicit Types (s : state) (o : microLED mData).

(** X7.  [sendRaw(data)], on an object that holds the register and the
    mask of the pins the strip is wired to, with the two bytes of the
    pulse code latched as [begin()] latches them and the line at rest (the
    data line of a self-clocked strip low, the clock line of a clocked one
    low), completes.  From the stores it makes to the output registers the
    strip takes in the eight bits of [data], most significant first: as a
    long pulse for a 1 and a short one for a 0 on a self-clocked line, as
    the data level at each rising clock edge on [LED_APA102]; on
    [LED_APA102_SPI] the byte goes to the SPI unit, and without
    [MLED_USE_SPI] nothing is sent.  The lines are at rest again, and of
    the object nothing but [sregSave] changes. *)
Theorem sendRaw_puts_byte s data :
  wired T (this s) -> latched T (this s) -> line_idle T (mcu s) ->
  is_uint8 data ->
  exists s', sendRaw T data s = Some (tt, s') /\
    received T (mcu s) (mcu s')
      (if transmits T then bits_of_byte data else []) /\
    line_idle T (mcu s') /\
    byte_of_bits (bits_of_byte data) = data /\
    exists v, this s' = with_sregSave v (this s).
Proof.
  intros Hwired Hlatched Hidle Hdata.
  destruct (puts_run T (streaming_object T) _ _ s
              (puts_sendRaw T (streaming_object T) (streaming_object_stable T)
                 (fun o H => proj1 H) (fun o H => proj2 H) data)
              (conj Hwired Hlatched) Hidle)
    as (s' & Hrun & Hrecv & Hidle' & Hv).
  exists s'. split; [done|]. split; [|split; [done|split; [|done]]].
  - unfold on_wire in Hrecv. by rewrite bits_of_one in Hrecv.
  - by apply byte_of_bits_of_byte.
Qed.

(** X8.  [send(color, white)], under the same conditions and with the
    three positions of [order] a permutation of 0, 1, 2, completes; the
    strip takes in the start byte 255 (clocked chips only), then the three
    channels faded by [_showBright], each at the position [order] gives
    it, then the faded white byte (four-colour chip only). *)
Theorem send_puts_pixel s color w :
  wired T (this s) -> latched T (this s) -> line_idle T (mcu s) ->
  order_ok T ->
  exists s', send T color w s = Some (tt, s') /\
    received T (mcu s) (mcu s')
      (on_wire T (pixel_bytes T (_showBright (this s)) color w)) /\
    line_idle T (mcu s') /\
    exists v, this s' = with_sregSave v (this s).
Proof.
  intros Hwired Hlatched Hidle Horder.
  pose (I := fun o => streaming_object T o /\
                      _showBright o = _showBright (this s)).
  apply (puts_run T I _ _ s
           (puts_send T I (fun v o H => H)
              (fun o H => proj1 (proj1 H)) (fun o H => proj2 (proj1 H))
              (_showBright (this s)) color w Horder (fun o H => proj2 H)));
    [|exact Hidle].
  by split.
Qed.

(** X9.  [show()] on an object wired as [init()] leaves it, with the
    lines at rest, a permutation as [order], a buffer of [amount] pixels
    (and as many white bytes on the four-colour chip), completes whenever
    the brightness to transmit at is defined: [_bright] with no budget
    set, the limiter's result otherwise.  From the stores to the output
    registers the strip takes in one frame: every pixel in index order,
    each as [send] puts it, between the start and end frames of the
    clocked chips; the lines are at rest again. *)
Theorem show_puts_frame s b :
  wired T (this s) -> line_idle T (mcu s) -> order_ok T ->
  Z.of_nat (length (leds (this s))) = amount T ->
  (CHIP4COLOR T = true -> length (white (this s)) = length (leds (this s))) ->
  show_brightness T (this s) = Some b ->
  exists s', show T s = Some (tt, s') /\
    received T (mcu s) (mcu s')
      (on_wire T (frame_bytes T b (leds (this s)) (whites_of T (this s)))) /\
    line_idle T (mcu s').
Proof.
  intros Hwired Hidle Horder Hlen Hwhite Hb.
  destruct (begin_run T s Hwired Hidle)
    as (s1 & Hbegin & Hrecv1 & Hidle1 & Hobj1 & h & l & v & Ho1).
  set (o := this s) in *.
  (* the limiter *)
  set (s2 := {| this := with_showBright b (this s1); mcu := mcu s1 |}).
  assert (Hlim :
    (ma ← gets (fun s => _maxCurrent (this s));
     when (negb (ma =? 0) && negb (amount T =? 0))
       (o ← gets this;
        b ← deref (correctBright T o (_bright o));
        update_this (with_showBright b))) s1 = Some (tt, s2)).
  { cbv [mbind M_bind gets]. unfold show_brightness in Hb.
    replace (_maxCurrent (this s1)) with (_maxCurrent o) by (rewrite Ho1; reflexivity).
    destruct (negb (_maxCurrent o =? 0) && negb (amount T =? 0)).
    - cbv [when mbind M_bind gets].
      rewrite (correctBright_view T (this s1) o) by (rewrite Ho1; reflexivity).
      replace (_bright (this s1)) with (_bright o) by (rewrite Ho1; reflexivity).
      rewrite Hb. reflexivity.
    - injection Hb as <-. cbv [when mret M_ret]. unfold s2.
      destruct s1 as [o1 m1]. simpl in *. rewrite Ho1. reflexivity. }
  (* the loop and the end frame *)
  pose (looping := fun o' : microLED mData =>
          streaming_object T o' /\ _showBright o' = b /\
          leds o' = leds o /\ white o' = white o).
  assert (Hs2 : looping (this s2)).
  { unfold looping, s2. cbn [this]. split.
    - destruct Hobj1 as [Hw1 Hl1]. split.
      + apply (wired_ext T (this s1)); [reflexivity|exact Hw1].
      + exact Hl1.
    - rewrite Ho1. repeat split. }
  assert (Hloop : puts T looping
            (on_wire T (mjoin (zip_with (pixel_bytes T b) (leds o)
                                        (whites_of T o))))
            (if CHIP4COLOR T
             then for_each (seqZ 0 (amount T))
                    (fun i =>
                       o ← gets this;
                       c ← deref (leds o !! Z.to_nat i);
                       w ← deref (white o !! Z.to_nat i);
                       send T c w)
             else for_each (seqZ 0 (amount T))
                    (fun i =>
                       o ← gets this;
                       c ← deref (leds o !! Z.to_nat i);
                       send T c 0))).
  { unfold whites_of. rewrite <- Hlen.
    destruct (CHIP4COLOR T).
    - apply (show_loop_white T b (leds o) (white o) Horder (leds o) (white o) 0%nat);
        [done|done|by apply Hwhite].
    - apply (show_loop_plain T b (leds o) (white o) Horder (leds o) 0%nat).
      done. }
  assert (Hend := puts_end_ T looping (looping_stable T b (leds o) (white o))
                    (looping_wired T b (leds o) (white o))
                    (looping_latched T b (leds o) (white o))).
  destruct (puts_run T looping _ _ s2
              (steps_seq T looping (looping_stable T b (leds o) (white o))
                 _ _ _ _ _ _ _ Hloop Hend) Hs2 Hidle1)
    as (s' & Hrun & Hrecv & Hidle' & _).
  exists s'. split; [|split; [|exact Hidle']].
  - unfold show. cbv [mbind M_bind] in *. rewrite Hbegin.
    cbv [gets] in *.
    destruct (when _ _ s1) as [[[] s2']|] eqn:Hwhen; [|discriminate].
    injection Hlim as <-. exact Hrun.
  - unfold frame_bytes. rewrite !on_wire_app.
    apply (received_trans T _ (mcu s1)); [exact Hrecv1|exact Hrecv].
Qed.

End OutputTheorems.

(** ** Construction *)

Section Init.
Context {mData : Type} `{CU : ColorUtility mData}.
Variable T : Template.
Local Abbreviation state := (@state mData).
Implicit Types (s : state) (o : microLED mData).

Lemma bind_run {A B} (c : @M mData A) (k : A -> @M mData B) s a s1 :
  c s = Some (a, s1) -> (c ≫= k) s = k a s1.
Proof. intros H. cbv [mbind M_bind]. by rewrite H. Qed.

Lemma bind_none {A B} (c : @M mData A) (k : A -> @M mData B) s :
  c s = None -> (c ≫= k) s = None.
Proof. intros H. cbv [mbind M_bind]. by rewrite H. Qed.

Lemma init_dat_block s p :
  pin_valid p ->
  (mask ← deref (digitalPinToBitMask p);
   port ← deref (digitalPinToPort p);
   out ← deref (portOutputRegister port);
   ddr ← deref (portModeRegister port);
   update_this (with_dat mask out ddr) ;;
   d ← read_io ddr;
   write_io ddr (to_uint8 (Z.lor d mask))) s
  = Some (tt,
          {| this := with_dat (2 ^ pin_bit p) (Some (pin_out p))
                              (Some (pin_ddr p)) (this s);
             mcu := store_io (pin_ddr p)
                      (to_uint8 (Z.lor (io (mcu s) (pin_ddr p))
                                       (2 ^ pin_bit p)))
                      (mcu s) |}).
Proof.
  intros Hp. destruct (pin_tables p Hp) as (Hm & port & Hport & Hout & Hddr).
  cbv [mbind M_bind]. rewrite Hm, Hport. cbv [deref mret M_ret].
  rewrite Hout, Hddr. reflexivity.
Qed.

Lemma init_clk_block s p :
  pin_valid p ->
  (mask ← deref (digitalPinToBitMask p);
   port ← deref (digitalPinToPort p);
   out ← deref (portOutputRegister port);
   ddr ← deref (portModeRegister port);
   update_this (with_clk mask out ddr) ;;
   d ← read_io ddr;
   write_io ddr (to_uint8 (Z.lor d mask))) s
  = Some (tt,
          {| this := with_clk (2 ^ pin_bit p) (Some (pin_out p))
                              (Some (pin_ddr p)) (this s);
             mcu := store_io (pin_ddr p)
                      (to_uint8 (Z.lor (io (mcu s) (pin_ddr p))
                                       (2 ^ pin_bit p)))
                      (mcu s) |}).
Proof.
  intros Hp. destruct (pin_tables p Hp) as (Hm & port & Hport & Hout & Hddr).
  cbv [mbind M_bind]. rewrite Hm, Hport. cbv [deref mret M_ret].
  rewrite Hout, Hddr. reflexivity.
Qed.

(** The per-chip constants and the SPI start: no register, no pin field. *)
Lemma init_tail_run s :
  exists max idle tr,
    (match chip T with
     | LED_WS2811 => update_this (with_oneLed 46 2000)
     | LED_WS2812 => update_this (with_oneLed 30 660)
     | LED_WS2813 => update_this (with_oneLed 30 1266)
     | LED_WS2815 => update_this (with_oneLed 10 1753)
     | LED_WS2818 => update_this (with_oneLed 46 1900)
     | LED_WS6812 | LED_APA102 | LED_APA102_SPI => mret tt
     end ;;
     when (MLED_USE_SPI T) (update_mcu (emit SpiBegin))) s
    = Some (tt, {| this := with_oneLed max idle (this s);
                   mcu := {| SREG := SREG (mcu s); io := io (mcu s);
                             trace := tr |} |}).
Proof.
  destruct s as [o [sreg io tr]].
  destruct (chip T), (MLED_USE_SPI T); cbv [mbind M_bind when]; simpl;
    try (by eexists _, _, _);
    exists (oneLedMax o), (oneLedIdle o); eexists; by destruct o.
Qed.


Lemma init_run s :
  pin_valid (pin T) -> pinCLK T = MLED_NO_CLOCK \/ pin_valid (pinCLK T) ->
  exists max idle tr o2 io2,
    init T s = Some (tt, {| this := with_oneLed max idle o2;
                            mcu := {| SREG := SREG (mcu s); io := io2;
                                      trace := tr |} |}) /\
    (let o1 := with_dat (2 ^ pin_bit (pin T)) (Some (pin_out (pin T)))
                        (Some (pin_ddr (pin T))) (this s) in
     let io1 r := if ioreg_eqb (pin_ddr (pin T)) r
                  then to_uint8 (Z.lor (io (mcu s) (pin_ddr (pin T)))
                                       (2 ^ pin_bit (pin T)))
                  else io (mcu s) r in
     (pinCLK T = MLED_NO_CLOCK /\ o2 = o1 /\ forall r, io2 r = io1 r) \/
     (pin_valid (pinCLK T) /\
      o2 = with_clk (2 ^ pin_bit (pinCLK T)) (Some (pin_out (pinCLK T)))
                    (Some (pin_ddr (pinCLK T))) o1 /\
      forall r, io2 r = if ioreg_eqb (pin_ddr (pinCLK T)) r
                        then to_uint8 (Z.lor (io1 (pin_ddr (pinCLK T)))
                                             (2 ^ pin_bit (pinCLK T)))
                        else io1 r)).
Proof.
  intros Hpin Hclk. unfold init.
  assert (Hp : negb (pin T =? MLED_NO_CLOCK) = true).
  { apply negb_true_iff, Z.eqb_neq. unfold pin_valid, MLED_NO_CLOCK in *. lia. }
  rewrite Hp. cbn [when].
  erewrite bind_run; [|apply (init_dat_block s (pin T) Hpin)].
  destruct Hclk as [Hc|Hc].
  - replace (negb (pinCLK T =? MLED_NO_CLOCK)) with false
      by (rewrite Hc; reflexivity).
    cbn [when]. erewrite bind_run; [|reflexivity].
    match goal with
    | |- context [_ ?s1 = Some _] =>
        destruct (init_tail_run s1) as (max & idle & tr & Htail)
    end.
    exists max, idle, tr. eexists _, _. split; [exact Htail|].
    left. split; [done|]. split; [done|]. intros r. reflexivity.
  - assert (Hq : negb (pinCLK T =? MLED_NO_CLOCK) = true).
    { apply negb_true_iff, Z.eqb_neq.
      unfold pin_valid, MLED_NO_CLOCK in *. lia. }
    rewrite Hq. cbn [when].
    erewrite bind_run; [|apply (init_clk_block _ (pinCLK T) Hc)].
    match goal with
    | |- context [_ ?s1 = Some _] =>
        destruct (init_tail_run s1) as (max & idle & tr & Htail)
    end.
    exists max, idle, tr. eexists _, _. split; [exact Htail|].
    right. split; [done|]. split; [done|]. intros r. reflexivity.
Qed.

End Init.

Section ConstructionTheorems.
Context {mData : Type} `{CU : ColorUtility mData}.
Variable T : Template.
Local Abbreviation state := (@state mData).
Implicit Types (s : state) (o : microLED mData).

Lemma drives_none r k : drives MLED_NO_CLOCK r k = false.
Proof. reflexivity. Qed.

Lemma drives_valid p r k :
  pin_valid p ->
  drives p r k = ioreg_eqb (pin_ddr p) r && (pin_bit p =? k).
Proof.
  unfold pin_valid, drives. intros Hp.
  replace (0 <=? p) with true by (symmetry; apply Z.leb_le; lia).
  replace (p <=? 19) with true by (symmetry; apply Z.leb_le; lia).
  done.
Qed.

(** X10.  [init()] with the data pin one of the pins 0..19 of the tables
    of [myarduino.h] (and the clock pin one of them, or [MLED_NO_CLOCK])
    completes.  It records the output register, the direction register
    and the bit mask of each pin: port D for pins 0..7, port B for 8..13,
    port C for 14..19.  In the direction registers it sets the bits of the
    two pins and no other; it writes no output register, leaves [SREG],
    the buffers, the brightness, the budget and the geometry alone, and
    leaves the port pointers valid for the transmit code. *)
Theorem init_configures_pins s :
  pin_valid (pin T) -> pinCLK T = MLED_NO_CLOCK \/ pin_valid (pinCLK T) ->
  exists s', init T s = Some (tt, s') /\
    _dat_port (this s') = Some (pin_out (pin T)) /\
    _dat_ddr (this s') = Some (pin_ddr (pin T)) /\
    _dat_mask (this s') = 2 ^ pin_bit (pin T) /\
    (pin_valid (pinCLK T) ->
     _clk_port (this s') = Some (pin_out (pinCLK T)) /\
     _clk_ddr (this s') = Some (pin_ddr (pinCLK T)) /\
     _clk_mask (this s') = 2 ^ pin_bit (pinCLK T)) /\
    (forall r k, 0 <= k < 8 ->
       Z.testbit (io (mcu s') r) k =
       Z.testbit (io (mcu s) r) k
       || drives (pin T) r k || drives (pinCLK T) r k) /\
    SREG (mcu s') = SREG (mcu s) /\
    user_state (this s') = user_state (this s) /\
    geometry (this s') = geometry (this s) /\
    ((chip T = LED_APA102 -> pin_valid (pinCLK T)) ->
     ports_ready T (this s')).
Proof.
  intros Hpin Hclk.
  destruct (init_run T s Hpin Hclk)
    as (max & idle & tr & o2 & io2 & Hrun & Hcases).
  eexists. split; [exact Hrun|]. cbn [this mcu SREG io].
  pose proof (pin_bit_nonneg _ Hpin) as Hb1.
  destruct Hcases as [(Hc & -> & Hio)|(Hc & -> & Hio)].
  - split; [done|]. split; [done|]. split; [done|].
    split. { intros Hv. unfold pin_valid, MLED_NO_CLOCK in *. lia. }
    split.
    { intros r k Hk. rewrite Hio, Hc, drives_none, orb_false_r.
      rewrite drives_valid by done.
      destruct (ioreg_eqb (pin_ddr (pin T)) r) eqn:Hr.
      - apply ioreg_eqb_eq in Hr as <-. rewrite lor_bit_byte by lia. done.
      - by rewrite orb_false_r. }
    split; [done|]. split; [done|]. split; [done|].
    intros Hapa. split; [by eexists|].
    intros Hchip. specialize (Hapa Hchip).
    unfold pin_valid, MLED_NO_CLOCK in *. lia.
  - pose proof (pin_bit_nonneg _ Hc) as Hb2.
    split; [done|]. split; [done|]. split; [done|].
    split; [done|].
    split.
    { intros r k Hk. rewrite Hio. rewrite !drives_valid by done.
      destruct (ioreg_eqb (pin_ddr (pinCLK T)) r) eqn:Hr2.
      - apply ioreg_eqb_eq in Hr2 as <-. rewrite lor_bit_byte by lia.
        destruct (ioreg_eqb (pin_ddr (pin T)) (pin_ddr (pinCLK T))) eqn:Hr1.
        + apply ioreg_eqb_eq in Hr1. rewrite Hr1.
          rewrite lor_bit_byte by lia. done.
        + by rewrite orb_false_r.
      - rewrite orb_false_r.
        destruct (ioreg_eqb (pin_ddr (pin T)) r) eqn:Hr1.
        + apply ioreg_eqb_eq in Hr1 as <-. rewrite lor_bit_byte by lia. done.
        + by rewrite orb_false_r. }
    split; [done|]. split; [done|]. split; [done|].
    intros _. split; [by eexists|]. intros _. by eexists.
Qed.

(** X11.  [init()] with a pin number, data or clock, that is neither
    [MLED_NO_CLOCK] nor one of 0..19 reads past the end of the pin tables:
    the construction has no defined behaviour. *)
Theorem init_pin_outside_tables s p :
  p = pin T \/ p = pinCLK T ->
  p <> MLED_NO_CLOCK -> ~ pin_valid p ->
  init T s = None.
Proof.
  intros Hp Hne Hout.
  assert (Hblock : forall (f : Z -> option ioreg -> option ioreg
                               -> microLED mData -> microLED mData) s0,
    when (negb (p =? MLED_NO_CLOCK))
      (mask ← deref (digitalPinToBitMask p);
       port ← deref (digitalPinToPort p);
       out ← deref (portOutputRegister port);
       ddr ← deref (portModeRegister port);
       update_this (f mask out ddr) ;;
       d ← read_io ddr;
       write_io ddr (to_uint8 (Z.lor d mask))) s0 = None).
  { intros f s0.
    replace (negb (p =? MLED_NO_CLOCK)) with true
      by (symmetry; by apply negb_true_iff, Z.eqb_neq).
    cbv [when mbind M_bind]. by rewrite pin_tables_outside. }
  unfold init. destruct Hp as [->| ->].
  - apply bind_none, Hblock.
  - match goal with
    | |- (?c ≫= _) s = None => destruct (c s) as [[[] s1]|] eqn:H1
    end.
    + erewrite bind_run by exact H1. apply bind_none, Hblock.
    + apply bind_none, H1.
Qed.

Lemma init_keeps_settings :
  keeps (of_object (fun o : microLED mData =>
                      (_bright o, _showBright o, _maxCurrent o, isr o,
                       leds o, white o)))
        (init T).
Proof. unfold init. destruct (chip T); auto 40 with respects. Qed.

(** X12.  An object built by the constructor without arguments has
    brightness 50, no current budget (so [show] transmits at brightness
    50), the interrupt policy of the template, width and height 0; on it
    [set(x, y, color)] changes nothing, whatever the coordinates. *)
Theorem microLED_strip_defaults s u s' :
  microLED_strip T s = Some (u, s') ->
  let o := this s' in
  _bright o = 50 /\ _maxCurrent o = 0 /\ isr o = def_isr T /\
  _width o = 0 /\ _height o = 0 /\
  show_brightness T o = Some 50 /\
  leds o = leds (this s) /\
  forall x y color, set_xy T o x y color = Stored o.
Proof.
  unfold microLED_strip. intros H.
  apply bind_inv in H as (sreg & s0 & Hg & H). injection Hg as <- <-.
  apply bind_inv in H as ([] & s1 & Hupd & H). injection Hupd as <-.
  pose proof (init_keeps_settings _ _ _ H) as Hset.
  pose proof (init_keeps_geometry T _ _ _ H) as Hgeo.
  unfold same, of_object in Hset, Hgeo. cbn [this] in Hset, Hgeo.
  injection Hset as Hb Hsb Hma Hisr Hleds Hwhite.
  injection Hgeo as Hw Hh Hcfg Hty.
  cbn in Hb, Hma, Hisr, Hleds, Hw, Hh.
  cbv zeta. split; [done|]. split; [done|]. split; [done|].
  split; [done|]. split; [done|].
  split. { unfold show_brightness. by rewrite Hma, Hb. }
  split; [done|].
  intros x y color. apply set_xy_outside. rewrite Hw, Hh. lia.
Qed.

Lemma ddr_not_out p q r :
  ioreg_eqb (pin_ddr p) (pin_out q) = false /\
  (ioreg_eqb (pin_ddr p) r = true -> ioreg_eqb r (pin_out q) = false).
Proof.
  unfold pin_ddr, pin_out.
  destruct (p <? 8), (p <? 14), (q <? 8), (q <? 14), r; by split.
Qed.

(** X26.  [init()], with the data pin one of the pins 0..19 (and, on
    [LED_APA102], the clock pin another one of them), leaves the object
    wired for the transmit code: it holds the output register and the
    mask of the pins of the template.  It stores to direction registers
    only: the level of every pin is as before, so lines at rest stay at
    rest and the first [show()] finds them so. *)
Theorem init_wires s :
  pin_valid (pin T) ->
  pinCLK T = MLED_NO_CLOCK \/ pin_valid (pinCLK T) ->
  (chip T = LED_APA102 -> pin_valid (pinCLK T) /\ pin T <> pinCLK T) ->
  exists s', init T s = Some (tt, s') /\
    wired T (this s') /\
    (forall p, pin_level (mcu s') p = pin_level (mcu s) p) /\
    (line_idle T (mcu s) -> line_idle T (mcu s')).
Proof.
  intros Hpin Hclk Hapa.
  destruct (init_run T s Hpin Hclk)
    as (max & idle & tr & o2 & io2 & Hrun & Hcases).
  eexists. split; [exact Hrun|]. cbn [this mcu].
  assert (Hlevels : forall p,
            pin_level {| SREG := SREG (mcu s); io := io2; trace := tr |} p
            = pin_level (mcu s) p).
  { intros p. unfold pin_level. cbn [io].
    destruct Hcases as [(_ & _ & Hio)|(_ & _ & Hio)]; rewrite Hio.
    - by rewrite (proj1 (ddr_not_out (pin T) p PORTB)).
    - rewrite (proj1 (ddr_not_out (pinCLK T) p PORTB)).
      by rewrite (proj1 (ddr_not_out (pin T) p PORTB)). }
  split; [|split; [exact Hlevels|]].
  - destruct Hcases as [(Hc & -> & _)|(Hc & -> & _)].
    + split; [|split].
      * split; [intros _; by eexists|].
        intros Hchip. destruct (Hapa Hchip) as [Hv _].
        unfold pin_valid, MLED_NO_CLOCK in *. lia.
      * intros _. split; [exact Hpin|]. split; reflexivity.
      * intros Hchip. destruct (Hapa Hchip) as [Hv _].
        unfold pin_valid, MLED_NO_CLOCK in *. lia.
    + split; [|split].
      * split; intros _; by eexists.
      * intros _. split; [exact Hpin|]. split; reflexivity.
      * intros Hchip. destruct (Hapa Hchip) as [Hv Hne].
        split; [exact Hv|]. split; [exact Hne|]. split; reflexivity.
  - unfold line_idle, line_of. by rewrite !Hlevels.
Qed.

End ConstructionTheorems.

Section StreamTheorems.
Context {mData : Type} `{CU : ColorUtility mData}.
Variable T : Template.
Local Abbreviation state := (@state mData).
Implicit Types (s : state) (o : microLED mData).

Lemma on_wire_bind {A} (f : A -> list Z) (l : list A) :
  l ≫= (fun a => on_wire T (f a)) = on_wire T (l ≫= f).
Proof.
  induction l as [|a l IH]; [symmetry; apply on_wire_nil|].
  cbn [mbind list_bind]. rewrite on_wire_app. f_equal. exact IH.
Qed.

(** X23.  Streaming by hand, [begin()], then any sequence of [send] and
    [sendRaw] calls, then [end()], on an object wired as [init()] leaves
    it, with the lines at rest and a permutation as [order], completes.
    From the stores to the output registers the strip takes in the start
    frame of the clocked chips, the bytes of each call in order, each
    pixel faded by [_bright], and the end frame; the lines are at rest
    again, and the buffers, the brightness and the budget are left
    alone. *)
Theorem stream_puts_ops s ops :
  wired T (this s) -> line_idle T (mcu s) -> order_ok T ->
  exists s',
    (begin T ;; run_stream T ops ;; end_ T) s = Some (tt, s') /\
    received T (mcu s) (mcu s')
      (on_wire T
         ((if chip_is_APA102 T then [0; 0; 0; 0] else [])
          ++ (ops ≫= op_bytes T (_bright (this s)))
          ++ (if chip_is_APA102 T then [0; 0; 0; 0] else []))) /\
    line_idle T (mcu s') /\
    user_state (this s') = user_state (this s).
Proof.
  intros Hwired Hidle Horder.
  destruct (begin_run T s Hwired Hidle)
    as (s1 & Hbegin & Hrecv1 & Hidle1 & Hobj1 & h & l & v & Ho1).
  pose (I := fun o' : microLED mData =>
          streaming_object T o' /\ _showBright o' = _bright (this s)).
  assert (HI : forall v o, I o -> I (with_sregSave v o)) by (intros ? ? H; exact H).
  assert (HIw : forall o, I o -> wired T o) by (intros ? H; exact (proj1 (proj1 H))).
  assert (HIl : forall o, I o -> latched T o)
    by (intros ? H; exact (proj2 (proj1 H))).
  assert (HIb : forall o, I o -> _showBright o = _bright (this s))
    by (intros ? H; exact (proj2 H)).
  assert (Hs1 : I (this s1)).
  { unfold I. split; [exact Hobj1|]. rewrite Ho1. reflexivity. }
  assert (Hops : puts T I (on_wire T (ops ≫= op_bytes T (_bright (this s))))
                   (run_stream T ops)).
  { rewrite <- on_wire_bind. unfold run_stream. apply steps_for_each; [done|].
    intros [color w|data] _; cbn [op_bytes].
    - by apply puts_send.
    - by apply puts_sendRaw. }
  destruct (puts_run T I _ _ s1
              (steps_seq T I HI _ _ _ _ _ _ _ Hops (puts_end_ T I HI HIw HIl))
              Hs1 Hidle1)
    as (s' & Hrun & Hrecv & Hidle' & v' & Ho').
  exists s'. split; [|split; [|split]].
  - erewrite bind_run by exact Hbegin. exact Hrun.
  - rewrite !on_wire_app.
    apply (received_trans T _ (mcu s1)); [exact Hrecv1|exact Hrecv].
  - exact Hidle'.
  - rewrite Ho', Ho1. reflexivity.
Qed.

End StreamTheorems.

(** ** The alternate backend: colours, brightness, clearing *)

Section ColorFacts.
Import Adafruit AdafruitOps.

Lemma to_uint32_small z : 0 <= z < 4294967296 -> to_uint32 z = z.
Proof. intros. unfold to_uint32, to_unsigned. apply Z.mod_small. lia. Qed.

Lemma to_uint8_small z : 0 <= z <= 255 -> to_uint8 z = z.
Proof. intros. unfold to_uint8, to_unsigned. apply Z.mod_small. lia. Qed.

Lemma lor_join a b k :
  0 <= k -> 0 <= b < 2 ^ k -> Z.lor (a * 2 ^ k) b = a * 2 ^ k + b.
Proof.
  intros Hk Hb.
  assert (Hland : Z.land (a * 2 ^ k) b = 0).
  { apply Z.bits_inj'. intros n Hn. rewrite Z.land_spec, Z.bits_0.
    destruct (Z_lt_le_dec n k).
    - by rewrite Z.mul_pow2_bits_low.
    - rewrite <- (Z.mod_small b (2 ^ k)) by lia.
      rewrite Z.mod_pow2_bits_high by lia. apply andb_false_r. }
  by rewrite <- Z.lxor_lor, <- Z.add_nocarry_lxor.
Qed.

Lemma land_high_byte x :
  0 <= x < 65536 -> Z.land x 65280 = x / 256 * 256.
Proof.
  intros Hx. apply Z.bits_inj'. intros n Hn.
  rewrite Z.land_spec.
  change 65280 with (Z.ones 8 * 2 ^ 8). change 256 with (2 ^ 8).
  rewrite !Z.mul_pow2_bits by lia.
  destruct (Z_lt_le_dec n 8).
  - rewrite (Z.testbit_neg_r (Z.ones 8) (n - 8)) by lia.
    rewrite (Z.testbit_neg_r (x / 2 ^ 8) (n - 8)) by lia. apply andb_false_r.
  - rewrite Z.testbit_ones by lia.
    rewrite Z.div_pow2_bits by lia.
    replace (n - 8 + 8) with n by lia.
    destruct (Z_lt_le_dec n 16).
    + replace (0 <=? n - 8) with true by (symmetry; apply Z.leb_le; lia).
      replace (n - 8 <? 8) with true by (symmetry; apply Z.ltb_lt; lia).
      apply andb_true_r.
    + rewrite <- (Z.mod_small x (2 ^ 16)) by (change (2 ^ 16) with 65536; lia).
      by rewrite Z.mod_pow2_bits_high by lia.
Qed.

(** A channel byte taken to saturation [sat] and value [val]. *)
Lemma scaled_channel c sat val :
  0 <= c <= 255 -> is_uint8 sat -> is_uint8 val ->
  let x := to_uint32
             (to_uint16 (Z.shiftr (to_uint16 (c * to_uint16 (to_int (1 + sat))))
                                  8
                         + to_uint8 (to_int (255 - sat)))
              * to_uint32 (to_int (1 + val))) in
  0 <= x <= 65280 /\ 0 <= x / 256 <= val /\
  (c = 255 -> x / 256 = val) /\
  (sat = 255 -> c = 0 -> x = 0) /\
  (sat = 0 -> x / 256 = val).
Proof.
  unfold is_uint8. intros Hc Hs Hv.
  rewrite !to_int_small by (unfold is_int; lia).
  rewrite (to_uint16_small (1 + sat)) by lia.
  rewrite (to_uint8_small (255 - sat)) by lia.
  rewrite (to_uint32_small (1 + val)) by lia.
  rewrite (to_uint16_small (c * (1 + sat))) by nia.
  rewrite Z.shiftr_div_pow2 by lia. change (2 ^ 8) with 256.
  assert (Hq : 0 <= c * (1 + sat) / 256 <= sat).
  { split; [apply Z.div_pos; nia|].
    apply Z.lt_succ_r, Z.div_lt_upper_bound; nia. }
  set (q := c * (1 + sat) / 256) in *.
  rewrite (to_uint16_small (q + (255 - sat))) by lia.
  rewrite to_uint32_small by nia.
  cbv zeta.
  assert (Hy : forall y, 0 <= y <= 255 ->
            0 <= y * (1 + val) / 256 <= val).
  { intros y Hy. split; [apply Z.div_pos; nia|].
    apply Z.lt_succ_r, Z.div_lt_upper_bound; nia. }
  split; [nia|]. split; [apply Hy; lia|].
  assert (H255 : 255 * (1 + val) / 256 = val).
  { symmetry. apply (Z.div_unique _ _ _ (255 - val)); lia. }
  split; [|split].
  - intros ->.
    assert (q = sat).
    { unfold q. symmetry. apply (Z.div_unique _ _ _ (255 - sat)); lia. }
    replace (q + (255 - sat)) with 255 by lia. exact H255.
  - intros -> ->. unfold q.
    replace (0 * (1 + 255) / 256) with 0 by reflexivity. lia.
  - intros ->.
    assert (q = 0) by (unfold q; apply Z.div_small; lia).
    replace (q + (255 - 0)) with 255 by lia. exact H255.
Qed.

Lemma hue_rescaled hue :
  is_uint16 hue ->
  0 <= to_uint16 (to_long (to_long (hue * 1530) + 32768) ÷ 65536) <= 1530.
Proof.
  unfold is_uint16. intros Hh.
  rewrite (to_long_small (hue * 1530)) by lia.
  rewrite to_long_small by lia.
  rewrite Z.quot_div_nonneg by lia.
  assert (0 <= (hue * 1530 + 32768) / 65536 <= 1530).
  { split; [apply Z.div_pos; lia|].
    apply Z.lt_succ_r, Z.div_lt_upper_bound; lia. }
  rewrite to_uint16_small by lia. done.
Qed.

(** The three channels packed as [0x00RRGGBB]. *)
Lemma packed_channels R G B :
  0 <= R <= 65280 -> 0 <= G <= 65280 -> 0 <= B <= 65280 ->
  let c := Z.lor (Z.lor (to_uint32 (Z.shiftl (Z.land R 65280) 8))
                        (Z.land G 65280))
                 (Z.shiftr B 8) in
  0 <= c < 2 ^ 24 /\
  red c = R / 256 /\ green c = G / 256 /\ blue c = B / 256.
Proof.
  intros HR HG HB.
  rewrite !land_high_byte by lia.
  rewrite Z.shiftl_mul_pow2, Z.shiftr_div_pow2 by lia.
  change (2 ^ 8) with 256.
  assert (Hr : 0 <= R / 256 <= 255)
    by (split; [apply Z.div_pos|apply Z.lt_succ_r, Z.div_lt_upper_bound]; lia).
  assert (Hg : 0 <= G / 256 <= 255)
    by (split; [apply Z.div_pos|apply Z.lt_succ_r, Z.div_lt_upper_bound]; lia).
  assert (Hb : 0 <= B / 256 <= 255)
    by (split; [apply Z.div_pos|apply Z.lt_succ_r, Z.div_lt_upper_bound]; lia).
  set (r := R / 256) in *. set (g := G / 256) in *. set (b := B / 256) in *.
  rewrite to_uint32_small by lia.
  replace (r * 256 * 256) with (r * 2 ^ 16)
    by (change (2 ^ 16) with 65536; lia).
  rewrite (lor_join r (g * 256) 16)
    by (change (2 ^ 16) with 65536; lia).
  replace (r * 2 ^ 16 + g * 256) with ((r * 256 + g) * 2 ^ 8)
    by (change (2 ^ 8) with 256; change (2 ^ 16) with 65536; lia).
  rewrite (lor_join (r * 256 + g) b 8) by (change (2 ^ 8) with 256; lia).
  change (2 ^ 8) with 256. change (2 ^ 24) with 16777216.
  cbv zeta. unfold red, green, blue.
  rewrite !Z.shiftr_div_pow2 by lia.
  change 255 with (Z.ones 8). rewrite !Z.land_ones by lia.
  change (2 ^ 8) with 256. change (2 ^ 16) with 65536.
  split; [lia|].
  assert (Hd16 : ((r * 256 + g) * 256 + b) / 65536 = r).
  { symmetry. apply (Z.div_unique _ _ _ (g * 256 + b)); lia. }
  assert (Hd8 : ((r * 256 + g) * 256 + b) / 256 = r * 256 + g).
  { symmetry. apply (Z.div_unique _ _ _ b); lia. }
  rewrite Hd16, Hd8.
  split; [apply Z.mod_small; lia|].
  split.
  - symmetry. apply (Z.mod_unique _ _ r); lia.
  - symmetry. apply (Z.mod_unique _ _ (r * 256 + g)); lia.
Qed.


(** The base colour on the hexcone: three bytes, one of them 255, one 0. *)
Lemma hexcone_channels h :
  0 <= h <= 1530 ->
  let '(r, g, b) :=
    if h <? 510 then
      if h <? 255 then (255, to_uint8 h, 0)
      else (to_uint8 (to_uint16 (510 - h)), 255, 0)
    else if h <? 1020 then
      if h <? 765 then (0, 255, to_uint8 (to_uint16 (h - 510)))
      else (0, to_uint8 (to_uint16 (1020 - h)), 255)
    else if h <? 1530 then
      if h <? 1275 then (to_uint8 (to_uint16 (h - 1020)), 0, 255)
      else (255, 0, to_uint8 (to_uint16 (1530 - h)))
    else (255, 0, 0) in
  (0 <= r <= 255 /\ 0 <= g <= 255 /\ 0 <= b <= 255) /\
  (r = 255 \/ g = 255 \/ b = 255) /\ (r = 0 \/ g = 0 \/ b = 0).
Proof.
  intros Hh.
  destruct (Z.ltb_spec h 510); [destruct (Z.ltb_spec h 255)|
    destruct (Z.ltb_spec h 1020); [destruct (Z.ltb_spec h 765)|
      destruct (Z.ltb_spec h 1530); [destruct (Z.ltb_spec h 1275)|]]];
  rewrite ?to_uint16_small by lia; rewrite ?to_uint8_small by lia; lia.
Qed.

(** X13.  [ColorHSV(hue, sat, val)] returns a packed [0x00RRGGBB] colour
    whose white byte is 0, whose channels are at most [val] and whose
    largest channel is exactly [val]; at saturation 255 the smallest
    channel is 0 (a pure hue), at saturation 0 the three channels are
    equal (a grey of level [val]). *)
Theorem ColorHSV_value_and_saturation hue sat val :
  is_uint16 hue -> is_uint8 sat -> is_uint8 val ->
  let c := ColorHSV hue sat val in
  0 <= c < 2 ^ 24 /\
  (0 <= red c <= val /\ 0 <= green c <= val /\ 0 <= blue c <= val) /\
  (red c = val \/ green c = val \/ blue c = val) /\
  (sat = 255 -> red c = 0 \/ green c = 0 \/ blue c = 0) /\
  (sat = 0 -> red c = val /\ green c = val /\ blue c = val).
Proof.
  intros Hhue Hsat Hval. unfold ColorHSV.
  pose proof (hue_rescaled hue Hhue) as Hh.
  set (h := to_uint16 (to_long (to_long (hue * 1530) + 32768) ÷ 65536)) in *.
  pose proof (hexcone_channels h Hh) as Hcone.
  destruct (if h <? 510 then _ else _) as [[r g] b].
  destruct Hcone as ((Hr & Hg & Hb) & Hmax & Hmin).
  destruct (scaled_channel r sat val Hr Hsat Hval)
    as (HR & HRv & HR255 & HR0 & HRgrey).
  destruct (scaled_channel g sat val Hg Hsat Hval)
    as (HG & HGv & HG255 & HG0 & HGgrey).
  destruct (scaled_channel b sat val Hb Hsat Hval)
    as (HB & HBv & HB255 & HB0 & HBgrey).
  cbv zeta in *.
  destruct (packed_channels _ _ _ HR HG HB) as (Hc & -> & -> & ->).
  split; [exact Hc|]. split; [done|]. split; [|split].
  - destruct Hmax as [->| [->| ->]]; auto.
  - intros ->.
    destruct Hmin as [->| [->| ->]];
      [left; rewrite HR0 by done
      |right; left; rewrite HG0 by done
      |right; right; rewrite HB0 by done]; reflexivity.
  - intros ->. auto.
Qed.

End ColorFacts.

Section PixelStore.
Import Adafruit AdafruitOps.
Implicit Types (s : AdafruitMyPixel) (l : list Z).

Lemma with_pixels_twice px px' s :
  with_pixels px' (with_pixels px s) = with_pixels px' s.
Proof. reflexivity. Qed.

Lemma with_pixels_id s l : pixels s = Some l -> with_pixels (Some l) s = s.
Proof. intros H. destruct s. cbn in *. by subst. Qed.

Lemma store_in_block l i v :
  0 <= i < Z.of_nat (length l) ->
  store (Some l) i v = Some (<[Z.to_nat i := v]> l).
Proof.
  intros Hi. unfold store. cbn [mbind option_bind].
  replace (0 <=? i) with true by (symmetry; apply Z.leb_le; lia).
  replace (i <? Z.of_nat (length l)) with true
    by (symmetry; apply Z.ltb_lt; lia).
  done.
Qed.

Lemma load_in_block l i : 0 <= i -> load (Some l) i = l !! Z.to_nat i.
Proof.
  intros Hi. unfold load. cbn [mbind option_bind].
  replace (i <? 0) with false by (symmetry; apply Z.ltb_ge; lia). done.
Qed.

(** The two bytes [setPixelColor] stores depend on the arguments, the
    brightness and the colour order, not on the pixel or on the block. *)
Lemma setPixelColor_bytes s r g b :
  exists hi lo,
    (brightness s = 0 ->
     hi = to_uint8 (Z.shiftr
            (to_uint16
               (Z.lor
                  (to_uint16
                     (Z.lor
                        (to_uint16
                           (to_int (Z.shiftl (Z.land (channel_at s 0 r g b) 248)
                                             8)))
                        (to_int (Z.shiftl (Z.land (channel_at s 1 r g b) 248)
                                          3))))
                  (Z.shiftr (Z.land (channel_at s 2 r g b) 248) 2))) 8)) /\
    forall l n,
      0 <= numLEDs s <= 32767 ->
      Z.of_nat (length l) = 2 * numLEDs s -> 0 <= n < numLEDs s ->
      setPixelColor (with_pixels (Some l) s) n r g b
      = Some (with_pixels
                (Some (<[Z.to_nat (2 * n + 1) := lo]>
                         (<[Z.to_nat (2 * n) := hi]> l))) s).
Proof.
  eexists _, _. split; [intros Hb|].
  2:{ intros l n Hcap Hlen Hn. unfold setPixelColor.
      cbn [numLEDs with_pixels brightness pixels rOffset gOffset bOffset].
      replace (n <? numLEDs s) with true by (symmetry; apply Z.ltb_lt; lia).
      rewrite (to_uint16_small (n * 2)) by lia.
      rewrite store_in_block by lia. cbn [mbind option_bind].
      rewrite store_in_block by (rewrite length_insert; lia).
      cbn [mbind option_bind].
      replace (n * 2) with (2 * n) by lia.
      unfold channel_at.
      cbn [numLEDs with_pixels brightness pixels rOffset gOffset bOffset].
      reflexivity. }
  cbv beta. rewrite Hb. cbn [Z.eqb]. unfold channel_at. reflexivity.
Qed.

Lemma getPixelColor_bytes s l n :
  pixels s = Some l -> 0 <= numLEDs s <= 32767 -> 0 <= n < numLEDs s ->
  getPixelColor s n =
    p0 ← l !! Z.to_nat (2 * n);
    p1 ← l !! Z.to_nat (2 * n + 1);
    let r := Z.land p0 248 in
    let g :=
      to_uint8 (Z.lor (Z.shiftl (Z.land p0 3) 6) (Z.shiftr (Z.land p1 224) 2))
    in
    let b := to_uint8 (Z.shiftl p1 3) in
    if brightness s =? 0
    then Some (Z.lor (Z.lor (Z.shiftl r 16) (Z.shiftl g 8)) b)
    else Some (Z.lor (Z.lor (Z.shiftl (r ÷ brightness s) 16)
                            (Z.shiftl (g ÷ brightness s) 8))
                     (b ÷ brightness s)).
Proof.
  intros Hl Hcap Hn. unfold getPixelColor.
  replace (n >=? numLEDs s) with false
    by (symmetry; rewrite Z.geb_leb; apply Z.leb_gt; lia).
  rewrite (to_uint16_small (n * 2)) by lia. rewrite Hl.
  rewrite !load_in_block by lia.
  replace (n * 2) with (2 * n) by lia.
  destruct (l !! Z.to_nat (2 * n)) as [p0|]; [|done].
  cbn [mbind option_bind].
  destruct (l !! Z.to_nat (2 * n + 1)) as [p1|]; [|done].
  cbn [mbind option_bind]. by destruct (brightness s =? 0).
Qed.

(** A pixel reads the same in two strips that agree on its two bytes. *)
Lemma getPixelColor_agree s l l' n :
  pixels s = Some l -> 0 <= numLEDs s <= 32767 -> 0 <= n < numLEDs s ->
  l' !! Z.to_nat (2 * n) = l !! Z.to_nat (2 * n) ->
  l' !! Z.to_nat (2 * n + 1) = l !! Z.to_nat (2 * n + 1) ->
  getPixelColor (with_pixels (Some l') s) n = getPixelColor s n.
Proof.
  intros Hl Hcap Hn H0 H1.
  rewrite (getPixelColor_bytes s l n) by done.
  rewrite (getPixelColor_bytes (with_pixels (Some l') s) l' n) by done.
  rewrite H0, H1. reflexivity.
Qed.

End PixelStore.

Section PixelTheorems.
Import Adafruit AdafruitOps.
Implicit Types (s : AdafruitMyPixel) (l : list Z).

Lemma setBrightness_field s b :
  is_uint8 b -> setBrightness s b = with_brightness ((b + 1) mod 256) s.
Proof.
  unfold is_uint8. intros Hb. unfold setBrightness.
  rewrite to_int_small by (unfold is_int; lia).
  change (to_uint8 (b + 1)) with ((b + 1) mod 256).
  destruct (Z.eqb_spec ((b + 1) mod 256) (brightness s)) as [Heq|Hne];
    [|done].
  cbn [negb]. rewrite Heq. by destruct s.
Qed.

(** X14.  [getBrightness()] returns what [setBrightness(b)] was given, for
    every byte [b]; the stored value is [b + 1] wrapped to a byte, so 255
    is stored as 0, the value that turns scaling off; [setBrightness]
    changes nothing else: the pixel data is not rescaled. *)
Theorem setBrightness_getBrightness s b :
  is_uint8 b ->
  getBrightness (setBrightness s b) = b /\
  brightness (setBrightness s b) = (b + 1) mod 256 /\
  setBrightness s b = with_brightness ((b + 1) mod 256) s.
Proof.
  intros Hb. rewrite (setBrightness_field s b Hb). split; [|done].
  unfold is_uint8 in Hb.
  unfold getBrightness. cbn [brightness with_brightness].
  destruct (Z.eq_dec b 255) as [->|Hne]; [reflexivity|].
  rewrite (Z.mod_small (b + 1)) by lia.
  rewrite to_int_small by (unfold is_int; lia).
  replace (b + 1 - 1) with b by lia. apply to_uint8_small. lia.
Qed.

Lemma clear_loop l : forall k acc,
  (k + length l <= length acc)%nat ->
  foldl (fun a i => px ← a; px' ← store px i 0; Some (Some px'))
        (Some (Some acc)) (seqZ (Z.of_nat k) (Z.of_nat (length l)))
  = Some (Some (take k acc ++ replicate (length l) 0
                ++ drop (k + length l) acc)).
Proof.
  induction l as [|x l IH]; intros k acc Hlen.
  - cbn. rewrite Nat.add_0_r, take_drop. done.
  - cbn [length] in Hlen.
    rewrite seqZ_cons by (cbn [length]; lia). cbn [foldl mbind option_bind].
    rewrite store_in_block by lia. cbn [mbind option_bind].
    replace (Z.succ (Z.of_nat k)) with (Z.of_nat (S k)) by lia.
    replace (Z.pred (Z.of_nat (length (x :: l)))) with (Z.of_nat (length l))
      by (cbn [length]; lia).
    rewrite IH by (rewrite length_insert; cbn [length] in Hlen; lia).
    do 2 f_equal. rewrite Nat2Z.id. cbn [length].
    rewrite (take_S_r _ k 0) by (apply list_lookup_insert_eq; lia).
    rewrite take_insert_ge by lia.
    rewrite drop_insert_lt by lia.
    replace (S k + length l)%nat with (k + S (length l))%nat by lia.
    rewrite <- app_assoc. done.
Qed.

(** X15.  [clear()] on a strip whose block holds [numBytes] = 2 * numLEDs
    bytes completes and leaves every pixel reading 0, at any brightness;
    nothing but the block changes. *)
Theorem clear_every_pixel s :
  block_ok s -> numBytes s = 2 * numLEDs s ->
  exists s', clear s = Some s' /\ same_shape s s' /\
    forall n, 0 <= n -> getPixelColor s' n = Some 0.
Proof.
  intros (Hcap & l & Hl & Hlen) Hbytes.
  assert (Hrun : clear s
                 = Some (with_pixels (Some (replicate (length l) 0)) s)).
  { unfold clear. rewrite Hl, Hbytes, <- Hlen.
    pose proof (clear_loop l 0 l ltac:(lia)) as Hloop.
    change (Z.of_nat 0) with 0 in Hloop.
    change (0 + length l)%nat with (length l) in Hloop.
    rewrite Hloop. cbn [mbind option_bind].
    rewrite take_0, drop_all, app_nil_r. done. }
  eexists. split; [exact Hrun|]. split.
  { exists l, (replicate (length l) 0). split; [done|]. split; [done|].
    apply length_replicate. }
  intros n Hn.
  destruct (Z_lt_le_dec n (numLEDs s)) as [Hlt|Hge].
  - rewrite (getPixelColor_bytes _ (replicate (length l) 0) n) by done.
    rewrite !lookup_replicate_2 by lia.
    cbn [mbind option_bind brightness with_pixels].
    destruct (brightness s =? 0); reflexivity.
  - unfold getPixelColor. cbn [numLEDs with_pixels].
    by replace (n >=? numLEDs s) with true by (symmetry; apply Z.geb_le; lia).
Qed.

(** X16.  [setPixelColor(n, r, g, b)] on a strip whose block holds two
    bytes per pixel completes, and every pixel other than [n] reads as
    before. *)
Theorem setPixelColor_other_pixels s n r g b :
  block_ok s -> 0 <= n ->
  exists s', setPixelColor s n r g b = Some s' /\ same_shape s s' /\
    forall m, 0 <= m -> m <> n -> getPixelColor s' m = getPixelColor s m.
Proof.
  intros Hok Hn. pose proof Hok as (Hcap & l & Hl & Hlen).
  destruct (Z_lt_le_dec n (numLEDs s)) as [Hlt|Hge].
  - destruct (setPixelColor_bytes s r g b) as (hi & lo & _ & Hset).
    specialize (Hset l n Hcap Hlen ltac:(lia)).
    rewrite (with_pixels_id s l Hl) in Hset.
    eexists. split; [exact Hset|]. split.
    { eexists _, _. split; [exact Hl|]. split; [done|].
      by rewrite !length_insert. }
    intros m Hm Hne.
    destruct (Z_lt_le_dec m (numLEDs s)) as [Hmlt|Hmge].
    + apply (getPixelColor_agree s l); try done; try lia;
        rewrite !list_lookup_insert_ne by lia; done.
    + unfold getPixelColor. cbn [numLEDs with_pixels].
      by replace (m >=? numLEDs s) with true
        by (symmetry; apply Z.geb_le; lia).
  - exists s. split.
    + unfold setPixelColor.
      by replace (n <? numLEDs s) with false
        by (symmetry; apply Z.ltb_ge; lia).
    + split; [by apply same_shape_refl|done].
Qed.


Lemma land_248 x : 0 <= x <= 255 -> Z.land x 248 = 8 * (x / 8).
Proof.
  intros Hx.
  assert (Hcases : exists n : nat, x = Z.of_nat n /\ (n < 256)%nat)
    by (exists (Z.to_nat x); lia).
  destruct Hcases as (n & -> & Hn).
  do 256 (destruct n as [|n]; [vm_compute; reflexivity|]). lia.
Qed.

(** The high byte of the packed word keeps the five bits of the first
    channel. *)
Lemma packed_high_byte q0 q1 q2 :
  0 <= q0 < 32 -> 0 <= q1 < 32 -> 0 <= q2 < 32 ->
  Z.land
    (to_uint8
       (Z.shiftr
          (to_uint16
             (Z.lor
                (to_uint16
                   (Z.lor (to_uint16 (to_int (Z.shiftl (8 * q0) 8)))
                          (to_int (Z.shiftl (8 * q1) 3))))
                (Z.shiftr (8 * q2) 2))) 8)) 248
  = 8 * q0.
Proof.
  intros H0 H1 H2.
  assert (Hall : forallb (fun a => forallb (fun b => forallb (fun c =>
            Z.land
              (to_uint8
                 (Z.shiftr
                    (to_uint16
                       (Z.lor
                          (to_uint16
                             (Z.lor (to_uint16 (to_int (Z.shiftl (8 * a) 8)))
                                    (to_int (Z.shiftl (8 * b) 3))))
                          (Z.shiftr (8 * c) 2))) 8)) 248
            =? 8 * a) (seqZ 0 32)) (seqZ 0 32)) (seqZ 0 32) = true)
    by (vm_compute; reflexivity).
  rewrite forallb_forall in Hall.
  specialize (Hall q0 ltac:(apply list_elem_of_In, elem_of_seqZ; lia)).
  rewrite forallb_forall in Hall.
  specialize (Hall q1 ltac:(apply list_elem_of_In, elem_of_seqZ; lia)).
  rewrite forallb_forall in Hall.
  specialize (Hall q2 ltac:(apply list_elem_of_In, elem_of_seqZ; lia)).
  by apply Z.eqb_eq.
Qed.

Lemma rgb_channels r g b :
  0 <= r <= 255 -> 0 <= g <= 255 -> 0 <= b <= 255 ->
  let c := Z.lor (Z.lor (Z.shiftl r 16) (Z.shiftl g 8)) b in
  0 <= c < 2 ^ 24 /\ red c = r /\ green c = g /\ blue c = b.
Proof.
  intros Hr Hg Hb. rewrite !Z.shiftl_mul_pow2 by lia.
  rewrite (lor_join r (g * 2 ^ 8) 16)
    by (change (2 ^ 8) with 256; change (2 ^ 16) with 65536; lia).
  replace (r * 2 ^ 16 + g * 2 ^ 8) with ((r * 256 + g) * 2 ^ 8)
    by (change (2 ^ 8) with 256; change (2 ^ 16) with 65536; lia).
  rewrite (lor_join (r * 256 + g) b 8) by (change (2 ^ 8) with 256; lia).
  change (2 ^ 8) with 256. change (2 ^ 24) with 16777216.
  cbv zeta. unfold red, green, blue.
  rewrite !Z.shiftr_div_pow2 by lia.
  change 255 with (Z.ones 8). rewrite !Z.land_ones by lia.
  change (2 ^ 8) with 256. change (2 ^ 16) with 65536.
  split; [lia|].
  assert (Hd16 : ((r * 256 + g) * 256 + b) / 65536 = r).
  { symmetry. apply (Z.div_unique _ _ _ (g * 256 + b)); lia. }
  assert (Hd8 : ((r * 256 + g) * 256 + b) / 256 = r * 256 + g).
  { symmetry. apply (Z.div_unique _ _ _ b); lia. }
  rewrite Hd16, Hd8.
  split; [apply Z.mod_small; lia|].
  split.
  - symmetry. apply (Z.mod_unique _ _ r); lia.
  - symmetry. apply (Z.mod_unique _ _ (r * 256 + g)); lia.
Qed.

(** X17.  With brightness scaling off, the channel the colour order puts
    at position 0 survives [setPixelColor] followed by [getPixelColor]: it
    comes back as the red byte of the result with its three low bits
    cleared.  (For the two other channels see the store and load bit
    positions.) *)
Theorem first_channel_round_trip s n r g b :
  block_ok s -> brightness s = 0 -> 0 <= n < numLEDs s ->
  is_uint8 r -> is_uint8 g -> is_uint8 b ->
  exists s' c, setPixelColor s n r g b = Some s' /\
    getPixelColor s' n = Some c /\ 0 <= c < 2 ^ 24 /\
    red c = Z.land (channel_at s 0 r g b) 248.
Proof.
  intros (Hcap & l & Hl & Hlen) Hbright Hn Hr Hg Hb.
  destruct (setPixelColor_bytes s r g b) as (hi & lo & Hhi & Hset).
  specialize (Hhi Hbright). specialize (Hset l n Hcap Hlen Hn).
  rewrite (with_pixels_id s l Hl) in Hset.
  eexists _, _. split; [exact Hset|].
  rewrite (getPixelColor_bytes
             (with_pixels (Some (<[Z.to_nat (2 * n + 1):=lo]>
                                   (<[Z.to_nat (2 * n):=hi]> l))) s)
             _ n eq_refl Hcap Hn).
  rewrite (list_lookup_insert_ne _ (Z.to_nat (2 * n + 1)) (Z.to_nat (2 * n)))
    by lia.
  rewrite (list_lookup_insert_eq l) by lia.
  rewrite list_lookup_insert_eq by (rewrite length_insert; lia).
  cbn [mbind option_bind brightness with_pixels]. rewrite Hbright.
  cbn [Z.eqb].
  assert (Hch : forall k, 0 <= channel_at s k r g b <= 255).
  { intros k. unfold channel_at, is_uint8 in *. repeat case_match; lia. }
  assert (Hred : Z.land hi 248 = Z.land (channel_at s 0 r g b) 248).
  { rewrite Hhi. rewrite !(land_248 (channel_at _ _ _ _ _)) by apply Hch.
    apply packed_high_byte;
      (split; [apply Z.div_pos|apply Z.div_lt_upper_bound];
       pose proof (Hch 0); pose proof (Hch 1); pose proof (Hch 2); lia). }
  assert (H248 : 0 <= Z.land hi 248 <= 255).
  { rewrite Hred, land_248 by apply Hch. pose proof (Hch 0).
    assert (0 <= channel_at s 0 r g b / 8 < 32)
      by (split; [apply Z.div_pos|apply Z.div_lt_upper_bound]; lia).
    lia. }
  assert (Hbyte : forall z, 0 <= to_uint8 z <= 255).
  { intros z. unfold to_uint8, to_unsigned. change (2 ^ 8) with 256.
    pose proof (Z.mod_pos_bound z 256 eq_refl). lia. }
  destruct (rgb_channels (Z.land hi 248)
              (to_uint8 (Z.lor (Z.shiftl (Z.land hi 3) 6)
                               (Z.shiftr (Z.land lo 224) 2)))
              (to_uint8 (Z.shiftl lo 3)) H248 (Hbyte _) (Hbyte _))
    as (Hc & Hcr & _ & _).
  split; [reflexivity|]. split; [exact Hc|]. by rewrite Hcr.
Qed.

(** The loop of [fill] as stores into the block. *)
Lemma fill_loop_bytes s c hi lo idx : forall l,
  0 <= numLEDs s <= 32767 -> Z.of_nat (length l) = 2 * numLEDs s ->
  (forall l n,
      Z.of_nat (length l) = 2 * numLEDs s -> 0 <= n < numLEDs s ->
      setPixelColor_c (with_pixels (Some l) s) n c
      = Some (with_pixels
                (Some (<[Z.to_nat (2 * n + 1) := lo]>
                         (<[Z.to_nat (2 * n) := hi]> l))) s)) ->
  (forall i, i ∈ idx -> 0 <= i < numLEDs s) ->
  foldl (fun acc i => s' ← acc; setPixelColor_c s' i c)
        (Some (with_pixels (Some l) s)) idx
  = Some (with_pixels
            (Some (foldl (fun l (pv : Z * Z) => <[Z.to_nat pv.1 := pv.2]> l) l
                         (i ← idx; [(2 * i, hi); (2 * i + 1, lo)]))) s).
Proof.
  induction idx as [|i idx IH]; intros l Hcap Hlen Hset Hidx; [done|].
  cbn [foldl mbind option_bind list_bind app].
  rewrite Hset by (try done; apply Hidx; by left).
  rewrite IH; try done.
  - by rewrite !length_insert.
  - intros i' Hi'. apply Hidx. by right.
Qed.

(** X21.  [fill(c, first, count)] on a strip whose block holds two bytes
    per pixel, with [first] a pixel of the strip and [first + count]
    within 16 bits: pixels [first] up to, not including, the smaller of
    [first + count] and [numLEDs] (up to [numLEDs] when [count] is 0) read
    as after [setPixelColor(n, c)] alone, every other pixel reads as
    before. *)
Theorem fill_fills_range s c first count :
  block_ok s -> 0 <= first < numLEDs s -> 0 <= count ->
  first + count <= 65535 ->
  let last := if count =? 0 then numLEDs s
              else Z.min (first + count) (numLEDs s) in
  exists s', fill s c first count = Some s' /\ same_shape s s' /\
    forall m, 0 <= m ->
      (first <= m < last ->
       exists s1, setPixelColor_c s m c = Some s1 /\
                  getPixelColor s' m = getPixelColor s1 m) /\
      (~ first <= m < last -> getPixelColor s' m = getPixelColor s m).
Proof.
  intros (Hcap & l & Hl & Hlen) Hfirst Hcount Hsum.
  destruct (setPixelColor_bytes s (to_uint8 (Z.shiftr c 16))
              (to_uint8 (Z.shiftr c 8)) (to_uint8 c))
    as (hi & lo & _ & Hset).
  assert (Hset_c : forall l n,
            Z.of_nat (length l) = 2 * numLEDs s -> 0 <= n < numLEDs s ->
            setPixelColor_c (with_pixels (Some l) s) n c
            = Some (with_pixels
                      (Some (<[Z.to_nat (2 * n + 1) := lo]>
                               (<[Z.to_nat (2 * n) := hi]> l))) s)).
  { intros l0 n Hl0 Hn. unfold setPixelColor_c. cbn [numLEDs with_pixels].
    replace (n <? numLEDs s) with true by (symmetry; apply Z.ltb_lt; lia).
    by apply Hset. }
  set (last := if count =? 0 then numLEDs s
               else Z.min (first + count) (numLEDs s)).
  assert (Hlast : first <= last <= numLEDs s).
  { unfold last. destruct (Z.eqb_spec count 0); lia. }
  set (idx := seqZ first (last - first)).
  set (stores := i ← idx; [(2 * i, hi); (2 * i + 1, lo)]).
  set (l' := foldl (fun l (pv : Z * Z) => <[Z.to_nat pv.1 := pv.2]> l) l stores).
  assert (Hrun : fill s c first count = Some (with_pixels (Some l') s)).
  { unfold fill.
    replace (first >=? numLEDs s) with false
      by (symmetry; rewrite Z.geb_leb; apply Z.leb_gt; lia).
    rewrite (to_uint16_small (first + count)) by lia.
    replace (if count =? 0 then numLEDs s
             else if first + count >? numLEDs s then numLEDs s
                  else first + count) with last.
    2:{ unfold last. destruct (count =? 0); [done|].
        rewrite Z.gtb_ltb. destruct (Z.ltb_spec (numLEDs s) (first + count)); lia. }
    rewrite <- (with_pixels_id s l Hl) at 1.
    apply fill_loop_bytes; try done.
    intros i Hi. apply elem_of_seqZ in Hi. lia. }
  assert (Hlen' : length l' = length l) by apply insert_loop_length.
  assert (Hstores : forall pv, pv ∈ stores ->
            exists i, first <= i < last /\
                      (pv = (2 * i, hi) \/ pv = (2 * i + 1, lo))).
  { intros pv Hpv. apply list_elem_of_bind in Hpv as (i & Hpv & Hi).
    apply elem_of_seqZ in Hi. exists i. split; [lia|].
    apply elem_of_cons in Hpv as [->|Hpv]; [by left|].
    apply list_elem_of_singleton in Hpv. by right. }
  exists (with_pixels (Some l') s). split; [exact Hrun|]. split.
  { exists l, l'. by repeat split. }
  intros m Hm. split.
  - intros Hin. eexists. split.
    { rewrite <- (with_pixels_id s l Hl) at 1. apply Hset_c; [done|lia]. }
    assert (Hmem : forall pv, pv = (2 * m, hi) \/ pv = (2 * m + 1, lo) ->
              pv ∈ stores).
    { intros pv Hpv. apply list_elem_of_bind. exists m. split.
      - destruct Hpv as [->| ->]; [by left|right; by left].
      - apply elem_of_seqZ. lia. }
    apply (getPixelColor_agree
             (with_pixels (Some (<[Z.to_nat (2 * m + 1) := lo]>
                                   (<[Z.to_nat (2 * m) := hi]> l))) s)
             _ l' m eq_refl Hcap); [cbn [numLEDs with_pixels]; lia| |].
    + rewrite list_lookup_insert_ne by lia.
      rewrite list_lookup_insert_eq by lia.
      apply (insert_loop_same (fun pv : Z * Z => Z.to_nat pv.1) snd).
      * intros pv Hpv Hpos.
        destruct (Hstores pv Hpv) as (i & Hi & [->| ->]); cbn in *;
          [done|lia].
      * exists (2 * m, hi). split; [apply Hmem; by left|done].
      * lia.
    + rewrite list_lookup_insert_eq by (rewrite length_insert; lia).
      apply (insert_loop_same (fun pv : Z * Z => Z.to_nat pv.1) snd).
      * intros pv Hpv Hpos.
        destruct (Hstores pv Hpv) as (i & Hi & [->| ->]); cbn in *;
          [lia|done].
      * exists (2 * m + 1, lo). split; [apply Hmem; by right|done].
      * lia.
  - intros Hout.
    destruct (Z_lt_le_dec m (numLEDs s)) as [Hlt|Hge].
    + apply (getPixelColor_agree s l l' m Hl Hcap); [lia| |];
        apply insert_loop_untouched; intros pv Hpv Hpos;
        destruct (Hstores pv Hpv) as (i & Hi & [->| ->]); cbn in *; lia.
    + unfold getPixelColor. cbn [numLEDs with_pixels].
      by replace (m >=? numLEDs s) with true
        by (symmetry; apply Z.geb_le; lia).
Qed.


(** A byte scaled by the brightness field 1 is 0. *)
Lemma scaled_by_one c :
  0 <= c <= 255 -> to_uint8 (Z.shiftr (to_uint16 (c * 1)) 8) = 0.
Proof.
  intros Hc. rewrite Z.mul_1_r, to_uint16_small by lia.
  rewrite Z.shiftr_div_pow2 by lia. change (2 ^ 8) with 256.
  rewrite Z.div_small by lia. reflexivity.
Qed.

(** X24.  After [setBrightness(0)] (the brightness field is then 1) every
    [setPixelColor] stores black: whatever the three bytes given, the
    pixel reads back as 0. *)
Theorem brightness_zero_stores_black s n r g b :
  block_ok s -> 0 <= n < numLEDs s ->
  is_uint8 r -> is_uint8 g -> is_uint8 b ->
  exists s', setPixelColor (setBrightness s 0) n r g b = Some s' /\
    same_shape (setBrightness s 0) s' /\
    getPixelColor s' n = Some 0.
Proof.
  intros (Hcap & l & Hl & Hlen) Hn Hr Hg Hb. unfold is_uint8 in *.
  rewrite (setBrightness_field s 0) by (unfold is_uint8; lia).
  change ((0 + 1) mod 256) with 1.
  assert (Hset : setPixelColor (with_brightness 1 s) n r g b
                 = Some (with_pixels
                           (Some (<[Z.to_nat (2 * n + 1) := 0]>
                                    (<[Z.to_nat (2 * n) := 0]> l)))
                           (with_brightness 1 s))).
  { unfold setPixelColor.
    cbn [numLEDs with_brightness brightness pixels Z.eqb].
    replace (n <? numLEDs s) with true by (symmetry; apply Z.ltb_lt; lia).
    rewrite !scaled_by_one by lia.
    rewrite (to_uint16_small (n * 2)) by lia. rewrite Hl.
    unfold channel_at. repeat case_match;
      (rewrite store_in_block by lia; cbn [mbind option_bind];
       rewrite store_in_block by (rewrite length_insert; lia);
       cbn [mbind option_bind];
       replace (n * 2) with (2 * n) by lia; reflexivity). }
  eexists. split; [exact Hset|]. split.
  { eexists _, _. split; [exact Hl|]. split; [reflexivity|].
    by rewrite !length_insert. }
  rewrite (getPixelColor_bytes
             (with_pixels
                (Some (<[Z.to_nat (2 * n + 1) := 0]>
                         (<[Z.to_nat (2 * n) := 0]> l)))
                (with_brightness 1 s))
             _ n eq_refl Hcap Hn).
  rewrite (list_lookup_insert_ne _ (Z.to_nat (2 * n + 1)) (Z.to_nat (2 * n)))
    by lia.
  rewrite (list_lookup_insert_eq l) by lia.
  rewrite list_lookup_insert_eq by (rewrite length_insert; lia).
  reflexivity.
Qed.

End PixelTheorems.

Section ColourOrder.
Import Adafruit AdafruitOps.
Implicit Types (s : AdafruitMyPixel) (cs : list ascii).

Lemma updateType_offsets malloc s t :
  let s' := updateType malloc s t in
  rOffset s' = Z.land (Z.shiftr t 4) 3 /\
  gOffset s' = Z.land (Z.shiftr t 2) 3 /\
  bOffset s' = Z.land t 3 /\
  wOffset s' = Z.land (Z.shiftr t 6) 3.
Proof.
  unfold updateType, updateLength. cbv zeta.
  destruct (pixels s); [|done].
  cbn [numLEDs rOffset wOffset].
  destruct (negb _); [|done].
  by destruct (malloc _).
Qed.

(** A character is at most one of the four letters. *)
Lemma letters_exclusive c :
  let R := is_letter "r" "R" c in
  let G := is_letter "g" "G" c in
  let B := is_letter "b" "B" c in
  let W := is_letter "w" "W" c in
  (R = true -> G = false /\ B = false /\ W = false) /\
  (G = true -> B = false /\ W = false) /\
  (B = true -> W = false).
Proof.
  destruct c as [[] [] [] [] [] [] [] []]; vm_compute; repeat split; congruence.
Qed.

Lemma last_letter_range lower upper cs : forall i j,
  last_letter lower upper cs i = Some j ->
  i <= j < i + Z.of_nat (length cs).
Proof.
  induction cs as [|c cs IH]; intros i j H; [done|].
  cbn [last_letter length] in *.
  destruct (last_letter lower upper cs (i + 1)) as [j'|] eqn:Hrest.
  - injection H as <-. apply IH in Hrest. lia.
  - destruct (is_letter lower upper c); [|done]. injection H as <-. lia.
Qed.

Lemma str2order_loop cs : forall i r g b w,
  0 <= i -> i + Z.of_nat (length cs) <= 128 ->
  foldl str2order_step (r, g, b, w)
        (zip (seqZ i (Z.of_nat (length cs))) cs)
  = (default r (last_letter "r" "R" cs i),
     default g (last_letter "g" "G" cs i),
     default b (last_letter "b" "B" cs i),
     default w (last_letter "w" "W" cs i)).
Proof.
  induction cs as [|c cs IH]; intros i r g b w Hi Hlen; [done|].
  cbn [length] in Hlen.
  rewrite seqZ_cons by (cbn [length]; lia).
  replace (Z.pred (Z.of_nat (length (c :: cs)))) with (Z.of_nat (length cs))
    by (cbn [length]; lia).
  cbn [zip zip_with foldl last_letter].
  unfold str2order_step at 2. cbn [fst snd].
  assert (Hi8 : to_signed 8 i = i).
  { unfold to_signed. change (2 ^ (8 - 1)) with 128. change (2 ^ 8) with 256.
    rewrite Z.mod_small; lia. }
  rewrite Hi8. unfold Z.succ.
  destruct (letters_exclusive c) as (HR & HG & HB). cbv zeta in *.
  destruct (is_letter "r" "R" c) eqn:ER;
    [destruct (HR eq_refl) as (-> & -> & ->)|
     destruct (is_letter "g" "G" c) eqn:EG;
       [destruct (HG eq_refl) as (-> & ->)|
        destruct (is_letter "b" "B" c) eqn:EB;
          [rewrite (HB eq_refl)|
           destruct (is_letter "w" "W" c) eqn:EW]]];
    rewrite IH by lia;
    by destruct (last_letter "r" "R" cs (i + 1)),
                (last_letter "g" "G" cs (i + 1)),
                (last_letter "b" "B" cs (i + 1)),
                (last_letter "w" "W" cs (i + 1)).
Qed.

Lemma order_fields w r g b :
  0 <= w < 4 -> 0 <= r < 4 -> 0 <= g < 4 -> 0 <= b < 4 ->
  let t := to_uint16
             (Z.lor (Z.lor (Z.lor (to_int (Z.shiftl w 6))
                                  (to_int (Z.shiftl r 4)))
                           (to_int (Z.shiftl (Z.land g 3) 2)))
                    (Z.land b 3)) in
  Z.land (Z.shiftr t 4) 3 = r /\ Z.land (Z.shiftr t 2) 3 = g /\
  Z.land t 3 = b /\ Z.land (Z.shiftr t 6) 3 = w.
Proof.
  intros Hw Hr Hg Hb.
  assert (Hw' : w = 0 \/ w = 1 \/ w = 2 \/ w = 3) by lia.
  assert (Hr' : r = 0 \/ r = 1 \/ r = 2 \/ r = 3) by lia.
  assert (Hg' : g = 0 \/ g = 1 \/ g = 2 \/ g = 3) by lia.
  assert (Hb' : b = 0 \/ b = 1 \/ b = 2 \/ b = 3) by lia.
  destruct Hw' as [->|[->|[->| ->]]], Hr' as [->|[->|[->| ->]]],
           Hg' as [->|[->|[->| ->]]], Hb' as [->|[->|[->| ->]]];
    vm_compute; repeat split.
Qed.

(** X20.  [updateType(str2order(v))] for a string of at most four
    characters stores, as the offset of each of red, green and blue, the
    position in [v] of the last letter naming it, in either case (0 when
    there is none), and as the white offset the position of the last "w"
    or "W", or the red offset when there is none. *)
Theorem str2order_updateType malloc s str :
  let cs := c_string (String.list_ascii_of_string str) in
  (length cs <= 4)%nat ->
  exists t, str2order (Some str) = Some t /\
    let s' := updateType malloc s t in
    let r := default 0 (last_letter "r" "R" cs 0) in
    rOffset s' = r /\
    gOffset s' = default 0 (last_letter "g" "G" cs 0) /\
    bOffset s' = default 0 (last_letter "b" "B" cs 0) /\
    wOffset s' = default r (last_letter "w" "W" cs 0).
Proof.
  cbv zeta. set (cs := c_string (String.list_ascii_of_string str)).
  intros Hlen. unfold str2order. fold cs.
  replace (256 <=? Z.of_nat (length cs)) with false
    by (symmetry; apply Z.leb_gt; lia).
  rewrite str2order_loop by lia.
  assert (Hpos : forall lower upper,
            0 <= default 0 (last_letter lower upper cs 0) < 4).
  { intros lower upper.
    destruct (last_letter lower upper cs 0) as [j|] eqn:Hj; [|cbn; lia].
    apply last_letter_range in Hj. cbn [default from_option id]. lia. }
  pose proof (Hpos "r"%char "R"%char) as Hr.
  pose proof (Hpos "g"%char "G"%char) as Hg.
  pose proof (Hpos "b"%char "B"%char) as Hb.
  set (r := default 0 (last_letter "r" "R" cs 0)) in *.
  set (g := default 0 (last_letter "g" "G" cs 0)) in *.
  set (b := default 0 (last_letter "b" "B" cs 0)) in *.
  assert (Hr3 : to_signed 8 (Z.land r 3) = r).
  { assert (r = 0 \/ r = 1 \/ r = 2 \/ r = 3) as [->|[->|[->| ->]]] by lia;
      reflexivity. }
  cbn [mbind option_bind]. rewrite Hr3.
  set (w := if default (-1) (last_letter "w" "W" cs 0) <? 0 then r
            else default (-1) (last_letter "w" "W" cs 0)).
  assert (Hw : w = default r (last_letter "w" "W" cs 0) /\ 0 <= w < 4).
  { unfold w. destruct (last_letter "w" "W" cs 0) as [j|] eqn:Hj.
    - apply last_letter_range in Hj. cbn [default from_option id].
      replace (j <? 0) with false by (symmetry; apply Z.ltb_ge; lia).
      split; [done|lia].
    - cbn. split; [done|lia]. }
  destruct Hw as [Hw Hw4].
  eexists. split; [reflexivity|].
  destruct (updateType_offsets malloc s
    (to_uint16
       (Z.lor (Z.lor (Z.lor (to_int (Z.shiftl w 6)) (to_int (Z.shiftl r 4)))
                     (to_int (Z.shiftl (Z.land g 3) 2)))
              (Z.land b 3)))) as (-> & -> & -> & ->).
  destruct (order_fields w r g b Hw4 Hr Hg Hb) as (-> & -> & -> & ->).
  by rewrite Hw.
Qed.

End ColourOrder.

Section PixelPin.
Import Adafruit AdafruitOps.

Lemma bit_mask_pow k : 0 <= k < 8 -> bit_mask k = Some (2 ^ k).
Proof.
  intros Hk. unfold bit_mask.
  replace (0 <=? k) with true by (symmetry; apply Z.leb_le; lia).
  replace (k <? 16) with true by (symmetry; apply Z.ltb_lt; lia).
  cbn [andb]. f_equal. rewrite Z.shiftl_1_l.
  apply to_int_small. unfold is_int.
  assert (0 < 2 ^ k <= 2 ^ 7)
    by (split; [apply Z.pow_pos_nonneg|apply Z.pow_le_mono_r]; lia).
  change (2 ^ 7) with 128 in *. lia.
Qed.

Lemma to_uint8_pow k : 0 <= k < 8 -> to_uint8 (2 ^ k) = 2 ^ k.
Proof.
  intros Hk. apply to_uint8_small.
  assert (0 < 2 ^ k <= 2 ^ 7)
    by (split; [apply Z.pow_pos_nonneg|apply Z.pow_le_mono_r]; lia).
  change (2 ^ 7) with 128 in *. lia.
Qed.

Lemma rem_8_pin p : 0 <= p -> Z.rem p 8 = p mod 8 /\ 0 <= p mod 8 < 8.
Proof.
  intros Hp. rewrite Z.rem_mod_nonneg by lia.
  split; [done|]. apply Z.mod_pos_bound. lia.
Qed.

(** [setPin] before [begin()]: the pin, its output register and its mask
    are recorded, no register is touched. *)
Lemma setPin_not_begun s m p :
  begun s = false -> 0 <= p ->
  setPin s m p =
    Some (with_pin p (Some (if p >=? 8 then PORTB else PORTD))
                   (2 ^ (p mod 8)) s, m).
Proof.
  intros Hb Hp. unfold setPin. rewrite Hb. cbn [andb].
  destruct (rem_8_pin p Hp) as [-> Hk].
  rewrite bit_mask_pow by done. cbn [mbind option_bind].
  rewrite to_uint8_pow by done. cbn [begun with_pin]. by rewrite Hb.
Qed.

(** X18.  When the allocation of the constructor fails, the constructor
    for a pin number [p] >= 0 still completes, touching no register, and
    the strip is empty: [numLEDs] and [numBytes] are 0 and [pixels] is the
    null pointer; [clear], every [setPixelColor] and every [fill] then
    complete and change nothing, and [getPixelColor] returns 0. *)
Theorem construct_allocation_failure malloc raw m n p t :
  malloc (to_uint16 (to_uint16 n * 2)) = None -> 0 <= p ->
  exists s, construct malloc raw m n p t = Some (s, m) /\
    numLEDs s = 0 /\ numBytes s = 0 /\ pixels s = None /\
    clear s = Some s /\
    forall k, 0 <= k ->
      (forall r g b, setPixelColor s k r g b = Some s) /\
      (forall c, setPixelColor_c s k c = Some s) /\
      (forall c count, fill s c k count = Some s) /\
      getPixelColor s k = Some 0.
Proof.
  intros Hmalloc Hp. unfold construct, updateLength, updateType.
  cbn [pixels numLEDs]. rewrite Hmalloc. cbv zeta.
  rewrite setPin_not_begun by done.
  eexists. split; [reflexivity|].
  cbn [begun numLEDs numBytes brightness pixels rOffset gOffset bOffset
       wOffset endTime with_pin].
  split; [done|]. split; [done|]. split; [done|]. split; [reflexivity|].
  intros k Hk.
  unfold setPixelColor_c, setPixelColor, getPixelColor, fill.
  cbn [numLEDs with_pin].
  replace (k <? 0) with false by (symmetry; apply Z.ltb_ge; lia).
  replace (k >=? 0) with true by (symmetry; apply Z.geb_le; lia).
  done.
Qed.

(** X19.  When the allocator returns a block of the [2 * n] bytes asked
    for, the constructor for [n] <= 32767 pixels and a pin number
    [p] >= 0 completes, touching no register, and yields a strip of [n]
    pixels over that block, with brightness scaling off, not begun, with
    the pin, its output register (port B from pin 8 on, port D below) and
    its mask [1 << (p % 8)] recorded and the colour order decoded from the
    two-bit fields of [t]. *)
Theorem construct_block malloc raw m n p t block :
  0 <= n <= 32767 -> 0 <= p ->
  malloc (2 * n) = Some block -> Z.of_nat (length block) = 2 * n ->
  exists s, construct malloc raw m n p t = Some (s, m) /\
    block_ok s /\ numLEDs s = n /\ numBytes s = 2 * n /\
    pin s = p /\ port s = Some (if p >=? 8 then PORTB else PORTD) /\
    pinMask s = 2 ^ (p mod 8) /\
    brightness s = 0 /\ begun s = false /\
    rOffset s = Z.land (Z.shiftr (to_uint16 t) 4) 3 /\
    gOffset s = Z.land (Z.shiftr (to_uint16 t) 2) 3 /\
    bOffset s = Z.land (to_uint16 t) 3 /\
    wOffset s = Z.land (Z.shiftr (to_uint16 t) 6) 3.
Proof.
  intros Hn Hp Hblock Hsize.
  unfold construct, updateLength, updateType.
  cbn [pixels numLEDs].
  rewrite (to_uint16_small n) by lia.
  rewrite (to_uint16_small (n * 2)) by lia.
  replace (n * 2) with (2 * n) by lia. rewrite Hblock. cbv zeta.
  rewrite setPin_not_begun by done.
  eexists. split; [reflexivity|].
  cbn [begun numLEDs numBytes brightness pixels rOffset gOffset bOffset
       wOffset endTime pin port pinMask with_pin].
  split; [|by repeat split].
  split; [cbn; lia|]. exists block. split; [done|].
  cbn [numLEDs with_pin]. exact Hsize.
Qed.

(** X25.  With a negative pin number that is no multiple of 8, such as
    the -1 that stands for no pin, [p % 8] is negative and the shift
    [1 << (p % 8)] of [setPin] has no defined result: neither [setPin]
    nor the constructor, which calls it, has one. *)
Theorem setPin_negative_pin malloc raw s m n p t :
  p < 0 -> Z.rem p 8 <> 0 ->
  setPin s m p = None /\ construct malloc raw m n p t = None.
Proof.
  intros Hp Hrem.
  assert (Hmask : bit_mask (Z.rem p 8) = None).
  { unfold bit_mask.
    pose proof (Z.rem_nonpos p 8 ltac:(lia) ltac:(lia)).
    replace (0 <=? Z.rem p 8) with false
      by (symmetry; apply Z.leb_gt; lia).
    reflexivity. }
  assert (Hset : forall s' m', setPin s' m' p = None).
  { intros s' m'. unfold setPin. by rewrite Hmask. }
  split; [apply Hset|]. unfold construct. apply Hset.
Qed.

(** X22.  [begin()] of the alternate backend with a pin 0..13 completes,
    marks the strip begun, sets the pin's bit in its direction register
    and clears it in its output register (port D for pins 0..7, port B
    for pins 8..13), and changes no other bit of any register; with no
    pin (a negative number) it touches no register. *)
Theorem begin_drives_pin_low (s : AdafruitMyPixel) (m : AVR) :
  pin s <= 13 ->
  exists m', begin s m = Some (with_begun true s, m') /\
    SREG m' = SREG m /\
    (pin s < 0 -> m' = m) /\
    (0 <= pin s ->
     forall r k, 0 <= k < 8 ->
       Z.testbit (io m' r) k =
         if ioreg_eqb (pin_ddr (pin s)) r && (pin_bit (pin s) =? k) then true
         else if ioreg_eqb (pin_out (pin s)) r && (pin_bit (pin s) =? k)
              then false
              else Z.testbit (io m r) k).
Proof.
  intros Hpin. unfold begin.
  destruct (Z_lt_le_dec (pin s) 0) as [Hneg|Hpos].
  { replace (pin s >=? 8) with false
      by (symmetry; rewrite Z.geb_leb; apply Z.leb_gt; lia).
    replace (pin s >=? 0) with false
      by (symmetry; rewrite Z.geb_leb; apply Z.leb_gt; lia).
    exists m. split; [done|]. split; [done|]. split; [done|]. lia. }
  destruct (Z_lt_le_dec (pin s) 8) as [Hlow|Hhigh].
  - replace (pin s >=? 8) with false
      by (symmetry; rewrite Z.geb_leb; apply Z.leb_gt; lia).
    replace (pin s >=? 0) with true by (symmetry; apply Z.geb_le; lia).
    rewrite bit_mask_pow by lia. cbn [mbind option_bind].
    eexists. split; [reflexivity|]. split; [done|]. split; [lia|].
    intros _ r k Hk. unfold pin_ddr, pin_out, pin_bit.
    replace (pin s <? 8) with true by (symmetry; apply Z.ltb_lt; lia).
    unfold clear_bits, set_bits, store_io. cbn [io with_io emit ioreg_eqb].
    destruct r; cbn [ioreg_eqb andb];
      rewrite ?land_lnot_bit_byte, ?lor_bit_byte by lia;
      destruct (pin s =? k); cbn; rewrite ?andb_true_r, ?andb_false_r,
        ?orb_true_r, ?orb_false_r; done.
  - replace (pin s >=? 8) with true by (symmetry; apply Z.geb_le; lia).
    rewrite to_int_small by (unfold is_int; lia).
    rewrite bit_mask_pow by lia. cbn [mbind option_bind].
    eexists. split; [reflexivity|]. split; [done|]. split; [lia|].
    intros _ r k Hk. unfold pin_ddr, pin_out, pin_bit.
    replace (pin s <? 8) with false by (symmetry; apply Z.ltb_ge; lia).
    replace (pin s <? 14) with true by (symmetry; apply Z.ltb_lt; lia).
    unfold clear_bits, set_bits, store_io. cbn [io with_io emit ioreg_eqb].
    destruct r; cbn [ioreg_eqb andb];
      rewrite ?land_lnot_bit_byte, ?lor_bit_byte by lia;
      destruct (pin s - 8 =? k); cbn; rewrite ?andb_true_r, ?andb_false_r,
        ?orb_true_r, ?orb_false_r; done.
Qed.

End PixelPin.

(** ** Concrete runs of the theorems above *)

Lemma matrix_10x3_ready : matrix_ready T30 (this (matrix_10x3 30)).
Proof.
  split; [|split; [by left|split; [by vm_compute|reflexivity]]].
  split; [by vm_compute|]. split; [by vm_compute|reflexivity].
Qed.

Lemma white4_ports budget : ports_ready T4 (this (white4 budget)).
Proof.
  split; [intros _; eexists; reflexivity|].
  intros H. vm_compute in H. discriminate H.
Qed.

Lemma white4_wired budget : wired T4 (this (white4 budget)).
Proof.
  split; [apply white4_ports|]. split.
  - intros _. split; [concrete|]. split; reflexivity.
  - intros H. vm_compute in H. discriminate H.
Qed.

Lemma white4_idle budget : line_idle T4 (mcu (white4 budget)).
Proof. split; reflexivity. Qed.

Lemma begun4_wired : wired T4 (this (after (begin T4) (white4 0))).
Proof.
  split.
  { split; [intros _; eexists; reflexivity|].
    intros H. vm_compute in H. discriminate H. }
  split.
  - intros _. split; [concrete|]. split; reflexivity.
  - intros H. vm_compute in H. discriminate H.
Qed.

Lemma begun4_latched : latched T4 (this (after (begin T4) (white4 0))).
Proof. intros _. split; reflexivity. Qed.

Lemma begun4_idle : line_idle T4 (mcu (after (begin T4) (white4 0))).
Proof. split; reflexivity. Qed.

Lemma clocked_wired :
  wired T_clocked (this (after (begin T_clocked) clocked1)).
Proof.
  split.
  { split; intros _; eexists; reflexivity. }
  split.
  - intros _. split; [concrete|]. split; reflexivity.
  - intros _. split; [concrete|]. split; [concrete|]. split; reflexivity.
Qed.

Lemma clocked_latched :
  latched T_clocked (this (after (begin T_clocked) clocked1)).
Proof. intros H. discriminate H. Qed.

Lemma clocked_idle :
  line_idle T_clocked (mcu (after (begin T_clocked) clocked1)).
Proof. split; reflexivity. Qed.

Lemma order_ok_T4 : order_ok T4.
Proof. by vm_compute. Qed.

Lemma set_n_get_n_witness :
  let o := this (black4 0) in
  Z.of_nat (length (leds o)) = amount T4 /\ 0 <= 2 < amount T4 /\
  exists o', set_n T4 o 2 mRed = Some o' /\ get_n o' 2 = Some mRed.
Proof.
  assert (Hlen : Z.of_nat (length (leds (this (black4 0)))) = amount T4)
    by reflexivity.
  assert (Hn : 0 <= 2 < amount T4) by concrete.
  split; [exact Hlen|]. split; [exact Hn|].
  destruct (set_n_get_n T4 (this (black4 0)) 2 mRed Hlen Hn)
    as (o' & Hset & Hget & _).
  exists o'. split; [exact Hset|exact Hget].
Defined.

Lemma fill_every_pixel_witness :
  let o := this (black4 0) in
  Z.of_nat (length (leds o)) = amount T4 /\
  get_n (fill T4 o mRed) 3 = Some mRed.
Proof.
  assert (Hlen : Z.of_nat (length (leds (this (black4 0)))) = amount T4)
    by reflexivity.
  split; [exact Hlen|].
  apply (proj2 (fill_every_pixel T4 (this (black4 0)) mRed Hlen)).
  concrete.
Defined.

Lemma fill_range_wraps_witness :
  let o := this (black4 0) in
  0 <= 3 /\ 5 < 32767 /\ 0 < amount T4 /\
  Z.of_nat (length (leds o)) = amount T4 /\
  exists o', fill_range T4 o 3 5 mRed = Some o' /\
    get_n o' (5 mod amount T4) = Some mRed.
Proof.
  assert (H1 : 0 <= 3) by concrete.
  assert (H2 : 5 < 32767) by reflexivity.
  assert (H3 : 0 < amount T4) by reflexivity.
  assert (Hlen : Z.of_nat (length (leds (this (black4 0)))) = amount T4)
    by reflexivity.
  split; [exact H1|]. split; [exact H2|]. split; [exact H3|].
  split; [exact Hlen|].
  destruct (fill_range_wraps T4 (this (black4 0)) 3 5 mRed H1 H2 H3 Hlen)
    as (o' & Hrun & _ & Hin & _).
  exists o'. split; [exact Hrun|].
  apply Hin. concrete.
Defined.

Lemma fillGradient_steps_witness :
  let o := this (black4 0) in
  0 <= 1 <= 3 /\ 3 <= 32767 /\ 3 - 1 <= amount T4 /\ 0 < amount T4 /\
  Z.of_nat (length (leds o)) = amount T4 /\
  exists o', fillGradient T4 step_blend o 1 3 mBlack mWhite = Some o' /\
    get_n o' (3 mod amount T4) = get_n o (3 mod amount T4).
Proof.
  assert (H1 : 0 <= 1 <= 3) by concrete.
  assert (H2 : 3 <= 32767) by concrete.
  assert (H3 : 3 - 1 <= amount T4) by concrete.
  assert (H4 : 0 < amount T4) by reflexivity.
  assert (Hlen : Z.of_nat (length (leds (this (black4 0)))) = amount T4)
    by reflexivity.
  split; [exact H1|]. split; [exact H2|]. split; [exact H3|].
  split; [exact H4|]. split; [exact Hlen|].
  destruct (fillGradient_steps T4 step_blend (this (black4 0)) 1 3
              mBlack mWhite H1 H2 H3 H4 Hlen)
    as (o' & Hrun & _ & _ & _ & Hto).
  exists o'. split; [exact Hrun|].
  apply Hto. reflexivity.
Defined.

Lemma set_xy_get_xy_witness :
  let o := this (matrix_10x3 30) in
  matrix_ready T30 o /\ on_matrix o 0 2 /\
  exists o', set_xy T30 o 0 2 mRed = Stored o' /\ get_xy o' 0 2 = Some mRed.
Proof.
  assert (Hon : on_matrix (this (matrix_10x3 30)) 0 2)
    by concrete.
  split; [exact matrix_10x3_ready|]. split; [exact Hon|].
  destruct (set_xy_get_xy T30 (this (matrix_10x3 30)) 0 2 mRed
              matrix_10x3_ready Hon) as (o' & Hset & _ & Hget & _).
  exists o'. split; [exact Hset|exact Hget].
Defined.

Lemma drawBitmap_clips_and_flips_witness :
  let o := this (matrix_10x3 30) in
  matrix_ready T30 o /\ 0 <= 2 /\ 0 <= 2 /\ 2 * 2 <= 32767 /\
  Z.of_nat (length [1; 2; 3; 4]) = 2 * 2 /\
  is_int 9 /\ is_int (-1) /\ 9 + 2 <= 32768 /\ -1 + 2 <= 32768 /\
  exists o', drawBitmap8 T30 grey o 9 (-1) [1; 2; 3; 4] 2 2 = Some o' /\
    get_xy o' 9 0 = Some (grey 1) /\ get_xy o' 8 0 = get_xy o 8 0.
Proof.
  assert (H1 : 0 <= 2) by concrete.
  assert (H2 : 2 * 2 <= 32767) by concrete.
  assert (H3 : Z.of_nat (length [1; 2; 3; 4]) = 2 * 2) by reflexivity.
  assert (H4 : is_int 9) by concrete.
  assert (H5 : is_int (-1)) by concrete.
  assert (H6 : 9 + 2 <= 32768) by concrete.
  assert (H7 : -1 + 2 <= 32768) by concrete.
  split; [exact matrix_10x3_ready|]. split; [exact H1|]. split; [exact H1|].
  split; [exact H2|]. split; [exact H3|]. split; [exact H4|].
  split; [exact H5|]. split; [exact H6|]. split; [exact H7|].
  destruct (drawBitmap_clips_and_flips T30 grey (this (matrix_10x3 30))
              9 (-1) [1; 2; 3; 4] 2 2 matrix_10x3_ready H1 H1 H2 H3 H4 H5
              H6 H7) as (o' & Hrun & _ & Hpix).
  exists o'. split; [exact Hrun|]. split.
  - apply (proj1 (Hpix 9 0 ltac:(concrete))); concrete.
  - apply (proj2 (Hpix 8 0 ltac:(concrete))).
    vm_compute. intros [[H _] _]. apply H. reflexivity.
Defined.

Lemma stream_puts_ops_witness :
  let s := white4 0 in
  wired T4 (this s) /\ line_idle T4 (mcu s) /\ order_ok T4 /\
  exists s',
    (begin T4 ;; run_stream T4 [Send mRed 0; SendRaw 165] ;; end_ T4) s
    = Some (tt, s') /\
    received T4 (mcu s) (mcu s')
      (on_wire T4 ([] ++ ([Send mRed 0; SendRaw 165]
                          ≫= op_bytes T4 (_bright (this s))) ++ [])) /\
    user_state (this s') = user_state (this s).
Proof.
  split; [exact (white4_wired 0)|]. split; [exact (white4_idle 0)|].
  split; [exact order_ok_T4|].
  destruct (stream_puts_ops T4 (white4 0) [Send mRed 0; SendRaw 165]
              (white4_wired 0) (white4_idle 0) order_ok_T4)
    as (s' & Hrun & Hrecv & _ & Huser).
  exists s'. split; [exact Hrun|]. split; [exact Hrecv|exact Huser].
Defined.

Lemma white4_ready' budget :
  let o := this (white4 budget) in
  Z.of_nat (length (leds o)) = amount T4 /\
  (CHIP4COLOR T4 = true -> length (white o) = length (leds o)).
Proof. split; [reflexivity|]. intros H. discriminate H. Qed.

Lemma sendRaw_puts_byte_witness :
  (let s := after (begin T4) (white4 0) in
   wired T4 (this s) /\ latched T4 (this s) /\ line_idle T4 (mcu s) /\
   is_uint8 165 /\
   exists s', sendRaw T4 165 s = Some (tt, s') /\
     received T4 (mcu s) (mcu s')
       [true; false; true; false; false; true; false; true]) /\
  (let s := after (begin T_clocked) clocked1 in
   wired T_clocked (this s) /\ latched T_clocked (this s) /\
   line_idle T_clocked (mcu s) /\ is_uint8 165 /\
   exists s', sendRaw T_clocked 165 s = Some (tt, s') /\
     received T_clocked (mcu s) (mcu s')
       [true; false; true; false; false; true; false; true]).
Proof.
  assert (Hb : is_uint8 165) by concrete.
  split.
  - split; [exact begun4_wired|]. split; [exact begun4_latched|].
    split; [exact begun4_idle|]. split; [exact Hb|].
    destruct (sendRaw_puts_byte T4 (after (begin T4) (white4 0)) 165
                begun4_wired begun4_latched begun4_idle Hb)
      as (s' & Hrun & Hrecv & _).
    exists s'. split; [exact Hrun|exact Hrecv].
  - split; [exact clocked_wired|]. split; [exact clocked_latched|].
    split; [exact clocked_idle|]. split; [exact Hb|].
    destruct (sendRaw_puts_byte T_clocked (after (begin T_clocked) clocked1)
                165 clocked_wired clocked_latched clocked_idle Hb)
      as (s' & Hrun & Hrecv & _).
    exists s'. split; [exact Hrun|exact Hrecv].
Defined.

Lemma send_puts_pixel_witness :
  let s := after (begin T4) (white4 0) in
  wired T4 (this s) /\ latched T4 (this s) /\ line_idle T4 (mcu s) /\
  order_ok T4 /\
  exists s', send T4 {| r := 1; g := 2; b := 3 |} 0 s = Some (tt, s') /\
    received T4 (mcu s) (mcu s')
      (on_wire T4 (pixel_bytes T4 (_showBright (this s))
                               {| r := 1; g := 2; b := 3 |} 0)).
Proof.
  split; [exact begun4_wired|]. split; [exact begun4_latched|].
  split; [exact begun4_idle|]. split; [exact order_ok_T4|].
  destruct (send_puts_pixel T4 (after (begin T4) (white4 0))
              {| r := 1; g := 2; b := 3 |} 0
              begun4_wired begun4_latched begun4_idle order_ok_T4)
    as (s' & Hrun & Hrecv & _).
  exists s'. split; [exact Hrun|exact Hrecv].
Defined.

Lemma show_puts_frame_witness :
  let s := white4 0 in
  wired T4 (this s) /\ line_idle T4 (mcu s) /\ order_ok T4 /\
  Z.of_nat (length (leds (this s))) = amount T4 /\
  (CHIP4COLOR T4 = true -> length (white (this s)) = length (leds (this s))) /\
  show_brightness T4 (this s) = Some 50 /\
  exists s', show T4 s = Some (tt, s') /\
    received T4 (mcu s) (mcu s')
      (on_wire T4 (frame_bytes T4 50 (leds (this s))
                               (whites_of T4 (this s)))) /\
    line_idle T4 (mcu s').
Proof.
  assert (Hb : show_brightness T4 (this (white4 0)) = Some 50) by reflexivity.
  split; [exact (white4_wired 0)|]. split; [exact (white4_idle 0)|].
  split; [exact order_ok_T4|].
  split; [exact (proj1 (white4_ready' 0))|].
  split; [exact (proj2 (white4_ready' 0))|]. split; [exact Hb|].
  exact (show_puts_frame T4 (white4 0) 50 (white4_wired 0) (white4_idle 0)
           order_ok_T4 (proj1 (white4_ready' 0)) (proj2 (white4_ready' 0))
           Hb).
Defined.

Lemma init_configures_pins_witness :
  let s := power_on (replicate 4 mBlack) in
  pin_valid (pin T4) /\
  (pinCLK T4 = MLED_NO_CLOCK \/ pin_valid (pinCLK T4)) /\
  exists s', init T4 s = Some (tt, s') /\
    _dat_port (this s') = Some PORTD /\ _dat_mask (this s') = 64.
Proof.
  assert (Hp : pin_valid (pin T4)) by concrete.
  assert (Hc : pinCLK T4 = MLED_NO_CLOCK \/ pin_valid (pinCLK T4))
    by (left; reflexivity).
  split; [exact Hp|]. split; [exact Hc|].
  destruct (init_configures_pins T4 (power_on (replicate 4 mBlack)) Hp Hc)
    as (s' & Hrun & Hport & _ & Hmask & _).
  exists s'. split; [exact Hrun|]. split; [exact Hport|exact Hmask].
Defined.

Lemma init_wires_witness :
  (let s := power_on (replicate 4 mBlack) in
   pin_valid (pin T4) /\
   (pinCLK T4 = MLED_NO_CLOCK \/ pin_valid (pinCLK T4)) /\
   line_idle T4 (mcu s) /\
   exists s', init T4 s = Some (tt, s') /\
     wired T4 (this s') /\ line_idle T4 (mcu s')) /\
  (let s := power_on [mRed] in
   pin_valid (pin T_clocked) /\ pin_valid (pinCLK T_clocked) /\
   pin T_clocked <> pinCLK T_clocked /\
   line_idle T_clocked (mcu s) /\
   exists s', init T_clocked s = Some (tt, s') /\
     wired T_clocked (this s') /\ line_idle T_clocked (mcu s')).
Proof.
  split.
  - assert (Hp : pin_valid (pin T4)) by concrete.
    assert (Hc : pinCLK T4 = MLED_NO_CLOCK \/ pin_valid (pinCLK T4))
      by (left; reflexivity).
    assert (Ha : chip T4 = LED_APA102 ->
                 pin_valid (pinCLK T4) /\ pin T4 <> pinCLK T4)
      by (intros H; discriminate H).
    assert (Hi : line_idle T4 (mcu (power_on (replicate 4 mBlack))))
      by (split; reflexivity).
    split; [exact Hp|]. split; [exact Hc|]. split; [exact Hi|].
    destruct (init_wires T4 (power_on (replicate 4 mBlack)) Hp Hc Ha)
      as (s' & Hrun & Hw & _ & Hidle).
    exists s'. split; [exact Hrun|]. split; [exact Hw|exact (Hidle Hi)].
  - assert (Hp : pin_valid (pin T_clocked)) by concrete.
    assert (Hq : pin_valid (pinCLK T_clocked)) by concrete.
    assert (Hne : pin T_clocked <> pinCLK T_clocked) by concrete.
    assert (Hi : line_idle T_clocked (mcu (power_on [mRed])))
      by (split; reflexivity).
    split; [exact Hp|]. split; [exact Hq|]. split; [exact Hne|].
    split; [exact Hi|].
    destruct (init_wires T_clocked (power_on [mRed]) Hp (or_intror Hq)
                (fun _ => conj Hq Hne))
      as (s' & Hrun & Hw & _ & Hidle).
    exists s'. split; [exact Hrun|]. split; [exact Hw|exact (Hidle Hi)].
Defined.

Lemma init_pin_outside_tables_witness :
  (20 = pin T_pin20 \/ 20 = pinCLK T_pin20) /\ 20 <> MLED_NO_CLOCK /\
  ~ pin_valid 20 /\
  init T_pin20 (power_on [mBlack]) = None.
Proof.
  assert (H1 : 20 = pin T_pin20 \/ 20 = pinCLK T_pin20) by (left; reflexivity).
  assert (H2 : 20 <> MLED_NO_CLOCK) by (intros H; discriminate H).
  assert (H3 : ~ pin_valid 20).
  { intros [_ H]. apply H. reflexivity. }
  split; [exact H1|]. split; [exact H2|]. split; [exact H3|].
  exact (init_pin_outside_tables T_pin20 (power_on [mBlack]) 20 H1 H2 H3).
Defined.

Lemma microLED_strip_defaults_witness :
  let s := power_on (replicate 4 mBlack) in
  microLED_strip T4 s = Some (tt, after (microLED_strip T4) s) /\
  _bright (this (after (microLED_strip T4) s)) = 50 /\
  forall x y color,
    set_xy T4 (this (after (microLED_strip T4) s)) x y color
    = Stored (this (after (microLED_strip T4) s)).
Proof.
  assert (Hrun : microLED_strip T4 (power_on (replicate 4 mBlack))
                 = Some (tt, after (microLED_strip T4)
                                   (power_on (replicate 4 mBlack))))
    by (vm_compute; reflexivity).
  split; [exact Hrun|].
  pose proof (microLED_strip_defaults T4 _ _ _ Hrun)
    as (Hb & _ & _ & _ & _ & _ & _ & Hset).
  split; [exact Hb|exact Hset].
Defined.

Section AdafruitRuns.
Import Adafruit AdafruitOps.

Lemma pixel_strip_block : block_ok (pixel_strip 3 82).
Proof.
  split; [concrete|].
  eexists. split; [reflexivity|reflexivity].
Qed.

Lemma ColorHSV_value_and_saturation_witness :
  is_uint16 21845 /\ is_uint8 255 /\ is_uint8 200 /\
  0 <= ColorHSV 21845 255 200 < 2 ^ 24.
Proof.
  assert (H1 : is_uint16 21845) by concrete.
  assert (H2 : is_uint8 255) by concrete.
  assert (H3 : is_uint8 200) by concrete.
  split; [exact H1|]. split; [exact H2|]. split; [exact H3|].
  exact (proj1 (ColorHSV_value_and_saturation 21845 255 200 H1 H2 H3)).
Defined.

Lemma setBrightness_getBrightness_witness :
  is_uint8 255 /\
  getBrightness (setBrightness (pixel_strip 3 82) 255) = 255 /\
  brightness (setBrightness (pixel_strip 3 82) 255) = 0.
Proof.
  assert (H : is_uint8 255) by concrete.
  split; [exact H|].
  destruct (setBrightness_getBrightness (pixel_strip 3 82) 255 H)
    as (Hget & Hb & _).
  split; [exact Hget|exact Hb].
Defined.

Lemma clear_every_pixel_witness :
  let s := pixel_strip 3 82 in
  block_ok s /\ numBytes s = 2 * numLEDs s /\
  exists s', clear s = Some s' /\ getPixelColor s' 2 = Some 0.
Proof.
  assert (Hb : numBytes (pixel_strip 3 82) = 2 * numLEDs (pixel_strip 3 82))
    by reflexivity.
  split; [exact pixel_strip_block|]. split; [exact Hb|].
  destruct (clear_every_pixel (pixel_strip 3 82) pixel_strip_block Hb)
    as (s' & Hrun & _ & Hget).
  exists s'. split; [exact Hrun|]. apply Hget. concrete.
Defined.

Lemma setPixelColor_other_pixels_witness :
  let s := pixel_strip 3 82 in
  block_ok s /\ 0 <= 1 /\
  exists s', setPixelColor s 1 255 128 0 = Some s' /\
    getPixelColor s' 2 = getPixelColor s 2.
Proof.
  assert (H : 0 <= 1) by concrete.
  split; [exact pixel_strip_block|]. split; [exact H|].
  destruct (setPixelColor_other_pixels (pixel_strip 3 82) 1 255 128 0
              pixel_strip_block H) as (s' & Hrun & _ & Hget).
  exists s'. split; [exact Hrun|]. apply Hget; concrete.
Defined.

Lemma first_channel_round_trip_witness :
  let s := pixel_strip 3 82 in
  block_ok s /\ brightness s = 0 /\ 0 <= 1 < numLEDs s /\
  is_uint8 255 /\ is_uint8 130 /\ is_uint8 7 /\
  exists s' c, setPixelColor s 1 255 130 7 = Some s' /\
    getPixelColor s' 1 = Some c /\
    red c = Z.land (channel_at s 0 255 130 7) 248.
Proof.
  assert (H1 : brightness (pixel_strip 3 82) = 0) by reflexivity.
  assert (H2 : 0 <= 1 < numLEDs (pixel_strip 3 82)) by concrete.
  assert (H3 : is_uint8 255) by concrete.
  assert (H4 : is_uint8 130) by concrete.
  assert (H5 : is_uint8 7) by concrete.
  split; [exact pixel_strip_block|]. split; [exact H1|]. split; [exact H2|].
  split; [exact H3|]. split; [exact H4|]. split; [exact H5|].
  destruct (first_channel_round_trip (pixel_strip 3 82) 1 255 130 7
              pixel_strip_block H1 H2 H3 H4 H5)
    as (s' & c & Hset & Hget & _ & Hred).
  exists s', c. split; [exact Hset|]. split; [exact Hget|exact Hred].
Defined.

Lemma brightness_zero_stores_black_witness :
  let s := pixel_strip 3 82 in
  block_ok s /\ 0 <= 1 < numLEDs s /\
  is_uint8 255 /\ is_uint8 130 /\ is_uint8 7 /\
  exists s', setPixelColor (setBrightness s 0) 1 255 130 7 = Some s' /\
    getPixelColor s' 1 = Some 0.
Proof.
  assert (H2 : 0 <= 1 < numLEDs (pixel_strip 3 82)) by concrete.
  assert (H3 : is_uint8 255) by concrete.
  assert (H4 : is_uint8 130) by concrete.
  assert (H5 : is_uint8 7) by concrete.
  split; [exact pixel_strip_block|]. split; [exact H2|].
  split; [exact H3|]. split; [exact H4|]. split; [exact H5|].
  destruct (brightness_zero_stores_black (pixel_strip 3 82) 1 255 130 7
              pixel_strip_block H2 H3 H4 H5) as (s' & Hset & _ & Hget).
  exists s'. split; [exact Hset|exact Hget].
Defined.

Lemma construct_allocation_failure_witness :
  no_malloc (to_uint16 (to_uint16 3 * 2)) = None /\ 0 <= 6 /\
  exists s,
    construct no_malloc raw_pixel_object mcu_reset 3 6 82
      = Some (s, mcu_reset) /\
    numLEDs s = 0 /\ clear s = Some s.
Proof.
  assert (H : no_malloc (to_uint16 (to_uint16 3 * 2)) = None) by reflexivity.
  assert (Hp : 0 <= 6) by concrete.
  split; [exact H|]. split; [exact Hp|].
  destruct (construct_allocation_failure no_malloc raw_pixel_object mcu_reset
              3 6 82 H Hp)
    as (s & Hrun & Hn & _ & _ & Hclear & _).
  exists s. split; [exact Hrun|]. split; [exact Hn|exact Hclear].
Defined.

Lemma construct_block_witness :
  0 <= 3 <= 32767 /\ 0 <= 6 /\
  stale_malloc (2 * 3) = Some (replicate 6 170) /\
  Z.of_nat (length (replicate 6 170)) = 2 * 3 /\
  exists s,
    construct stale_malloc raw_pixel_object mcu_reset 3 6 82
      = Some (s, mcu_reset) /\
    block_ok s /\ numLEDs s = 3 /\ pin s = 6 /\
    port s = Some PORTD /\ pinMask s = 64.
Proof.
  assert (H1 : 0 <= 3 <= 32767) by concrete.
  assert (Hp : 0 <= 6) by concrete.
  assert (H2 : stale_malloc (2 * 3) = Some (replicate 6 170)) by reflexivity.
  assert (H3 : Z.of_nat (length (replicate 6 170)) = 2 * 3) by reflexivity.
  split; [exact H1|]. split; [exact Hp|]. split; [exact H2|].
  split; [exact H3|].
  destruct (construct_block stale_malloc raw_pixel_object mcu_reset 3 6 82 _
              H1 Hp H2 H3)
    as (s & Hrun & Hok & Hn & _ & Hpin & Hport & Hmask & _).
  exists s. split; [exact Hrun|]. split; [exact Hok|]. split; [exact Hn|].
  split; [exact Hpin|]. split; [exact Hport|exact Hmask].
Defined.

Lemma setPin_negative_pin_witness :
  -1 < 0 /\ Z.rem (-1) 8 <> 0 /\
  setPin raw_pixel_object mcu_reset (-1) = None /\
  construct stale_malloc raw_pixel_object mcu_reset 3 (-1) 82 = None.
Proof.
  assert (H1 : -1 < 0) by concrete.
  assert (H2 : Z.rem (-1) 8 <> 0) by concrete.
  split; [exact H1|]. split; [exact H2|].
  exact (setPin_negative_pin stale_malloc raw_pixel_object raw_pixel_object
           mcu_reset 3 (-1) 82 H1 H2).
Defined.

Lemma str2order_updateType_witness :
  (length (c_string (String.list_ascii_of_string order_GRB)) <= 4)%nat /\
  exists t, str2order (Some order_GRB) = Some t /\
    rOffset (updateType stale_malloc (pixel_strip 3 82) t) = 1 /\
    gOffset (updateType stale_malloc (pixel_strip 3 82) t) = 0 /\
    bOffset (updateType stale_malloc (pixel_strip 3 82) t) = 2.
Proof.
  assert (H : (length (c_string (String.list_ascii_of_string order_GRB)) <= 4)%nat)
    by (vm_compute; lia).
  split; [exact H|].
  destruct (str2order_updateType stale_malloc (pixel_strip 3 82) order_GRB H)
    as (t & Hrun & Hr & Hg & Hb & _).
  exists t. split; [exact Hrun|]. split; [exact Hr|]. split; [exact Hg|].
  exact Hb.
Defined.

Lemma fill_fills_range_witness :
  let s := pixel_strip 3 82 in
  block_ok s /\ 0 <= 1 < numLEDs s /\ 0 <= 5 /\ 1 + 5 <= 65535 /\
  exists s', fill s 16711680 1 5 = Some s' /\
    getPixelColor s' 0 = getPixelColor s 0.
Proof.
  assert (H1 : 0 <= 1 < numLEDs (pixel_strip 3 82)) by concrete.
  assert (H2 : 0 <= 5) by concrete.
  assert (H3 : 1 + 5 <= 65535) by concrete.
  split; [exact pixel_strip_block|]. split; [exact H1|]. split; [exact H2|].
  split; [exact H3|].
  destruct (fill_fills_range (pixel_strip 3 82) 16711680 1 5
              pixel_strip_block H1 H2 H3) as (s' & Hrun & _ & Hpix).
  exists s'. split; [exact Hrun|].
  apply (proj2 (Hpix 0 ltac:(concrete))).
  vm_compute. intros [H _]. apply H. reflexivity.
Defined.

Lemma begin_drives_pin_low_witness :
  pin (pixel_strip 3 82) <= 13 /\
  exists m', begin (pixel_strip 3 82) mcu_reset
             = Some (with_begun true (pixel_strip 3 82), m') /\
    Z.testbit (io m' DDRD) 6 = true.
Proof.
  assert (H : pin (pixel_strip 3 82) <= 13) by concrete.
  split; [exact H|].
  destruct (begin_drives_pin_low (pixel_strip 3 82) mcu_reset H)
    as (m' & Hrun & _ & _ & Hbits).
  exists m'. split; [exact Hrun|].
  exact (Hbits ltac:(concrete) DDRD 6 ltac:(concrete)).
Defined.

End AdafruitRuns.
